(** * MHC class-I binding predictor lesson: encoders, trainer, evaluator

    Shallow embedding of the code cells of [epitope/mhci_lesson.ipynb]
    (peptide encoders, [auc_score], [test_predictor], [build_predictor])
    and the properties stated about them.

    Conventions of the embedding.
    - A Python [str] is a [string]; [list(seq)] is [list_ascii_of_string],
      so a character is an [ascii] and characters are ordered by code
      point ([N_of_ascii]), as Python orders one-character strings.
    - A Python exception is a value of [Py.exn]; a function that can raise
      returns a [Py.result].
    - A pandas [DataFrame] with a default integer row index is a [Frame]:
      its column labels and its rows ([.values]).
    - Floating point numbers that the code only compares, divides and
      averages are exact rationals ([Q]) extended with NaN ([pyfloat]);
      the logarithmic affinity transform is stated over the reals. *)

From Stdlib Require Import Ascii String.
From Stdlib Require Import List Arith ZArith QArith Bool Lia.
From Stdlib Require Import Permutation Sorting.Sorted.
From Stdlib Require Import Reals Lra.
From Stdlib Require Lqa.
Import ListNotations.

Set Implicit Arguments.

(** ** Python results and exceptions *)

Module Py.

Inductive exn : Type :=
| KeyError
| ValueError
| IndexError
| NotFittedError.

Definition result (A : Type) : Type := (exn + A)%type.

Definition ret {A : Type} (a : A) : result A := inr a.
Definition raise {A : Type} (e : exn) : result A := inl e.

Definition bind {A B : Type} (m : result A) (k : A -> result B) : result B :=
  match m with
  | inl e => inl e
  | inr a => k a
  end.

(** A list comprehension whose element expression can raise. *)
Fixpoint mapM {A B : Type} (f : A -> result B) (l : list A) : result (list B) :=
  match l with
  | [] => ret []
  | a :: t =>
      match f a with
      | inl e => inl e
      | inr b =>
          match mapM f t with
          | inl e => inl e
          | inr bs => inr (b :: bs)
          end
      end
  end.

End Py.

Notation "x <- m ;; k" := (Py.bind m (fun x => k))
  (at level 61, m at next level, right associativity).

(** ** Sorting

    [sorted(...)], [sort_index] and a stable [argsort]: insertion sort for
    a boolean order [leb]; an element is placed before the first element
    it is below or equal to, so equal elements keep their order. *)

Section SortBy.

Context {A : Type} (leb : A -> A -> bool).

Fixpoint insert_by (x : A) (l : list A) : list A :=
  match l with
  | [] => [x]
  | y :: t => if leb x y then x :: l else y :: insert_by x t
  end.

Definition sort_by (l : list A) : list A := fold_right insert_by [] l.

End SortBy.

(** Order of one-character strings: by code point. *)
Definition char_leb (a b : ascii) : bool := (N_of_ascii a <=? N_of_ascii b)%N.

Definition char_lt (a b : ascii) : Prop := (N_of_ascii a < N_of_ascii b)%N.
Definition char_le (a b : ascii) : Prop := (N_of_ascii a <= N_of_ascii b)%N.

(** ** A small model of pandas frames *)

Module Pd.

Record Frame (L V : Type) : Type := mkFrame {
  columns : list L;
  values : list (list V)
}.

Arguments mkFrame {L V} _ _.

Definition mem (c : ascii) (l : list ascii) : bool := existsb (Ascii.eqb c) l.

(** [list(set(l))] up to order: the distinct elements of [l]. *)
Fixpoint unique (l : list ascii) : list ascii :=
  match l with
  | [] => []
  | c :: t => if mem c t then unique t else c :: unique t
  end.

(** [pd.DataFrame(l)] for a list of scalars: one column labelled [0], one
    row per element; an empty list gives a frame without any column. *)
Definition DataFrame_of_list {V : Type} (l : list V) : Frame nat V :=
  match l with
  | [] => mkFrame [] []
  | _ => mkFrame [0%nat] (map (fun v => [v]) l)
  end.

Fixpoint index_of {L : Type} (eqb : L -> L -> bool) (k : L) (l : list L) : option nat :=
  match l with
  | [] => None
  | x :: t => if eqb k x then Some 0%nat else option_map S (index_of eqb k t)
  end.

(** [df[k]]: the column labelled [k]; [KeyError] when there is none. *)
Definition getitem {L V : Type} (eqb : L -> L -> bool) (df : Frame L V) (k : L)
  : Py.result (list V) :=
  match index_of eqb k (columns df) with
  | None => Py.raise Py.KeyError
  | Some j =>
      Py.ret (flat_map (fun r => match nth_error r j with
                                 | Some v => [v]
                                 | None => []
                                 end) (values df))
  end.

(** [pd.DataFrame(np.zeros((n, len(o)), dtype=int), columns=o)] *)
Definition zeros (n : nat) (o : list ascii) : Frame ascii Z :=
  mkFrame o (repeat (repeat 0%Z (length o)) n).

(** [s.str.get_dummies(sep)] on a series of one-character strings.  pandas
    splits every entry on [sep], takes as columns the sorted distinct
    non-empty pieces, and marks entry [c] in column [t] when [sep+t+sep]
    occurs in [sep+c+sep].  For a one-character entry the only piece is the
    character itself, unless it is the separator, which splits into empty
    pieces and so gets no column and an all-zero row. *)
Definition str_get_dummies (sep : ascii) (s : list ascii) : Frame ascii Z :=
  let tags := sort_by char_leb (unique (filter (fun c => negb (Ascii.eqb c sep)) s)) in
  mkFrame tags
    (map (fun c => map (fun t => if Ascii.eqb c t then 1%Z else 0%Z) tags) s).

(** [a.join(x)] for two frames on the same default row index: the columns
    of [x] are appended; overlapping column labels raise [ValueError]. *)
Definition join {V : Type} (a x : Frame ascii V) : Py.result (Frame ascii V) :=
  if existsb (fun c => mem c (columns x)) (columns a)
  then Py.raise Py.ValueError
  else Py.ret (mkFrame (columns a ++ columns x)
                 (map (fun rr => fst rr ++ snd rr) (combine (values a) (values x)))).

(** [a.sort_index(axis=1)]: columns reordered by label, every row permuted
    the same way. *)
Definition sort_index_axis1 {V : Type} (a : Frame ascii V) : Frame ascii V :=
  mkFrame (sort_by char_leb (columns a))
    (map (fun r => map snd (sort_by (fun lv lw => char_leb (fst lv) (fst lw)) (combine (columns a) r)))
       (values a)).

(** [a.values.flatten()]: row-major. *)
Definition flatten {L V : Type} (a : Frame L V) : list V := concat (values a).

(** [x.iloc[:, :-k]]: all rows, the last [k] columns dropped. *)
Definition iloc_drop_last {L V : Type} (k : nat) (a : Frame L V) : Frame L V :=
  mkFrame (firstn (length (columns a) - k) (columns a))
    (map (fun r => firstn (length r - k) r) (values a)).

End Pd.

(** ** Encoders *)

Module Encoder.

Import Pd.

Definition codes : list ascii :=
  list_ascii_of_string "ACDEFGHIKLMNPQRSTVWY".

Definition comma : ascii := ","%char.

(** [[
def one_hot_encode(seq):
    o = list(set(codes) - set(seq))
    s = pd.DataFrame(list(seq))
    x = pd.DataFrame(np.zeros((len(seq),len(o)),dtype=int),columns=o)
    a = s[0].str.get_dummies(sep=',')
    a = a.join(x)
    a = a.sort_index(axis=1)
    e = a.values.flatten()
    return e
]] *)
Definition one_hot_encode (seq : string) : Py.result (list Z) :=
  let o := filter (fun c => negb (mem c (list_ascii_of_string seq))) codes in
  let s := DataFrame_of_list (list_ascii_of_string seq) in
  let x := zeros (String.length seq) o in
  s0 <- getitem Nat.eqb s 0%nat ;;
  let a := str_get_dummies comma s0 in
  a <- join a x ;;
  let a := sort_index_axis1 a in
  let e := flatten a in
  Py.ret e.

Definition pep : string := "ALDFEQEMT".

(** A lookup table read with [index_col=0] ([nlf]) or shipped by the
    [epitopepredict] package ([ep.blosum62]): labelled rows, and for every
    column label the column's values in row order.  The notebook does not
    contain the tables, so the encoders take them as arguments. *)
Record Table (V : Type) : Type := mkTable {
  row_labels : list ascii;
  table_columns : list (ascii * list V)
}.

(** [tbl[c]]: the column labelled [c], a series indexed by the row labels;
    [KeyError] when the table has no such column. *)
Definition table_getitem {V : Type} (tbl : Table V) (c : ascii) : Py.result (list V) :=
  match find (fun cv => Ascii.eqb c (fst cv)) (table_columns tbl) with
  | Some cv => Py.ret (snd cv)
  | None => Py.raise Py.KeyError
  end.

(** [pd.DataFrame(rows).reset_index(drop=True)] for series taken from one
    table: every series is a row, the columns are the series' index. *)
Definition DataFrame_of_series {V : Type} (tbl : Table V) (rows : list (list V))
  : Frame ascii V :=
  match rows with
  | [] => mkFrame [] []
  | _ => mkFrame (row_labels tbl) rows
  end.

(** [[
def nlf_encode(seq):
    x = pd.DataFrame([nlf[i] for i in seq]).reset_index(drop=True)
    e = x.values.flatten()
    return e
]] *)
Definition nlf_encode (nlf : Table Q) (seq : string) : Py.result (list Q) :=
  rows <- Py.mapM (table_getitem nlf) (list_ascii_of_string seq) ;;
  let x := DataFrame_of_series nlf rows in
  let e := flatten x in
  Py.ret e.

(** [[
def blosum_encode(seq):
    s=list(seq)
    x = pd.DataFrame([blosum[i] for i in seq]).reset_index(drop=True)
    x = x.iloc[:,:-4]
    e = x.values.flatten()
    return e
]] *)
Definition blosum_encode (blosum : Table Z) (seq : string) : Py.result (list Z) :=
  rows <- Py.mapM (table_getitem blosum) (list_ascii_of_string seq) ;;
  let x := DataFrame_of_series blosum rows in
  let x := iloc_drop_last 4 x in
  let e := flatten x in
  Py.ret e.

(** The global numpy generator: an abstract state; [np.random.randint(high)]
    returns a draw and the next state. *)
Section Random.

Variable RNG : Type.
Variable randint : Z -> RNG -> Z * RNG.

(** [[x(i) for i in l]] where [x] draws from the generator. *)
Fixpoint draw_each {A : Type} (draw : RNG -> Z * RNG) (l : list A) (g : RNG)
  : list Z * RNG :=
  match l with
  | [] => ([], g)
  | _ :: t =>
      let (v, g1) := draw g in
      let (vs, g2) := draw_each draw t g1 in
      (v :: vs, g2)
  end.

(** [[
def random_encode(p):
    return [np.random.randint(20) for i in pep]
]]
    The comprehension runs over the global [pep], not over the argument. *)
Definition random_encode (p : string) (g : RNG) : list Z * RNG :=
  draw_each (randint 20) (list_ascii_of_string pep) g.

End Random.

End Encoder.

(** ** numpy floats and array helpers *)

Module Np.

(** A float the code computes with: an exact rational or NaN. *)
Inductive pyfloat : Type :=
| Fin (q : Q)
| NaN.

Definition fadd (a b : pyfloat) : pyfloat :=
  match a, b with
  | Fin p, Fin q => Fin (p + q)
  | _, _ => NaN
  end.

Definition fsub (a b : pyfloat) : pyfloat :=
  match a, b with
  | Fin p, Fin q => Fin (p - q)
  | _, _ => NaN
  end.

Definition fmul (a b : pyfloat) : pyfloat :=
  match a, b with
  | Fin p, Fin q => Fin (p * q)
  | _, _ => NaN
  end.

(** Division by a non-zero finite number; [0/0] is NaN. *)
Definition fdiv (a b : pyfloat) : pyfloat :=
  match a, b with
  | Fin p, Fin q => if Qeq_bool q 0 then NaN else Fin (p / q)
  | _, _ => NaN
  end.

(** Comparisons: false as soon as one side is NaN. *)
Definition flt (a b : pyfloat) : bool :=
  match a, b with
  | Fin p, Fin q => negb (Qle_bool q p)
  | _, _ => false
  end.

Definition fle (a b : pyfloat) : bool :=
  match a, b with
  | Fin p, Fin q => Qle_bool p q
  | _, _ => false
  end.

(** The same number, up to the representation of the fraction. *)
Definition same_float (a b : pyfloat) : Prop :=
  match a, b with
  | Fin p, Fin q => p == q
  | NaN, NaN => True
  | _, _ => False
  end.

Definition fsum (l : list pyfloat) : pyfloat := fold_left fadd l (Fin 0).

(** [np.mean(l)] *)
Definition mean (l : list pyfloat) : pyfloat :=
  fdiv (fsum l) (Fin (inject_Z (Z.of_nat (length l)))).

(** [np.diff(l)] *)
Fixpoint diff (l : list pyfloat) : list pyfloat :=
  match l with
  | [] => []
  | a :: t =>
      match t with
      | [] => []
      | b :: _ => fsub b a :: diff t
      end
  end.

(** [np.cumsum(l)] *)
Fixpoint cumsum_from (acc : Z) (l : list Z) : list Z :=
  match l with
  | [] => []
  | a :: t => (acc + a)%Z :: cumsum_from (acc + a) t
  end.

Definition cumsum (l : list Z) : list Z := cumsum_from 0 l.

(** [np.trapz(y, x)]: [(d * (y[1:] + y[:-1]) / 2.0).sum()] with [d = diff(x)]. *)
Definition trapz (y x : list pyfloat) : pyfloat :=
  fsum (map (fun dy => fdiv (fmul (fst dy) (snd dy)) (Fin 2))
          (combine (diff x) (map (fun p => fadd (snd p) (fst p)) (combine y (tl y))))).

(** [a[mask]] *)
Definition select {A : Type} (mask : list bool) (l : list A) : list A :=
  map snd (filter (fun bx => fst bx) (combine mask l)).

End Np.

(** ** scikit-learn metrics as called by [auc_score]

    [metrics.roc_curve] and [metrics.auc] belong to the library, not to
    the notebook; the definitions follow the library's algorithm step by
    step, on exact rationals. *)

Module Metrics.

Import Np.

(** Positions [i] with [score[i] <> score[i+1]], counted from [i0]:
    [np.where(np.diff(y_score))[0]]. *)
Fixpoint distinct_value_indices (i0 : nat) (score : list Q) : list nat :=
  match score with
  | [] => []
  | a :: t =>
      match t with
      | [] => []
      | b :: _ =>
          if Qeq_bool a b then distinct_value_indices (S i0) t
          else i0 :: distinct_value_indices (S i0) t
      end
  end.

(** [_binary_clf_curve(y_true, y_score, pos_label)]: false and true
    positive counts at every distinct score, scores in decreasing order.
    The rows are sorted by a stable ascending sort that is then reversed. *)
Definition desc_rows (y_true : list Z) (y_score : list Q) (pos_label : Z)
  : list (Q * Z) :=
  let y := map (fun t => if (t =? pos_label)%Z then 1%Z else 0%Z) y_true in
  rev (sort_by (fun a b => Qle_bool (fst a) (fst b)) (combine y_score y)).

Definition binary_clf_curve (y_true : list Z) (y_score : list Q) (pos_label : Z)
  : list Z * list Z :=
  let desc := desc_rows y_true y_score pos_label in
  let y_score := map fst desc in
  let y := map snd desc in
  let threshold_idxs := distinct_value_indices 0 y_score ++ [(length y - 1)%nat] in
  let tps := map (fun i => nth i (cumsum y) 0%Z) threshold_idxs in
  let fps := map (fun it => (1 + Z.of_nat (fst it) - snd it)%Z) (combine threshold_idxs tps) in
  (fps, tps).

(** The mask of [drop_intermediate]: a point is kept when the second
    difference of [fps] or of [tps] is non-zero there; both ends are kept. *)
Fixpoint inner_corners (pts : list (Z * Z)) : list bool :=
  match pts with
  | [] => []
  | a :: t =>
      match t with
      | b :: c :: _ =>
          (negb (fst c - 2 * fst b + fst a =? 0)%Z
           || negb (snd c - 2 * snd b + snd a =? 0)%Z) :: inner_corners t
      | _ => []
      end
  end.

Definition drop_intermediate (pts : list (Z * Z)) : list (Z * Z) :=
  if (2 <? length pts)%nat
  then select (true :: inner_corners pts ++ [true]) pts
  else pts.

Definition rate (counts : list Z) : list pyfloat :=
  let total := last counts 0%Z in
  if (total <=? 0)%Z
  then repeat NaN (length counts)
  else map (fun c => Fin (inject_Z c / inject_Z total)) counts.

(** Vocabulary for the statements: the true and the false positives among
    the first [i + 1] rows of the sorted labels [ys], and an abscissa array
    none of whose steps goes down. *)
Definition tp_at (ys : list Z) (i : nat) : Z := nth i (cumsum ys) 0%Z.
Definition fp_at (ys : list Z) (i : nat) : Z := (1 + Z.of_nat i - tp_at ys i)%Z.

Definition no_step_down (x : list pyfloat) : Prop :=
  existsb (fun d => flt d (Fin 0)) (diff x) = false.

(** [metrics.roc_curve(y_true, y_score, pos_label)], with the default
    [drop_intermediate=True]; the returned pair is [(fpr, tpr)] (the
    thresholds, which [auc_score] does not use, are left out).  Arrays of
    different lengths are refused ([ValueError]) and empty arrays fail on
    the index of the last threshold ([IndexError]).  A missing class only
    warns: the corresponding rate is an array of NaN. *)
Definition roc_curve (y_true : list Z) (y_score : list Q) (pos_label : Z)
  : Py.result (list pyfloat * list pyfloat) :=
  if negb (length y_true =? length y_score)%nat then Py.raise Py.ValueError
  else if (length y_true =? 0)%nat then Py.raise Py.IndexError
  else
    let (fps, tps) := binary_clf_curve y_true y_score pos_label in
    let pts := drop_intermediate (combine fps tps) in
    let fps := 0%Z :: map fst pts in
    let tps := 0%Z :: map snd pts in
    Py.ret (rate fps, rate tps).

(** [metrics.auc(x, y)]: trapezoidal area; [x] must be monotonic. *)
Definition auc (x y : list pyfloat) : Py.result pyfloat :=
  if negb (length x =? length y)%nat then Py.raise Py.ValueError
  else if (length x <? 2)%nat then Py.raise Py.ValueError
  else
    let dx := diff x in
    direction <-
      (if existsb (fun d => flt d (Fin 0)) dx
       then if forallb (fun d => fle d (Fin 0)) dx
            then Py.ret (Fin (-1))
            else Py.raise Py.ValueError
       else Py.ret (Fin 1)) ;;
    Py.ret (fmul direction (trapz y x)).

End Metrics.

(** ** The binarised AUC of the notebook *)

Module Evaluator.

Import Np.

Definition default_cutoff : Q := 426 # 1000.

(** [(v <= cutoff).astype(int)] *)
Definition binarize (cutoff : Q) (v : list Q) : list Z :=
  map (fun t => if Qle_bool t cutoff then 1%Z else 0%Z) v.

(** [[
def auc_score(true,sc,cutoff=.426):
    true = (true<=cutoff).astype(int)
    sc = (sc<=cutoff).astype(int)
    fpr, tpr, thresholds = metrics.roc_curve(true, sc, pos_label=1)
    r = metrics.auc(fpr, tpr)
    return  r
]] *)
Definition auc_score (true sc : list Q) (cutoff : Q) : Py.result pyfloat :=
  let true := binarize cutoff true in
  let sc := binarize cutoff sc in
  ft <- Metrics.roc_curve true (map inject_Z sc) 1 ;;
  let (fpr, tpr) := (ft : list pyfloat * list pyfloat) in
  r <- Metrics.auc fpr tpr ;;
  Py.ret r.

(** Vocabulary for the statements: the ROC-AUC of binary labels against a
    score that is used as it is. *)
Definition roc_auc (labels : list Z) (score : list Q) : Py.result pyfloat :=
  ft <- Metrics.roc_curve labels score 1 ;;
  Metrics.auc (fst ft) (snd ft).

End Evaluator.

(** ** Effects: the global random state and the fits that were run *)

Module Rt.

Section StateError.

Variable State : Type.

(** A computation that reads and updates the state and may raise. *)
Definition M (A : Type) : Type := State -> Py.result A * State.

Definition ret {A : Type} (a : A) : M A := fun s => (Py.ret a, s).

Definition raise {A : Type} (e : Py.exn) : M A := fun s => (Py.raise e, s).

Definition bind {A B : Type} (m : M A) (k : A -> M B) : M B :=
  fun s =>
    match m s with
    | (inl e, s1) => (inl e, s1)
    | (inr a, s1) => k a s1
    end.

Definition lift {A : Type} (r : Py.result A) : M A := fun s => (r, s).

Fixpoint mapM {A B : Type} (f : A -> M B) (l : list A) : M (list B) :=
  match l with
  | [] => ret []
  | a :: t =>
      bind (f a) (fun b => bind (mapM f t) (fun bs => ret (b :: bs)))
  end.

(** [for i in range(n): st = body(i, st)], counting up from [i0]. *)
Fixpoint for_range {St : Type} (n i0 : nat) (body : nat -> St -> M St) (st : St) : M St :=
  match n with
  | O => ret st
  | S n' => bind (body i0 st) (for_range n' (S i0) body)
  end.

End StateError.

End Rt.

Notation "x <~ m ;; k" := (Rt.bind m (fun x => k))
  (at level 61, m at next level, right associativity).

(** ** Trainer and evaluator *)

Module Learn.

Import Np.

(** A row of the training table ([ep.get_training_set]). *)
Record AffinityRecord : Type := mkRecord {
  allele : string;
  peptide : string;
  ic50 : Q;
  length_ : nat;
  log50k : Q
}.

(** The keyword arguments given to [MLPRegressor(...)]. *)
Record Hyper : Type := mkHyper {
  hidden_layer_sizes : list nat;
  alpha : Q;
  max_iter : nat;
  activation : string;
  solver : string;
  random_state : Z
}.

(** [hidden_layer_sizes=(1,), alpha=0.0005, max_iter=1500,
    activation='logistic', solver='lbfgs', random_state=2] *)
Definition notebook_hyper : Hyper :=
  mkHyper [1%nat] (5 # 10000) 1500 "logistic" "lbfgs" 2.

(** A numeric array without NaN, as scikit-learn works on it once the
    input is validated. *)
Definition Array : Type := list (list Q).

(** The frame [X] that [apply] builds from the encoded peptides: one row
    per peptide, the shorter rows padded with NaN. *)
Definition Matrix : Type := list (list pyfloat).

(** [pd.DataFrame] from a list of series indexed [0..len-1]: the columns
    are those of the longest series, and a shorter series is NaN in the
    columns it lacks. *)
Definition pad_row (width : nat) (row : list Q) : list pyfloat :=
  map Fin row ++ repeat NaN (width - length row).

Definition DataFrame_of_rows (rows : list (list Q)) : Matrix :=
  let width := fold_right Nat.max 0%nat (map (@length Q) rows) in
  map (pad_row width) rows.

(** The numbers of a row, when none of its entries is NaN. *)
Fixpoint finite_row (row : list pyfloat) : option (list Q) :=
  match row with
  | [] => Some []
  | Fin q :: t =>
      match finite_row t with
      | Some qs => Some (q :: qs)
      | None => None
      end
  | NaN :: _ => None
  end.

Fixpoint finite_rows (X : Matrix) : option Array :=
  match X with
  | [] => Some []
  | r :: t =>
      match finite_row r, finite_rows t with
      | Some q, Some qs => Some (q :: qs)
      | _, _ => None
      end
  end.

(** scikit-learn's [check_array] with its defaults, as [fit] and
    [predict] call it: an input with no row, with no column, or with a NaN
    entry is refused with [ValueError] (so is a ragged one, which a frame
    cannot be). *)
Definition check_array (X : Matrix) : Py.result Array :=
  match X with
  | [] => Py.raise Py.ValueError
  | r :: _ =>
      if (length r =? 0)%nat then Py.raise Py.ValueError
      else if negb (forallb (fun r' => (length r' =? length r)%nat) X)
      then Py.raise Py.ValueError
      else match finite_rows X with
           | Some A => Py.ret A
           | None => Py.raise Py.ValueError
           end
  end.

(** Vocabulary for the statements: the frame of an array (no entry is
    NaN), and an array whose rows all have [m] entries. *)
Definition frame_of (A : Array) : Matrix := map (map Fin) A.

Definition uniform (m : nat) (A : Array) : Prop :=
  Forall (fun r => length r = m) A.

Section Pipeline.

(** Collaborators that are not part of the notebook. *)
Variable RNG : Type.                       (* state of [np.random] *)
Variable permutation : nat -> RNG -> list nat * RNG.   (* [rng.permutation(n)] *)
Variable W : Type.                         (* fitted weights of a network *)
Variable train : Hyper -> Array -> list Q -> W.        (* the optimiser behind [fit] *)
Variable forward : W -> list Q -> Q.       (* the network applied to one row *)
Variable get_training_set : string -> nat -> list AffinityRecord.
Variable ep_auc_score : list Q -> list Q -> Q -> Py.result pyfloat.

(** The regressor object: its parameters and, once fitted, its weights
    and the number of features it was fitted on. *)
Record MLPRegressor : Type := mkReg {
  params : Hyper;
  coefs_ : option W;
  n_features_in_ : nat
}.

(** What a run can observe and change: the random state, and the log of
    the fits that were run (the calls to [fit] whose input passed the
    validation), each with the array and the targets it was run on. *)
Record World : Type := mkWorld {
  rng : RNG;
  fits : list (Array * list Q)
}.

Definition M := Rt.M World.

(** An encoder as the pipeline calls it: it may raise and may draw random
    numbers. *)
Definition Encoder_fn : Type := string -> M (list Q).

(** A deterministic encoder of the notebook as the pipeline sees it; its
    integers become floats in the feature matrix. *)
Definition pure_encoder (f : string -> Py.result (list Z)) : Encoder_fn :=
  fun seq => Rt.lift (Py.bind (f seq) (fun v => Py.ret (map inject_Z v))).

Definition float_encoder (f : string -> Py.result (list Q)) : Encoder_fn :=
  fun seq => Rt.lift (f seq).

(** [reg.fit(X, y)]: the input is validated first; an [X] that
    [check_array] refuses, or a [y] of another length, raises [ValueError]
    and nothing is fitted.  Without warm start the weights are computed
    anew from the parameters and the data; the object is updated in
    place. *)
Definition fit (reg : MLPRegressor) (X : Matrix) (y : list Q) : M MLPRegressor :=
  match check_array X with
  | inl e => Rt.raise e
  | inr A =>
      if negb (length A =? length y)%nat then Rt.raise Py.ValueError
      else
        fun w =>
          (Py.ret (mkReg (params reg) (Some (train (params reg) A y))
                     (length (hd [] A))),
           mkWorld (rng w) (fits w ++ [(A, y)]))
  end.

(** [reg.predict(X)]: an unfitted regressor raises [NotFittedError]; then
    the input is validated as in [fit], and it must have the number of
    features seen in [fit]. *)
Definition predict (reg : MLPRegressor) (X : Matrix) : M (list Q) :=
  match coefs_ reg with
  | None => Rt.raise Py.NotFittedError
  | Some w =>
      match check_array X with
      | inl e => Rt.raise e
      | inr A =>
          if negb (length (hd [] A) =? n_features_in_ reg)%nat
          then Rt.raise Py.ValueError
          else Rt.ret (map (forward w) A)
      end
  end.

(** [a[idx]] for an integer index array. *)
Definition take {A : Type} (a : list A) (idx : list nat) : list A :=
  flat_map (fun i => match nth_error a i with
                     | Some v => [v]
                     | None => []
                     end) idx.

(** Size of the test part for [test_size=0.3]: [ceil(0.3 * n)], taken as
    the exact ceiling of [3n/10] (the float product gives the same integer
    for every table size that fits in memory). *)
Definition n_test_of (n : nat) : nat := ((3 * n + 9) / 10)%nat.

(** The index arrays of one shuffle split: the first [n_test] entries of
    the permutation are the test rows, the following [n - n_test] the
    training rows. *)
Definition ind_test (n : nat) (perm : list nat) : list nat :=
  firstn (n_test_of n) perm.

Definition ind_train (n : nat) (perm : list nat) : list nat :=
  firstn (n - n_test_of n) (skipn (n_test_of n) perm).

(** [X_train, X_test, y_train, y_test] for a given permutation. *)
Definition split_by {R : Type} (X : list R) (y : list Q) (perm : list nat)
  : list R * list R * list Q * list Q :=
  let n := length X in
  (take X (ind_train n perm), take X (ind_test n perm),
   take y (ind_train n perm), take y (ind_test n perm)).

(** [train_test_split(X, y, test_size=0.3)]: one permutation of the row
    numbers from the global generator selects the two parts.  Arrays of
    different lengths, and a split whose training part would be empty,
    raise. *)
Definition train_test_split (X : Matrix) (y : list Q)
  : M (Matrix * Matrix * list Q * list Q) :=
  let n := length X in
  if negb (n =? length y)%nat then Rt.raise Py.ValueError
  else
    let n_test := n_test_of n in
    let n_train := (n - n_test)%nat in
    if (n_train =? 0)%nat then Rt.raise Py.ValueError
    else
      fun w =>
        let (perm, g) := permutation n (rng w) in
        (Py.ret (split_by X y perm), mkWorld g (fits w)).

(** [df.peptide.apply(lambda x: pd.Series(encoder(x)), 1)]: the encoder
    is called on every peptide in order, and the series it returns are
    the rows of the frame. *)
Definition encode_rows (encoder : Encoder_fn) (df : list AffinityRecord)
  : M (list (list Q)) :=
  Rt.mapM encoder (map peptide df).

Definition encode_all (encoder : Encoder_fn) (df : list AffinityRecord) : M Matrix :=
  rows <~ encode_rows encoder df ;;
  Rt.ret (DataFrame_of_rows rows).

(** The body of the loop of [test_predictor]; the loop state is
    [(reg, res)].
[[
        X_train, X_test, y_train, y_test = train_test_split(X, y, test_size=0.3)
        reg.fit(X_train, y_train)
        sc = reg.predict(X_test)
        auc = ep.auc_score(y_test,sc,cutoff=.426)
        res.append(auc)
]] *)
Definition evaluation_round (X : Matrix) (y : list Q)
    (st : MLPRegressor * list pyfloat) : M (MLPRegressor * list pyfloat) :=
  let (reg, res) := st in
  sp <~ train_test_split X y ;;
  let '(X_train, X_test, y_train, y_test) := sp in
  reg <~ fit reg X_train y_train ;;
  sc <~ predict reg X_test ;;
  auc <~ Rt.lift (ep_auc_score y_test sc (426 # 1000)) ;;
  Rt.ret (reg, res ++ [auc]).

(** [[
def test_predictor(allele, encoder, ax=None):
    reg = MLPRegressor(hidden_layer_sizes=(1,), alpha=0.0005, max_iter=1500,
                        activation='logistic', solver='lbfgs', random_state=2)
    df = ep.get_training_set(allele, length=9)
    X = df.peptide.apply(lambda x: pd.Series(encoder(x)),1)
    y = df.log50k
    res=[]
    for i in range(3):
        ...
    auc = np.mean(res)
    return auc
]]
    The plot drawn when [ax] is given and the printed length are display
    only and are left out. *)
Definition test_predictor (allele : string) (encoder : Encoder_fn) : M pyfloat :=
  let reg := mkReg notebook_hyper None 0 in
  let df := get_training_set allele 9 in
  X <~ encode_all encoder df ;;
  let y := map log50k df in
  st <~ Rt.for_range 3 0 (fun _ => evaluation_round X y) (reg, []) ;;
  let auc := mean (snd st) in
  Rt.ret auc.

(** Vocabulary for the statements: the training data and the score of the
    round that a given permutation leads to, for a table whose encoded
    rows are the array [A]. *)
Definition train_part (A : Array) (y : list Q) (perm : list nat) : Array * list Q :=
  let '(A_train, _, y_train, _) := split_by A y perm in (A_train, y_train).

Definition round_auc (A : Array) (y : list Q) (perm : list nat) : Py.result pyfloat :=
  let '(A_train, A_test, y_train, y_test) := split_by A y perm in
  ep_auc_score y_test
    (map (forward (train notebook_hyper A_train y_train)) A_test) (426 # 1000).

(** [[
def build_predictor(allele, encoder=None, length=9):
    if encoder==None:
        encoder=nlf_encode
    data = ep.get_training_set(allele, length=length)
    if len(data)<100:
        return
    reg = MLPRegressor(hidden_layer_sizes=(1,), alpha=0.0005, max_iter=1500,
                        activation='logistic', solver='lbfgs', random_state=2)
    X = data.peptide.apply(lambda x: pd.Series(encoder(x)),1)
    y = data.log50k
    reg.fit(X,y)
    return reg
]]
    [nlf_encode] is the default encoder with the NLF table already read;
    the histogram and the printed line are display only.  The result is
    [None] for the bare [return]. *)
Definition build_predictor (nlf_encode : Encoder_fn)
    (allele : string) (encoder : option Encoder_fn) (length : nat)
  : M (option MLPRegressor) :=
  let encoder := match encoder with
                 | None => nlf_encode
                 | Some e => e
                 end in
  let data := get_training_set allele length in
  if (List.length data <? 100)%nat then Rt.ret None
  else
    let reg := mkReg notebook_hyper None 0 in
    X <~ encode_all encoder data ;;
    let y := map log50k data in
    reg <~ fit reg X y ;;
    Rt.ret (Some reg).

End Pipeline.

End Learn.

(** ** Affinity transform *)

Module Affinity.

Local Open Scope R_scope.

(** The linearised scale of the notebook:
    [log50k = 1-log(ic50) / log(50000)]. *)
Definition to_target (ic50 : R) : R := 1 - ln ic50 / ln 50000.

(** Modelled from the spec: the inverse transform, which the notebook does
    not contain: [from_target(log50k) -> ic50 = 50000^(1 - log50k)]. *)
Definition from_target (log50k : R) : R := Rpower 50000 (1 - log50k).

End Affinity.

(** ** Vocabulary of the statements about the encoders *)

Module EncoderSpec.

Import Pd Encoder.

(** The entry of a one-hot row for letter [c] in the column labelled [t]. *)
Definition indicator (c t : ascii) : Z := if Ascii.eqb c t then 1%Z else 0%Z.

(** A peptide over the alphabet: every letter is one of [codes]. *)
Definition over_alphabet (seq : string) : Prop :=
  Forall (fun c => In c codes) (list_ascii_of_string seq).

(** The distinct characters of [seq] that are not in [codes]. *)
Definition unknown_letters (seq : string) : list ascii :=
  unique (filter (fun c => negb (mem c codes)) (list_ascii_of_string seq)).

(** The column labels of the one-hot frame once the dummy columns and the
    zero columns are joined and sorted. *)
Definition one_hot_columns (seq : string) : list ascii :=
  sort_by char_leb
    (sort_by char_leb
       (unique (filter (fun c => negb (Ascii.eqb c comma)) (list_ascii_of_string seq)))
     ++ filter (fun c => negb (mem c (list_ascii_of_string seq))) codes).

End EncoderSpec.

(** ** Vocabulary of the statements about the table encoders *)

Module TableSpec.

Import Pd Encoder.

(** The row of the matrix labelled [c]: its entry in every column, in
    column order. *)
Definition table_row (tbl : Table Z) (c : ascii) : list Z :=
  match index_of Ascii.eqb c (row_labels tbl) with
  | Some i => map (fun cv => nth i (snd cv) 0%Z) (table_columns tbl)
  | None => []
  end.

Definition list_Z_eqb (a b : list Z) : bool :=
  if list_eq_dec Z.eq_dec a b then true else false.

(** A letter is served by the table: it has a column of 24 entries, which
    is also the letter's row (the matrix is symmetric there). *)
Definition letter_ok (tbl : Table Z) (c : ascii) : bool :=
  match table_getitem tbl c with
  | inl _ => false
  | inr col => (length col =? 24)%nat && list_Z_eqb col (table_row tbl c)
  end.

(** The layout of BLOSUM62 as distributed: 24 labelled rows, the last four
    of them the ambiguity codes [B], [Z], [X] and the gap [*], and every
    letter of the alphabet served. *)
Definition blosum62_layout (tbl : Table Z) : bool :=
  (length (row_labels tbl) =? 24)%nat
  && (if list_eq_dec ascii_dec (skipn 20 (row_labels tbl)) (list_ascii_of_string "BZX*")
      then true else false)
  && forallb (letter_ok tbl) codes.

End TableSpec.

(** ** A BLOSUM62 instance *)

Module Blosum62.

Import Encoder.

(** Modelled from the spec: the BLOSUM62 substitution matrix, which the
    notebook takes from the [epitopepredict] package ([ep.blosum62]): the
    standard matrix, 24 rows and columns in the order
    [A R N D C Q E G H I L K M F P S T W Y V B Z X *]. *)
Definition blosum62 : Table Z :=
  mkTable (list_ascii_of_string "ARNDCQEGHILKMFPSTWYVBZX*")
   ([
    ("A"%char, [4; (-1); (-2); (-2); 0; (-1); (-1); 0; (-2); (-1); (-1); (-1); (-1); (-2); (-1); 1; 0; (-3); (-2); 0; (-2); (-1); 0; (-4)]);
    ("R"%char, [(-1); 5; 0; (-2); (-3); 1; 0; (-2); 0; (-3); (-2); 2; (-1); (-3); (-2); (-1); (-1); (-3); (-2); (-3); (-1); 0; (-1); (-4)]);
    ("N"%char, [(-2); 0; 6; 1; (-3); 0; 0; 0; 1; (-3); (-3); 0; (-2); (-3); (-2); 1; 0; (-4); (-2); (-3); 3; 0; (-1); (-4)]);
    ("D"%char, [(-2); (-2); 1; 6; (-3); 0; 2; (-1); (-1); (-3); (-4); (-1); (-3); (-3); (-1); 0; (-1); (-4); (-3); (-3); 4; 1; (-1); (-4)]);
    ("C"%char, [0; (-3); (-3); (-3); 9; (-3); (-4); (-3); (-3); (-1); (-1); (-3); (-1); (-2); (-3); (-1); (-1); (-2); (-2); (-1); (-3); (-3); (-2); (-4)]);
    ("Q"%char, [(-1); 1; 0; 0; (-3); 5; 2; (-2); 0; (-3); (-2); 1; 0; (-3); (-1); 0; (-1); (-2); (-1); (-2); 0; 3; (-1); (-4)]);
    ("E"%char, [(-1); 0; 0; 2; (-4); 2; 5; (-2); 0; (-3); (-3); 1; (-2); (-3); (-1); 0; (-1); (-3); (-2); (-2); 1; 4; (-1); (-4)]);
    ("G"%char, [0; (-2); 0; (-1); (-3); (-2); (-2); 6; (-2); (-4); (-4); (-2); (-3); (-3); (-2); 0; (-2); (-2); (-3); (-3); (-1); (-2); (-1); (-4)]);
    ("H"%char, [(-2); 0; 1; (-1); (-3); 0; 0; (-2); 8; (-3); (-3); (-1); (-2); (-1); (-2); (-1); (-2); (-2); 2; (-3); 0; 0; (-1); (-4)]);
    ("I"%char, [(-1); (-3); (-3); (-3); (-1); (-3); (-3); (-4); (-3); 4; 2; (-3); 1; 0; (-3); (-2); (-1); (-3); (-1); 3; (-3); (-3); (-1); (-4)]);
    ("L"%char, [(-1); (-2); (-3); (-4); (-1); (-2); (-3); (-4); (-3); 2; 4; (-2); 2; 0; (-3); (-2); (-1); (-2); (-1); 1; (-4); (-3); (-1); (-4)]);
    ("K"%char, [(-1); 2; 0; (-1); (-3); 1; 1; (-2); (-1); (-3); (-2); 5; (-1); (-3); (-1); 0; (-1); (-3); (-2); (-2); 0; 1; (-1); (-4)]);
    ("M"%char, [(-1); (-1); (-2); (-3); (-1); 0; (-2); (-3); (-2); 1; 2; (-1); 5; 0; (-2); (-1); (-1); (-1); (-1); 1; (-3); (-1); (-1); (-4)]);
    ("F"%char, [(-2); (-3); (-3); (-3); (-2); (-3); (-3); (-3); (-1); 0; 0; (-3); 0; 6; (-4); (-2); (-2); 1; 3; (-1); (-3); (-3); (-1); (-4)]);
    ("P"%char, [(-1); (-2); (-2); (-1); (-3); (-1); (-1); (-2); (-2); (-3); (-3); (-1); (-2); (-4); 7; (-1); (-1); (-4); (-3); (-2); (-2); (-1); (-2); (-4)]);
    ("S"%char, [1; (-1); 1; 0; (-1); 0; 0; 0; (-1); (-2); (-2); 0; (-1); (-2); (-1); 4; 1; (-3); (-2); (-2); 0; 0; 0; (-4)]);
    ("T"%char, [0; (-1); 0; (-1); (-1); (-1); (-1); (-2); (-2); (-1); (-1); (-1); (-1); (-2); (-1); 1; 5; (-2); (-2); 0; (-1); (-1); 0; (-4)]);
    ("W"%char, [(-3); (-3); (-4); (-4); (-2); (-2); (-3); (-2); (-2); (-3); (-2); (-3); (-1); 1; (-4); (-3); (-2); 11; 2; (-3); (-4); (-3); (-2); (-4)]);
    ("Y"%char, [(-2); (-2); (-2); (-3); (-2); (-1); (-2); (-3); 2; (-1); (-1); (-2); (-1); 3; (-3); (-2); (-2); 2; 7; (-1); (-3); (-2); (-1); (-4)]);
    ("V"%char, [0; (-3); (-3); (-3); (-1); (-2); (-2); (-3); (-3); 3; 1; (-2); 1; (-1); (-2); (-2); 0; (-3); (-1); 4; (-3); (-2); (-1); (-4)]);
    ("B"%char, [(-2); (-1); 3; 4; (-3); 0; 1; (-1); 0; (-3); (-4); 0; (-3); (-3); (-2); 0; (-1); (-4); (-3); (-3); 4; 1; (-1); (-4)]);
    ("Z"%char, [(-1); 0; 0; 1; (-3); 3; 4; (-2); 0; (-3); (-3); 1; (-1); (-3); (-1); 0; (-1); (-3); (-2); (-2); 1; 4; (-1); (-4)]);
    ("X"%char, [0; (-1); (-1); (-1); (-2); (-1); (-1); (-1); (-1); (-1); (-1); (-1); (-1); (-1); (-2); 0; 0; (-2); (-1); (-1); (-1); (-1); (-1); (-4)]);
    ("*"%char, [(-4); (-4); (-4); (-4); (-4); (-4); (-4); (-4); (-4); (-4); (-4); (-4); (-4); (-4); (-4); (-4); (-4); (-4); (-4); (-4); (-4); (-4); (-4); 1])
   ])%Z.

End Blosum62.

(** ** A small instance of the collaborators

    A generator whose [k]-th permutation rotates the rows by [k], a
    network that learns nothing and scores a row by its first feature,
    and a table provider with four records for one allele and a hundred
    for another. *)

Module Toy.

Import Learn.

Definition RNG : Type := nat.

Definition permutation (n : nat) (g : RNG) : list nat * RNG :=
  let k := (g mod n)%nat in
  (skipn k (seq 0 n) ++ firstn k (seq 0 n), S g).

Definition randint (high : Z) (g : RNG) : Z * RNG := ((Z.of_nat g) mod high, S g)%Z.

Definition W : Type := unit.

Definition train (_ : Hyper) (_ : Array) (_ : list Q) : W := tt.

Definition forward (_ : W) (row : list Q) : Q := nth 0 row 0.

Definition four : list AffinityRecord :=
  [ mkRecord "HLA-A*03:01" "ALDFEQEMT" (5743 # 1) 9 (2 # 10);
    mkRecord "HLA-A*03:01" "CLDFEQEMT" (9 # 1) 9 (8 # 10);
    mkRecord "HLA-A*03:01" "CLDFEQEMK" (1946 # 1) 9 (3 # 10);
    mkRecord "HLA-A*03:01" "ALDFEQEMK" (3 # 1) 9 (9 # 10) ].

Definition get_training_set (a : string) (_ : nat) : list AffinityRecord :=
  if String.eqb a "HLA-A*03:01" then four
  else if String.eqb a "HLA-A*02:01"
       then repeat (mkRecord "HLA-A*02:01" "ALDFEQEMT" (500 # 1) 9 (426 # 1000)) 100
       else [].

Definition one_hot : Encoder_fn RNG := pure_encoder Encoder.one_hot_encode.

Definition world1 : World RNG := mkWorld 1%nat [].

End Toy.

(** ** The set difference of [one_hot_encode] in any iteration order *)

Module OneHotOrder.

Import Pd Encoder.

(** [one_hot_encode] with the list [o = list(set(codes) - set(seq))] given
    in the order in which the interpreter happens to iterate the set; the
    rest of the body is the same. *)
Definition one_hot_encode_in_order (o : list ascii) (seq : string) : Py.result (list Z) :=
  let s := DataFrame_of_list (list_ascii_of_string seq) in
  let x := zeros (String.length seq) o in
  s0 <- getitem Nat.eqb s 0%nat ;;
  let a := str_get_dummies comma s0 in
  a <- join a x ;;
  let a := sort_index_axis1 a in
  let e := flatten a in
  Py.ret e.

(** The elements of [set(codes) - set(seq)] in the order of [codes]. *)
Definition missing_codes (seq : string) : list ascii :=
  filter (fun c => negb (mem c (list_ascii_of_string seq))) codes.

(** The characters of [seq] that are not the separator. *)
Definition non_commas (seq : string) : list ascii :=
  filter (fun c => negb (Ascii.eqb c comma)) (list_ascii_of_string seq).

End OneHotOrder.

(** ** Vocabulary of the statements about generic lookup tables *)

Module TableFacts.

Import Pd Encoder.

Definition has_column {V : Type} (tbl : Table V) (c : ascii) : bool :=
  existsb (fun cv => Ascii.eqb c (fst cv)) (table_columns tbl).

(** Every column of the table has [m] entries. *)
Definition column_height {V : Type} (tbl : Table V) (m : nat) : Prop :=
  Forall (fun cv => length (snd cv) = m) (table_columns tbl).

(** A table with the letters of [codes] as columns, each of [m] entries
    [v]: the smallest instance of a lookup table. *)
Definition constant_table {V : Type} (m : nat) (v : V) : Table V :=
  mkTable (firstn m codes) (map (fun c => (c, repeat v m)) codes).

End TableFacts.

(** ** Highlighting the best score of a row *)

Module Styling.

Import Np.

(** [s.max()]: the largest entry, NaN entries skipped; NaN when there is
    no other entry. *)
Definition series_max (s : list pyfloat) : pyfloat :=
  fold_left
    (fun m v =>
       match m, v with
       | NaN, _ => v
       | _, NaN => m
       | Fin a, Fin b => if Qle_bool a b then Fin b else Fin a
       end) s NaN.

(** [a == b] on floats: false as soon as one side is NaN. *)
Definition feq (a b : pyfloat) : bool :=
  match a, b with
  | Fin p, Fin q => Qeq_bool p q
  | _, _ => false
  end.

(** [[
def highlight_max(s):
    is_max = s == s.max()
    return ['background-color: yellow' if v else '' for v in is_max]
]] *)
Definition highlight_max (s : list pyfloat) : list string :=
  let is_max := map (fun v => feq v (series_max s)) s in
  map (fun v : bool => if v then "background-color: yellow"%string else EmptyString) is_max.

End Styling.

(** ** Training and saving the models, and the benchmark *)

Module Bench.

Import Np Learn.

(** Exceptions of the cells that touch the disk and run the benchmark:
    those of the notebook's own functions, and two more. *)
Inductive exn : Type :=
| Raised (e : Py.exn)
| FileExistsError
| IsADirectoryError
| UnboundLocalError.

(** The distinct values of a list in the order of their first
    appearance. *)
Definition first_seen (l : list string) : list string :=
  rev (nodup string_dec (rev l)).

(** [series.value_counts()]: every distinct value with its number of
    occurrences, the most frequent first; values with the same count keep
    the order of their first appearance (the sort is stable). *)
Definition value_counts (l : list string) : list (string * nat) :=
  sort_by (fun a b : string * nat => (snd b <=? snd a)%nat)
    (map (fun a => (a, count_occ string_dec l a)) (first_seen l)).

(** [[
def get_allele_names():
    d = ep.get_training_set(length=9)
    a = d.allele.value_counts()
    a =a[a>200]
    return list(a.index)
]]
    [d] is the whole training table for length 9. *)
Definition get_allele_names (d : list AffinityRecord) : list string :=
  let a := value_counts (map allele d) in
  let a := filter (fun vn : string * nat => (200 <? snd vn)%nat) a in
  map fst a.

Section Disk.

Variable RNG : Type.
Variable W : Type.
Variable train : Hyper -> Array -> list Q -> W.
Variable get_training_set : string -> nat -> list AffinityRecord.
(** [ep.blosum62] and the table [nlf] read from the NLF file. *)
Variable blosum : Encoder.Table Z.
Variable nlf : Encoder.Table Q.

(** The part of the file system the cell touches: the directories, and
    the regular files with the regressor pickled in each. *)
Record Disk : Type := mkDisk {
  dirs : list string;
  files : list (string * MLPRegressor W)
}.

Definition read_file (d : Disk) (fname : string) : option (MLPRegressor W) :=
  match find (fun fr => String.eqb fname (fst fr)) (files d) with
  | Some fr => Some (snd fr)
  | None => None
  end.

Definition is_dir (d : Disk) (path : string) : bool :=
  existsb (String.eqb path) (dirs d).

(** [os.makedirs(path, exist_ok=True)] for a path of one component: the
    directory is created unless it is there; a regular file of that name
    raises [FileExistsError]. *)
Definition makedirs (path : string) (d : Disk) : exn + Disk :=
  match read_file d path with
  | Some _ => inl FileExistsError
  | None => if is_dir d path then inr d else inr (mkDisk (path :: dirs d) (files d))
  end.

(** [joblib.dump(reg, fname, protocol=2)]: the file is created or
    replaced; a directory of that name raises [IsADirectoryError]. *)
Definition dump (reg : MLPRegressor W) (fname : string) (d : Disk) : exn + Disk :=
  if is_dir d fname then inl IsADirectoryError
  else inr (mkDisk (dirs d) ((fname, reg) :: files d)).

(** [os.path.join(path, a+'.joblib')] *)
Definition model_path (path a : string) : string :=
  (path ++ "/" ++ a ++ ".joblib")%string.

(** [blosum_encode] handed to [build_predictor] as the encoder, and
    [nlf_encode], the default that [build_predictor] would take. *)
Definition blosum_encoder : Encoder_fn RNG :=
  pure_encoder (Encoder.blosum_encode blosum).

Definition nlf_encoder : Encoder_fn RNG :=
  float_encoder (Encoder.nlf_encode nlf).

(** The loop of [train_models]:
[[
    for a in alleles:
        fname = os.path.join(path, a+'.joblib')
        reg = build_predictor(a, blosum_encode, 9)
        if reg is not None:
            joblib.dump(reg, fname, protocol=2)
]] *)
Fixpoint train_each (path : string) (alleles : list string) (w : World RNG) (d : Disk)
  : (exn + unit) * World RNG * Disk :=
  match alleles with
  | [] => (inr tt, w, d)
  | a :: rest =>
      let fname := model_path path a in
      match build_predictor train get_training_set nlf_encoder
              a (Some blosum_encoder) 9 w with
      | (inl e, w1) => (inl (Raised e), w1, d)
      | (inr None, w1) => train_each path rest w1 d
      | (inr (Some reg), w1) =>
          match dump reg fname d with
          | inl e => (inl e, w1, d)
          | inr d1 => train_each path rest w1 d1
          end
      end
  end.

(** [[
def train_models():
    alleles=['HLA-A*02:01','HLA-A*02:02']
    path = 'models'
    os.makedirs(path,exist_ok=True)
    for a in alleles:
        ...
]] *)
Definition train_models (w : World RNG) (d : Disk) : (exn + unit) * World RNG * Disk :=
  let alleles := ["HLA-A*02:01"%string; "HLA-A*02:02"%string] in
  let path := "models"%string in
  match makedirs path d with
  | inl e => (inl e, w, d)
  | inr d1 => train_each path alleles w d1
  end.

(** Vocabulary for the statements: the rows that [blosum_encode] gives
    for an allele's table, the regressor fitted on them, and whether the
    table has the 100 records that [build_predictor] asks for. *)
Definition encoded (a : string) : Array :=
  map (fun r => match Encoder.blosum_encode blosum (peptide r) with
                | inr v => map inject_Z v
                | inl _ => []
                end) (get_training_set a 9).

Definition fitted (a : string) : MLPRegressor W :=
  mkReg notebook_hyper
    (Some (train notebook_hyper (encoded a) (map log50k (get_training_set a 9))))
    (length (hd [] (encoded a))).

Definition large (a : string) : bool :=
  negb (length (get_training_set a 9) <? 100)%nat.

End Disk.

Section Benchmark.

(** The predictor objects of the [epitopepredict] package. *)
Variable P : Type.
Variable name : P -> string.
(** [mhclearn.get_evaluation_set2(allele, length=9)] *)
Variable get_evaluation_set2 : string -> nat -> list AffinityRecord.
(** [P.predict_peptides(peptides, alleles=allele, cpus=12)] followed by
    [P.get_scores(allele)]: a table of peptides and scores. *)
Variable get_scores : P -> string -> list string -> Py.result (list (string * Q)).

(** [data.merge(x, on='peptide')], the default inner join, read through
    its columns [ic50] (from [data]) and [score] (from [x]): one row for
    every pair of a measured and a scored row with the same peptide, in
    the order of [data]. *)
Definition merge_on_peptide (data : list AffinityRecord) (x : list (string * Q))
  : list (Q * Q) :=
  flat_map
    (fun r => map (fun ps => (ic50 r, snd ps))
                (filter (fun ps => String.eqb (peptide r) (fst ps)) x))
    data.

(** [[
def evaluate_predictor(P, allele):
    data = mhclearn.get_evaluation_set2(allele, length=9)
    P.predict_peptides(list(data.peptide), alleles=allele, cpus=12)
    x = P.get_scores(allele)
    x = data.merge(x,on='peptide')
    auc = auc_score(x.ic50,x.score,cutoff=500)
    return auc, data
]] *)
Definition evaluate_predictor (Pr : P) (allele : string)
  : Py.result (pyfloat * list AffinityRecord) :=
  let data := get_evaluation_set2 allele 9 in
  x <- get_scores Pr allele (map peptide data) ;;
  let x := merge_on_peptide data x in
  auc <- Evaluator.auc_score (map fst x) (map snd x) (500 # 1) ;;
  Py.ret (auc, data).

Definition omit : list string := ["H-2-Kb"%string].

Definition Row : Type := (string * pyfloat * nat)%type.

(** The inner loop of [run_tests]; its state is the list [m] and the
    local variable [auc], which is unbound ([None]) until a first
    evaluation has returned.
[[
        for a in test_alleles:
            if a in omit: continue
            try:
                auc,df = evaluate_predictor(P, a)
                m.append((a,auc,len(df)))
            except Exception as e:
                print (a,e)
                pass
            print (P, a, auc)
]] *)
Fixpoint score_alleles (Pr : P) (test_alleles : list string)
    (m : list Row) (auc : option pyfloat) : exn + (list Row * option pyfloat) :=
  match test_alleles with
  | [] => inr (m, auc)
  | a :: rest =>
      if existsb (String.eqb a) omit then score_alleles Pr rest m auc
      else
        let (m, auc) :=
          match evaluate_predictor Pr a with
          | inr (v, df) => (m ++ [(a, v, length df)], Some v)
          | inl _ => (m, auc)
          end in
        match auc with
        | None => inl UnboundLocalError
        | Some _ => score_alleles Pr rest m auc
        end
  end.

(** The outer loop: one table of rows per predictor, with its name. *)
Fixpoint score_predictors (preds : list P) (test_alleles : list string)
    (comp : list (string * list Row)) (auc : option pyfloat)
  : exn + list (string * list Row) :=
  match preds with
  | [] => inr comp
  | Pr :: rest =>
      match score_alleles Pr test_alleles [] auc with
      | inl e => inl e
      | inr (m, auc) => score_predictors rest test_alleles (comp ++ [(name Pr, m)]) auc
      end
  end.

(** [[
def run_tests():
    preds = [base.get_predictor('basicmhc1'),
             base.get_predictor('netmhcpan',scoring='affinity'),]
    comp=[]
    test_alleles = mhclearn.get_allele_names()[:5]
    omit = ['H-2-Kb']
    for P in preds:
        m=[]
        for a in test_alleles:
            ...
        m=pd.DataFrame(m,columns=['allele','score','size'])
        m['name'] = P.name
        comp.append(m)
    return comp
]]
    [preds] are the two predictors of the package and [allele_names] is
    the result of the package's [get_allele_names()]. *)
Definition run_tests (preds : list P) (allele_names : list string)
  : exn + list (string * list Row) :=
  let test_alleles := firstn 5 allele_names in
  score_predictors preds test_alleles [] None.

(** Vocabulary for the statements: the alleles that are tried, and the
    rows a predictor gets from them. *)
Definition tried (allele_names : list string) : list string :=
  filter (fun a => negb (existsb (String.eqb a) omit)) (firstn 5 allele_names).

Definition rows_of (Pr : P) (alleles : list string) : list Row :=
  flat_map
    (fun a => match evaluate_predictor Pr a with
              | inr (v, df) => [(a, v, length df)]
              | inl _ => []
              end) alleles.

End Benchmark.

End Bench.

(** ** A small instance of the benchmark's collaborators

    Two predictors: the first scores every peptide it is given, the
    second fails on every call; the evaluation sets are the tables of the
    small instance above. *)

Module ToyBench.

Definition P : Type := bool.

Definition name (Pr : P) : string :=
  if Pr then "basicmhc1"%string else "netmhcpan"%string.

Definition get_scores (Pr : P) (_ : string) (peptides : list string)
  : Py.result (list (string * Q)) :=
  if Pr then Py.ret (map (fun p => (p, 100 # 1)) peptides)
  else Py.raise Py.KeyError.

Definition allele_names : list string :=
  ["HLA-A*03:01"; "H-2-Kb"; "HLA-B*07:02"]%string.

End ToyBench.

(** ** Vocabulary: the confusion counts of a thresholded prediction *)

Module Confusion.

Import Evaluator.

(** The number of rows whose label [l] and thresholded prediction [s]
    satisfy [p]. *)
Definition count_pairs (p : Z -> Z -> bool) (labels scores : list Z) : Z :=
  Z.of_nat (length (filter (fun ls => p (fst ls) (snd ls)) (combine labels scores))).

(** Rows at or below the cutoff count as positive, as in [auc_score]. *)
Definition true_positives (cutoff : Q) (true sc : list Q) : Z :=
  count_pairs (fun l s => (l =? 1)%Z && (s =? 1)%Z)
    (binarize cutoff true) (binarize cutoff sc).

Definition false_positives (cutoff : Q) (true sc : list Q) : Z :=
  count_pairs (fun l s => negb (l =? 1)%Z && (s =? 1)%Z)
    (binarize cutoff true) (binarize cutoff sc).

Definition positives (cutoff : Q) (true sc : list Q) : Z :=
  count_pairs (fun l _ => (l =? 1)%Z)
    (binarize cutoff true) (binarize cutoff sc).

Definition negatives (cutoff : Q) (true sc : list Q) : Z :=
  count_pairs (fun l _ => negb (l =? 1)%Z)
    (binarize cutoff true) (binarize cutoff sc).

End Confusion.

(** * Properties *)

(** ** Lists, membership and sorting *)

Section ListFacts.

Import Pd.

Lemma mem_In (c : ascii) (l : list ascii) : mem c l = true <-> In c l.
Proof.
  unfold mem. rewrite existsb_exists. split.
  - intros [x [Hx E]]. apply Ascii.eqb_eq in E. now subst.
  - intros H. exists c. split; [assumption | apply Ascii.eqb_refl].
Qed.

Lemma mem_false (c : ascii) (l : list ascii) : mem c l = false <-> ~ In c l.
Proof.
  rewrite <- mem_In. destruct (mem c l); split; congruence.
Qed.

Lemma length_list_of_string (s : string) :
  length (list_ascii_of_string s) = String.length s.
Proof.
  induction s as [|c s IH]; simpl; [reflexivity | now rewrite IH].
Qed.

Lemma unique_In (c : ascii) (l : list ascii) : In c (unique l) <-> In c l.
Proof.
  induction l as [|a t IH]; simpl; [tauto|].
  destruct (mem a t) eqn:E.
  - apply mem_In in E. rewrite IH. split; [tauto|].
    intros [->|H]; assumption.
  - simpl. rewrite IH. tauto.
Qed.

Lemma unique_NoDup (l : list ascii) : NoDup (unique l).
Proof.
  induction l as [|a t IH]; simpl; [constructor|].
  destruct (mem a t) eqn:E; [assumption|].
  constructor; [|assumption].
  rewrite unique_In. now apply mem_false.
Qed.

Lemma unique_filter (p : ascii -> bool) (l : list ascii) :
  unique (filter p l) = filter p (unique l).
Proof.
  induction l as [|a t IH]; simpl; [reflexivity|].
  destruct (p a) eqn:Pa; simpl.
  - destruct (mem a t) eqn:E.
    + assert (mem a (filter p t) = true) as ->.
      { apply mem_In, filter_In. split; [now apply mem_In | assumption]. }
      assumption.
    + assert (mem a (filter p t) = false) as ->.
      { apply mem_false. intros H. apply filter_In in H.
        apply mem_false in E. tauto. }
      simpl. rewrite Pa. now f_equal.
  - destruct (mem a t); [assumption|]. simpl. now rewrite Pa.
Qed.

Context {A : Type} (leb : A -> A -> bool).

Lemma insert_by_perm (x : A) (l : list A) : Permutation (insert_by leb x l) (x :: l).
Proof.
  induction l as [|y t IH]; simpl; [reflexivity|].
  destruct (leb x y); [reflexivity|].
  rewrite IH. apply perm_swap.
Qed.

Lemma sort_by_perm (l : list A) : Permutation (sort_by leb l) l.
Proof.
  induction l as [|x t IH]; simpl; [reflexivity|].
  rewrite insert_by_perm. now constructor.
Qed.

Lemma sort_by_length (l : list A) : length (sort_by leb l) = length l.
Proof. apply Permutation_length, sort_by_perm. Qed.

Lemma sort_by_In (x : A) (l : list A) : In x (sort_by leb l) <-> In x l.
Proof.
  split; apply Permutation_in;
    [apply sort_by_perm | apply Permutation_sym, sort_by_perm].
Qed.

(** Sorting commutes with a map that respects the order. *)
Lemma sort_by_map {B : Type} (leb' : B -> B -> bool) (g : A -> B) (l : list A) :
  (forall a b, leb' (g a) (g b) = leb a b) ->
  sort_by leb' (map g l) = map g (sort_by leb l).
Proof.
  intros Hg. induction l as [|x t IH]; simpl; [reflexivity|].
  rewrite IH. generalize (sort_by leb t). intros s.
  induction s as [|y s IHs]; simpl; [reflexivity|].
  rewrite Hg. destruct (leb x y); simpl; [reflexivity | now rewrite IHs].
Qed.

End ListFacts.

(** Code-point order on characters. *)

Lemma N_of_ascii_inj (a b : ascii) : N_of_ascii a = N_of_ascii b -> a = b.
Proof.
  intros H. rewrite <- (ascii_N_embedding a), <- (ascii_N_embedding b).
  now rewrite H.
Qed.

Lemma insert_sorted (x : ascii) (l : list ascii) :
  StronglySorted char_le l -> StronglySorted char_le (insert_by char_leb x l).
Proof.
  induction 1 as [|y t Ht IH Hy]; simpl.
  - repeat constructor.
  - unfold char_leb. destruct (N.leb_spec (N_of_ascii x) (N_of_ascii y)) as [L|L].
    + constructor; [now constructor|].
      constructor; [assumption|].
      eapply Forall_impl; [|exact Hy]. unfold char_le. intros; lia.
    + constructor; [assumption|].
      apply (Permutation_Forall (Permutation_sym (insert_by_perm char_leb x t))).
      constructor; [unfold char_le; lia | assumption].
Qed.

Lemma sort_chars_sorted (l : list ascii) : StronglySorted char_le (sort_by char_leb l).
Proof.
  induction l as [|x t IH]; simpl; [constructor | now apply insert_sorted].
Qed.

Lemma sorted_nodup_strict (l : list ascii) :
  StronglySorted char_le l -> NoDup l -> StronglySorted char_lt l.
Proof.
  induction 1 as [|y t Ht IH Hy]; intros Hnd; [constructor|].
  inversion Hnd as [|? ? Hni Hnd']; subst.
  constructor; [now apply IH|].
  rewrite Forall_forall in *. intros z Hz.
  specialize (Hy z Hz). unfold char_le, char_lt in *.
  assert (N_of_ascii y <> N_of_ascii z).
  { intros E. apply N_of_ascii_inj in E. now subst. }
  lia.
Qed.

(** Two strictly sorted lists with the same elements are the same list. *)
Lemma strict_sorted_unique (l1 l2 : list ascii) :
  StronglySorted char_lt l1 -> StronglySorted char_lt l2 ->
  (forall x, In x l1 <-> In x l2) -> l1 = l2.
Proof.
  intros H1. revert l2.
  induction H1 as [|a t Ht IH Ha]; intros l2 H2 Hin.
  - destruct l2 as [|b u]; [reflexivity|].
    exfalso. apply (proj2 (Hin b)). now left.
  - destruct H2 as [|b u Hu Hb].
    + exfalso. apply (proj1 (Hin a)). now left.
    + rewrite Forall_forall in Ha, Hb.
      assert (a = b) as ->.
      { destruct (proj1 (Hin a) (or_introl eq_refl)) as [E|Hau]; [now subst|].
        destruct (proj2 (Hin b) (or_introl eq_refl)) as [E|Hbt]; [assumption|].
        specialize (Ha _ Hbt). specialize (Hb _ Hau).
        unfold char_lt in *. lia. }
      f_equal. apply IH; [assumption|].
      intros x. split; intros Hx.
      * destruct (proj1 (Hin x) (or_intror Hx)) as [E|Hxu]; [|assumption].
        subst. specialize (Ha _ Hx). unfold char_lt in Ha. lia.
      * destruct (proj2 (Hin x) (or_intror Hx)) as [E|Hxt]; [|assumption].
        subst. specialize (Hb _ Hx). unfold char_lt in Hb. lia.
Qed.

(** Sorting a duplicate-free list that has the elements of a strictly
    sorted list gives that list. *)
Lemma sort_chars_canonical (l ref : list ascii) :
  NoDup l -> StronglySorted char_lt ref ->
  (forall x, In x l <-> In x ref) ->
  sort_by char_leb l = ref.
Proof.
  intros Hnd Href Hin.
  apply strict_sorted_unique; [|assumption|].
  - apply sorted_nodup_strict; [apply sort_chars_sorted|].
    apply (Permutation_NoDup (Permutation_sym (sort_by_perm char_leb l))), Hnd.
  - intros x. rewrite sort_by_In. apply Hin.
Qed.

(** ** The one-hot encoder *)

Section OneHotFacts.

Import Pd Encoder EncoderSpec.

Lemma column_of_singletons {V : Type} (l : list V) :
  flat_map (fun r => match nth_error r 0 with
                     | Some v => [v]
                     | None => []
                     end) (map (fun v => [v]) l) = l.
Proof.
  induction l as [|a u IH]; [reflexivity|].
  cbn [map flat_map nth_error app]. now f_equal.
Qed.

Lemma getitem_of_list {V : Type} (l : list V) :
  l <> [] -> getitem Nat.eqb (DataFrame_of_list l) 0%nat = inr l.
Proof.
  intros Hl. destruct l as [|v t]; [congruence|].
  unfold getitem, DataFrame_of_list. cbn [columns values index_of Nat.eqb].
  unfold Py.ret. f_equal. apply column_of_singletons.
Qed.

Lemma combine_map_repeat {B C : Type} (f : ascii -> B) (z : C) (l : list ascii) :
  combine (map f l) (repeat z (length l)) = map (fun c => (f c, z)) l.
Proof.
  induction l as [|a t IH]; simpl; [reflexivity | now rewrite IH].
Qed.

Lemma combine_map_self {B : Type} (f : ascii -> B) (l : list ascii) :
  combine l (map f l) = map (fun t => (t, f t)) l.
Proof.
  induction l as [|a t IH]; simpl; [reflexivity | now rewrite IH].
Qed.

Lemma zero_row (c : ascii) (o : list ascii) :
  ~ In c o -> repeat 0%Z (length o) = map (indicator c) o.
Proof.
  induction o as [|t o IH]; simpl; intros H; [reflexivity|].
  unfold indicator at 1.
  destruct (Ascii.eqb c t) eqn:E.
  - apply Ascii.eqb_eq in E. subst. tauto.
  - rewrite IH; [reflexivity | tauto].
Qed.

(** One row of the sorted frame. *)
Lemma sorted_row (c : ascii) (cols : list ascii) :
  map snd (sort_by (fun lv lw : ascii * Z => char_leb (fst lv) (fst lw))
             (combine cols (map (indicator c) cols)))
  = map (indicator c) (sort_by char_leb cols).
Proof.
  rewrite combine_map_self.
  rewrite (sort_by_map char_leb (fun lv lw : ascii * Z => char_leb (fst lv) (fst lw))
             (fun t => (t, indicator c t))) by reflexivity.
  rewrite map_map. reflexivity.
Qed.

(** What [one_hot_encode] computes: it raises [KeyError] on the empty
    string and otherwise returns, position by position, the indicator row
    of the letter over the sorted column labels. *)
Lemma one_hot_encode_eq (seq : string) :
  seq <> EmptyString ->
  one_hot_encode seq
  = inr (flat_map (fun c => map (indicator c) (one_hot_columns seq))
           (list_ascii_of_string seq)).
Proof.
  intros Hne. unfold one_hot_encode.
  set (l := list_ascii_of_string seq).
  assert (Hl : l <> []).
  { subst l. destruct seq; [congruence | simpl; congruence]. }
  rewrite (getitem_of_list Hl). cbn [Py.bind].
  set (tags := sort_by char_leb (unique (filter (fun c => negb (Ascii.eqb c comma)) l))).
  set (o := filter (fun c => negb (mem c l)) codes).
  assert (Htags : forall t, In t tags -> In t l).
  { intros t Ht. subst tags. rewrite sort_by_In, unique_In in Ht.
    now apply filter_In in Ht. }
  assert (Ho : forall t, In t o -> ~ In t l).
  { intros t Ht. subst o. apply filter_In in Ht. destruct Ht as [_ Ht].
    apply mem_false. now destruct (mem t l). }
  unfold join, str_get_dummies, zeros. cbn [columns values].
  fold tags.
  assert (existsb (fun c => mem c o) tags = false) as ->.
  { destruct (existsb (fun c => mem c o) tags) eqn:E; [|reflexivity].
    apply existsb_exists in E. destruct E as [t [Ht Hm]].
    apply mem_In in Hm. exfalso. exact (Ho t Hm (Htags t Ht)). }
  cbn [Py.bind Py.ret]. unfold Py.ret. f_equal.
  unfold flatten, sort_index_axis1. cbn [columns values].
  rewrite <- (length_list_of_string seq). fold l.
  rewrite combine_map_repeat, !map_map. cbn [fst snd].
  rewrite flat_map_concat_map. f_equal.
  apply map_ext_in. intros c Hc.
  assert (Hz : repeat 0%Z (length o) = map (indicator c) o).
  { apply zero_row. intros Hco. exact (Ho c Hco Hc). }
  rewrite Hz.
  change (fun t => if Ascii.eqb c t then 1%Z else 0%Z) with (indicator c).
  rewrite <- map_app. apply sorted_row.
Qed.

End OneHotFacts.

Section OneHotColumns.

Import Pd Encoder EncoderSpec.

Lemma codes_sorted : StronglySorted char_lt codes.
Proof.
  unfold codes. cbn [list_ascii_of_string].
  repeat (constructor; [|repeat (constructor; [reflexivity|]); constructor]).
  constructor.
Qed.

Lemma strict_sorted_NoDup (l : list ascii) : StronglySorted char_lt l -> NoDup l.
Proof.
  induction 1 as [|a t Ht IH Ha]; constructor; [|assumption].
  intros Hin. rewrite Forall_forall in Ha. specialize (Ha a Hin).
  unfold char_lt in Ha. lia.
Qed.

Lemma codes_NoDup : NoDup codes.
Proof. apply strict_sorted_NoDup, codes_sorted. Qed.

Lemma codes_length : length codes = 20%nat.
Proof. reflexivity. Qed.

Lemma comma_not_code : ~ In comma codes.
Proof.
  unfold codes. cbn [list_ascii_of_string In]. unfold comma.
  intros H. repeat (destruct H as [H|H]; [discriminate H|]). exact H.
Qed.

Lemma filter_all {A : Type} (p : A -> bool) (l : list A) :
  (forall x, In x l -> p x = true) -> filter p l = l.
Proof.
  induction l as [|a t IH]; simpl; intros H; [reflexivity|].
  rewrite (H a (or_introl eq_refl)). f_equal. apply IH. intros; apply H; now right.
Qed.

(** Membership in the joined column labels. *)
Lemma one_hot_columns_In (seq : string) (x : ascii) :
  In x (one_hot_columns seq) <->
  (In x (list_ascii_of_string seq) /\ x <> comma) \/ In x codes.
Proof.
  unfold one_hot_columns. rewrite sort_by_In, in_app_iff, sort_by_In, unique_In.
  rewrite !filter_In. split.
  - intros [[Hx Hc]|[Hx _]]; [left | now right].
    split; [assumption|]. intros ->. now rewrite Ascii.eqb_refl in Hc.
  - intros [[Hx Hc]|Hx].
    + left. split; [assumption|].
      destruct (Ascii.eqb x comma) eqn:E; [|reflexivity].
      apply Ascii.eqb_eq in E. contradiction.
    + destruct (mem x (list_ascii_of_string seq)) eqn:E.
      * left. apply mem_In in E. split; [assumption|].
        destruct (Ascii.eqb x comma) eqn:E'; [|reflexivity].
        apply Ascii.eqb_eq in E'. subst. exfalso. now apply comma_not_code.
      * right. now split.
Qed.

Lemma one_hot_columns_NoDup (seq : string) : NoDup (one_hot_columns seq).
Proof.
  unfold one_hot_columns.
  apply (Permutation_NoDup (Permutation_sym (sort_by_perm char_leb _))).
  apply NoDup_app.
  - apply (Permutation_NoDup (Permutation_sym (sort_by_perm char_leb _))).
    apply unique_NoDup.
  - apply NoDup_filter, codes_NoDup.
  - intros x Hx Ho. rewrite sort_by_In, unique_In in Hx.
    apply filter_In in Hx. apply filter_In in Ho.
    destruct Hx as [Hx _]. destruct Ho as [_ Ho].
    apply mem_In in Hx. rewrite Hx in Ho. discriminate.
Qed.

(** Over the alphabet the columns are exactly the twenty letters in order. *)
Lemma one_hot_columns_alphabet (seq : string) :
  over_alphabet seq -> one_hot_columns seq = codes.
Proof.
  intros Hseq. unfold over_alphabet in Hseq. rewrite Forall_forall in Hseq.
  unfold one_hot_columns.
  apply sort_chars_canonical; [|apply codes_sorted|].
  - apply (Permutation_NoDup (sort_by_perm char_leb _)).
    apply (one_hot_columns_NoDup seq).
  - intros x. rewrite <- (sort_by_In char_leb). fold (one_hot_columns seq).
    rewrite one_hot_columns_In. split; [|tauto].
    intros [[Hx _]|Hx]; [now apply Hseq | assumption].
Qed.

(** The alphabet is always among the columns. *)
Lemma one_hot_columns_at_least (seq : string) :
  (20 <= length (one_hot_columns seq))%nat.
Proof.
  rewrite <- codes_length. apply NoDup_incl_length; [apply codes_NoDup|].
  intros x Hx. apply one_hot_columns_In. now right.
Qed.

(** Without a comma every distinct unknown character adds one column. *)
Lemma one_hot_columns_length (seq : string) :
  ~ In comma (list_ascii_of_string seq) ->
  length (one_hot_columns seq) = (20 + length (unknown_letters seq))%nat.
Proof.
  intros Hc. unfold one_hot_columns, unknown_letters.
  set (l := list_ascii_of_string seq) in *.
  rewrite sort_by_length, length_app, sort_by_length.
  rewrite (filter_all (fun c => negb (Ascii.eqb c comma)) l).
  2:{ intros x Hx. destruct (Ascii.eqb x comma) eqn:E; [|reflexivity].
      apply Ascii.eqb_eq in E. subst. contradiction. }
  rewrite unique_filter.
  pose proof (filter_length (fun c => mem c codes) (unique l)) as H1.
  pose proof (filter_length (fun c => mem c l) codes) as H2.
  rewrite codes_length in H2.
  assert (H3 : length (filter (fun c => mem c codes) (unique l))
               = length (filter (fun c => mem c l) codes)).
  { apply Permutation_length, NoDup_Permutation.
    - apply NoDup_filter, unique_NoDup.
    - apply NoDup_filter, codes_NoDup.
    - intros x. rewrite !filter_In, unique_In, !mem_In. tauto. }
  lia.
Qed.

End OneHotColumns.

Section OneHotClaims.

Import Pd Encoder EncoderSpec.

Lemma flat_map_block_length {A B : Type} (f : A -> list B) (n : nat) (l : list A) :
  (forall a, In a l -> length (f a) = n) ->
  length (flat_map f l) = (length l * n)%nat.
Proof.
  induction l as [|a t IH]; simpl; intros H; [reflexivity|].
  rewrite length_app, (H a (or_introl eq_refl)), IH; [reflexivity|].
  intros; apply H; now right.
Qed.

Lemma flat_map_block_nth {A B : Type} (f : A -> list B) (n : nat) (da : A) (db : B)
    (l : list A) (i j : nat) :
  (forall a, length (f a) = n) ->
  (i < length l)%nat -> (j < n)%nat ->
  nth (i * n + j) (flat_map f l) db = nth j (f (nth i l da)) db.
Proof.
  intros Hn. revert i. induction l as [|a t IH]; simpl; intros i Hi Hj; [lia|].
  destruct i as [|i].
  - simpl. apply app_nth1. now rewrite Hn.
  - rewrite app_nth2 by (rewrite Hn; simpl; lia).
    rewrite Hn. replace (S i * n + j - n)%nat with (i * n + j)%nat by (simpl; lia).
    apply IH; [lia | assumption].
Qed.

Lemma flat_map_block_count {A : Type} (f : A -> list Z) (v : Z) (l : list A) :
  (forall a, In a l -> count_occ Z.eq_dec (f a) v = 1%nat) ->
  count_occ Z.eq_dec (flat_map f l) v = length l.
Proof.
  induction l as [|a t IH]; simpl; intros H; [reflexivity|].
  rewrite count_occ_app, (H a (or_introl eq_refl)), IH; [reflexivity|].
  intros; apply H; now right.
Qed.

(** A letter of the alphabet has exactly one 1 in its row. *)
Lemma indicator_row_count (c : ascii) :
  In c codes -> count_occ Z.eq_dec (map (indicator c) codes) 1%Z = 1%nat.
Proof.
  unfold codes. cbn [list_ascii_of_string In]. intros H.
  repeat (destruct H as [H|H]; [subst c; reflexivity|]). contradiction.
Qed.

Lemma indicator_row_nth (c : ascii) (cols : list ascii) (j : nat) :
  (j < length cols)%nat ->
  nth j (map (indicator c) cols) 0%Z = indicator c (nth j cols Ascii.zero).
Proof.
  intros Hj.
  rewrite (nth_indep _ 0%Z (indicator c Ascii.zero)) by now rewrite length_map.
  apply map_nth.
Qed.

(** C5 (as amended): for every non-empty peptide [P] of length [L] over the
    twenty-letter alphabet, [one_hot_encode P] returns a vector of length
    [L * 20] whose entry [i * 20 + j] is 1 when the letter at position [i]
    is the [j]-th letter of the alphabetically ordered alphabet and 0
    otherwise, so that it holds exactly [L] ones. *)
Theorem one_hot_encode_alphabet (P : string) :
  P <> EmptyString ->
  over_alphabet P ->
  exists e,
    one_hot_encode P = inr e
    /\ length e = (String.length P * 20)%nat
    /\ count_occ Z.eq_dec e 1%Z = String.length P
    /\ StronglySorted char_lt codes
    /\ forall i j, (i < String.length P)%nat -> (j < 20)%nat ->
         nth (i * 20 + j) e 0%Z
         = indicator (nth i (list_ascii_of_string P) Ascii.zero) (nth j codes Ascii.zero).
Proof.
  intros Hne Halpha.
  exists (flat_map (fun c => map (indicator c) codes) (list_ascii_of_string P)).
  split; [|split; [|split; [|split]]].
  - rewrite (one_hot_encode_eq Hne), (one_hot_columns_alphabet Halpha). reflexivity.
  - rewrite <- (length_list_of_string P). apply flat_map_block_length.
    intros a _. now rewrite length_map.
  - rewrite <- (length_list_of_string P). apply flat_map_block_count.
    intros a Ha. apply indicator_row_count.
    unfold over_alphabet in Halpha. rewrite Forall_forall in Halpha. now apply Halpha.
  - apply codes_sorted.
  - intros i j Hi Hj. rewrite <- (length_list_of_string P) in Hi.
    rewrite (flat_map_block_nth (fun c => map (indicator c) codes) Ascii.zero 0%Z
               (list_ascii_of_string P) (n := 20)); try assumption.
    + now apply indicator_row_nth.
    + intros a. now rewrite length_map.
Qed.

Lemma one_hot_encode_alphabet_witness :
  exists e,
    one_hot_encode pep = inr e
    /\ length e = (String.length pep * 20)%nat
    /\ count_occ Z.eq_dec e 1%Z = String.length pep
    /\ StronglySorted char_lt codes
    /\ forall i j, (i < String.length pep)%nat -> (j < 20)%nat ->
         nth (i * 20 + j) e 0%Z
         = indicator (nth i (list_ascii_of_string pep) Ascii.zero) (nth j codes Ascii.zero).
Proof.
  apply (one_hot_encode_alphabet (P := pep)).
  - discriminate.
  - unfold over_alphabet, pep, codes. cbn [list_ascii_of_string].
    repeat (constructor; [cbn [In]; tauto|]). constructor.
Defined.

(** C5 as stated fails on the empty peptide: it is over the alphabet, and
    the encoder raises [KeyError] instead of returning the empty vector. *)
Lemma one_hot_encode_empty_peptide :
  over_alphabet EmptyString
  /\ one_hot_encode EmptyString = inl Py.KeyError
  /\ ~ exists e, one_hot_encode EmptyString = inr e.
Proof.
  split; [constructor|]. split; [reflexivity|].
  intros [e He]. discriminate He.
Qed.

(** C2 (as amended): an input sequence with a letter outside the alphabet
    is not rejected; [one_hot_encode] raises nothing and returns a vector
    that has at least twenty entries per position. *)
Theorem one_hot_encode_unknown_symbol_accepted (seq : string) (c : ascii) :
  In c (list_ascii_of_string seq) ->
  ~ In c codes ->
  exists e,
    one_hot_encode seq = inr e
    /\ length e = (String.length seq * length (one_hot_columns seq))%nat
    /\ (String.length seq * 20 <= length e)%nat.
Proof.
  intros Hc _.
  assert (Hne : seq <> EmptyString) by (intros ->; exact Hc).
  exists (flat_map (fun c => map (indicator c) (one_hot_columns seq))
            (list_ascii_of_string seq)).
  assert (Hlen : length (flat_map (fun c => map (indicator c) (one_hot_columns seq))
                           (list_ascii_of_string seq))
                 = (String.length seq * length (one_hot_columns seq))%nat).
  { rewrite <- (length_list_of_string seq). apply flat_map_block_length.
    intros a _. now rewrite length_map. }
  split; [now apply one_hot_encode_eq|]. split; [assumption|].
  rewrite Hlen. apply Nat.mul_le_mono_l, one_hot_columns_at_least.
Qed.

Lemma one_hot_encode_unknown_symbol_accepted_witness :
  exists e,
    one_hot_encode "ALX" = inr e
    /\ length e = (String.length "ALX" * length (one_hot_columns "ALX"))%nat
    /\ (String.length "ALX" * 20 <= length e)%nat.
Proof.
  apply (one_hot_encode_unknown_symbol_accepted "ALX" (c := "X"%char)).
  - cbn [list_ascii_of_string In]. tauto.
  - unfold codes. cbn [list_ascii_of_string In].
    intros H. repeat (destruct H as [H|H]; [discriminate H|]). exact H.
Defined.

(** C2 as stated fails: ["AX"] holds a letter outside the alphabet and is
    encoded, with a column of its own for [X], instead of being refused. *)
Lemma one_hot_encode_AX_not_rejected :
  In "X"%char (list_ascii_of_string "AX")
  /\ ~ In "X"%char codes
  /\ one_hot_encode "AX"
     = inr ([1; 0; 0; 0; 0; 0; 0; 0; 0; 0; 0; 0; 0; 0; 0; 0; 0; 0; 0; 0; 0]
            ++ [0; 0; 0; 0; 0; 0; 0; 0; 0; 0; 0; 0; 0; 0; 0; 0; 0; 0; 0; 1; 0])%Z.
Proof.
  split; [cbn [list_ascii_of_string In]; tauto|]. split; [|reflexivity].
  unfold codes. cbn [list_ascii_of_string In].
  intros H. repeat (destruct H as [H|H]; [discriminate H|]). exact H.
Qed.

(** C10 (as amended): for every sequence of length [L] with [k >= 1]
    distinct letters outside the alphabet, none of them the comma,
    [one_hot_encode] raises nothing and returns a vector of length
    [L * (20 + k)]. *)
Theorem one_hot_encode_unknown_columns (seq : string) :
  (1 <= length (unknown_letters seq))%nat ->
  ~ In comma (list_ascii_of_string seq) ->
  exists e,
    one_hot_encode seq = inr e
    /\ length e = (String.length seq * (20 + length (unknown_letters seq)))%nat.
Proof.
  intros Hk Hcomma.
  assert (Hne : seq <> EmptyString).
  { intros ->. cbn in Hk. lia. }
  exists (flat_map (fun c => map (indicator c) (one_hot_columns seq))
            (list_ascii_of_string seq)).
  split; [now apply one_hot_encode_eq|].
  rewrite <- (one_hot_columns_length seq Hcomma), <- (length_list_of_string seq).
  apply flat_map_block_length. intros a _. now rewrite length_map.
Qed.

Lemma one_hot_encode_unknown_columns_witness :
  exists e,
    one_hot_encode "AXBX" = inr e
    /\ length e = (String.length "AXBX" * (20 + length (unknown_letters "AXBX")))%nat.
Proof.
  apply (one_hot_encode_unknown_columns "AXBX").
  - vm_compute. lia.
  - cbn [list_ascii_of_string In]. unfold comma.
    intros H. repeat (destruct H as [H|H]; [discriminate H|]). exact H.
Defined.

(** C10 as stated fails when the unknown letter is the comma, the
    separator given to [get_dummies]: ["A,"] has length 2 and one unknown
    letter, and its code has 40 entries, not 42. *)
Lemma one_hot_encode_comma_no_column :
  String.length "A," = 2%nat
  /\ unknown_letters "A," = [comma]
  /\ exists e, one_hot_encode "A," = inr e
               /\ length e = 40%nat
               /\ length e <> (2 * (20 + 1))%nat.
Proof.
  split; [reflexivity|]. split; [reflexivity|].
  eexists. split; [reflexivity|]. split; [reflexivity|]. cbn. lia.
Qed.

End OneHotClaims.

(** ** The BLOSUM encoder *)

Section BlosumClaims.

Import Pd Encoder EncoderSpec TableSpec.

Variable blosum : Table Z.
Hypothesis layout : blosum62_layout blosum = true.

Lemma layout_letter (c : ascii) :
  In c codes ->
  table_getitem blosum c = inr (table_row blosum c)
  /\ length (table_row blosum c) = 24%nat.
Proof.
  intros Hc. unfold blosum62_layout in layout.
  apply andb_prop in layout. destruct layout as [_ Hall].
  rewrite forallb_forall in Hall. specialize (Hall c Hc).
  unfold letter_ok in Hall.
  destruct (table_getitem blosum c) as [e|col]; [discriminate|].
  apply andb_prop in Hall. destruct Hall as [Hlen Heq].
  unfold list_Z_eqb in Heq.
  destruct (list_eq_dec Z.eq_dec col (table_row blosum c)) as [E|E]; [|discriminate].
  subst col. split; [reflexivity|]. now apply Nat.eqb_eq.
Qed.

Lemma layout_dropped_columns :
  length (row_labels blosum) = 24%nat
  /\ skipn 20 (row_labels blosum) = list_ascii_of_string "BZX*".
Proof.
  unfold blosum62_layout in layout.
  apply andb_prop in layout. destruct layout as [H _].
  apply andb_prop in H. destruct H as [H1 H2].
  split; [now apply Nat.eqb_eq|].
  destruct (list_eq_dec ascii_dec (skipn 20 (row_labels blosum))
              (list_ascii_of_string "BZX*")); [assumption | discriminate].
Qed.

Lemma lookup_all (l : list ascii) :
  Forall (fun c => In c codes) l ->
  Py.mapM (table_getitem blosum) l = inr (map (table_row blosum) l).
Proof.
  induction 1 as [|c t Hc Ht IH]; [reflexivity|].
  cbn [Py.mapM map]. rewrite (proj1 (layout_letter Hc)), IH. reflexivity.
Qed.

Lemma trimmed_rows (l : list ascii) :
  Forall (fun c => In c codes) l ->
  concat (map (fun r : list Z => firstn (length r - 4) r) (map (table_row blosum) l))
  = flat_map (fun c => firstn 20 (table_row blosum c)) l.
Proof.
  induction 1 as [|c t Hc Ht IH]; [reflexivity|].
  cbn [map concat flat_map]. rewrite IH.
  rewrite (proj2 (layout_letter Hc)). reflexivity.
Qed.

(** C6: for every peptide of length [L] over the alphabet, and a BLOSUM62
    table in the distributed layout, [blosum_encode] returns a vector of
    length [L * 20]: each position contributes the matrix row of its
    amino acid cut to its first 20 columns, the four trailing columns
    ([B], [Z], [X], [*]) being dropped. *)
Theorem blosum_encode_rows (P : string) :
  over_alphabet P ->
  exists e,
    blosum_encode blosum P = inr e
    /\ length e = (String.length P * 20)%nat
    /\ e = flat_map (fun c => firstn 20 (table_row blosum c)) (list_ascii_of_string P)
    /\ skipn 20 (row_labels blosum) = list_ascii_of_string "BZX*".
Proof.
  intros Halpha. unfold over_alphabet in Halpha.
  exists (flat_map (fun c => firstn 20 (table_row blosum c)) (list_ascii_of_string P)).
  split; [|split; [|split]].
  - unfold blosum_encode. rewrite (lookup_all Halpha). cbn [Py.bind].
    unfold Py.ret. f_equal.
    rewrite <- (trimmed_rows Halpha).
    generalize (map (table_row blosum) (list_ascii_of_string P)).
    intros rows. destruct rows; reflexivity.
  - rewrite <- (length_list_of_string P). apply flat_map_block_length.
    intros a Ha. rewrite Forall_forall in Halpha.
    rewrite length_firstn, (proj2 (layout_letter (Halpha a Ha))). reflexivity.
  - reflexivity.
  - apply layout_dropped_columns.
Qed.

End BlosumClaims.

Lemma blosum_encode_rows_witness :
  exists e,
    Encoder.blosum_encode Blosum62.blosum62 Encoder.pep = inr e
    /\ length e = (String.length Encoder.pep * 20)%nat
    /\ e = flat_map (fun c => firstn 20 (TableSpec.table_row Blosum62.blosum62 c))
             (list_ascii_of_string Encoder.pep)
    /\ skipn 20 (Encoder.row_labels Blosum62.blosum62) = list_ascii_of_string "BZX*".
Proof.
  apply (blosum_encode_rows Blosum62.blosum62).
  - vm_compute. reflexivity.
  - unfold EncoderSpec.over_alphabet, Encoder.pep, Encoder.codes.
    cbn [list_ascii_of_string].
    repeat (constructor; [cbn [In]; tauto|]). constructor.
Defined.

(** ** The random baseline *)

Section RandomFacts.

Import Encoder.

Variable RNG : Type.
Variable randint : Z -> RNG -> Z * RNG.

Lemma draw_each_length {A : Type} (draw : RNG -> Z * RNG) (l : list A) (g : RNG) :
  length (fst (draw_each draw l g)) = length l.
Proof.
  revert g. induction l as [|a t IH]; intros g; [reflexivity|].
  cbn [draw_each]. destruct (draw g) as [v g1].
  specialize (IH g1). destruct (draw_each draw t g1) as [vs g2].
  cbn [fst length] in *. now rewrite IH.
Qed.

(** Every entry is a draw of [randint(20)]: when the generator keeps its
    draws in [[0, 20)], so does the code. *)
Lemma random_encode_range (p : string) (g : RNG) :
  (forall g', 0 <= fst (randint 20 g') < 20)%Z ->
  Forall (fun v => 0 <= v < 20)%Z (fst (random_encode randint p g)).
Proof.
  intros Hr. unfold random_encode. generalize (list_ascii_of_string pep).
  intros l. revert g. induction l as [|a t IH]; intros g; [constructor|].
  cbn [draw_each]. pose proof (Hr g) as Hg. destruct (randint 20 g) as [v g1].
  specialize (IH g1). destruct (draw_each (randint 20) t g1) as [vs g2].
  cbn [fst] in *. now constructor.
Qed.

(** C9 (the code, at a failing input): whatever the generator, the code
    of a peptide of length 4 has the 9 entries of the global [pep], and
    every argument is encoded like [pep] itself. *)
Theorem random_encode_ignores_argument (g : RNG) :
  String.length "AAAA" = 4%nat
  /\ length (fst (random_encode randint "AAAA" g)) = 9%nat
  /\ forall p, random_encode randint p g = random_encode randint pep g.
Proof.
  split; [reflexivity|]. split; [|reflexivity].
  unfold random_encode. now rewrite draw_each_length.
Qed.

End RandomFacts.

(** ** The affinity transform *)

Section AffinityFacts.

Import Affinity.
Local Open Scope R_scope.

Lemma ln_50000_pos : 0 < ln 50000.
Proof. rewrite <- ln_1. apply ln_increasing; lra. Qed.

(** C3: [to_target 50000 = 0], [to_target 1 = 1], [to_target] is strictly
    decreasing on the positive reals, and [from_target] inverts it there. *)
Theorem affinity_transform :
  to_target 50000 = 0
  /\ to_target 1 = 1
  /\ (forall x y, 0 < x -> x < y -> to_target y < to_target x)
  /\ (forall x, 0 < x -> from_target (to_target x) = x).
Proof.
  pose proof ln_50000_pos as Hpos.
  unfold to_target, from_target. repeat split.
  - field. lra.
  - rewrite ln_1. field. lra.
  - intros x y Hx Hxy.
    assert (ln x < ln y) by (apply ln_increasing; lra).
    assert (ln x / ln 50000 < ln y / ln 50000).
    { unfold Rdiv. apply Rmult_lt_compat_r; [|assumption].
      now apply Rinv_0_lt_compat. }
    lra.
  - intros x Hx. unfold Rpower.
    replace ((1 - (1 - ln x / ln 50000)) * ln 50000) with (ln x) by (field; lra).
    now apply exp_ln.
Qed.

Lemma affinity_transform_witness :
  to_target 500 < to_target 50 /\ from_target (to_target 500) = 500.
Proof.
  destruct affinity_transform as (_ & _ & Hdec & Hinv).
  split; [apply Hdec; lra | apply Hinv; lra].
Defined.

End AffinityFacts.

(** ** The range of the inverse transform *)

Section AffinityRange.

Import Affinity.
Local Open Scope R_scope.

Lemma from_target_pos (t : R) : 0 < from_target t.
Proof. unfold from_target, Rpower. apply exp_pos. Qed.

Lemma from_target_bound (t : R) : from_target t <= 50000 <-> 0 <= t.
Proof.
  unfold from_target. split.
  - intros H. destruct (Rle_or_lt 0 t) as [Ht|Ht]; [assumption|].
    exfalso.
    assert (Rpower 50000 1 < Rpower 50000 (1 - t)) by (apply Rpower_lt; lra).
    rewrite Rpower_1 in *; lra.
  - intros Ht.
    assert (Rpower 50000 (1 - t) <= Rpower 50000 1) by (apply Rle_Rpower; lra).
    rewrite Rpower_1 in *; lra.
Qed.

End AffinityRange.

(** ** Trainer and evaluator *)

Section LearnFacts.

Import Np Learn Evaluator.

Variable RNG : Type.
Variable permutation : nat -> RNG -> list nat * RNG.
Variable W : Type.
Variable train : Hyper -> Array -> list Q -> W.
Variable forward : W -> list Q -> Q.
Variable get_training_set : string -> nat -> list AffinityRecord.
Variable ep_auc_score : list Q -> list Q -> Q -> Py.result pyfloat.

(** The generator's permutations are permutations of the row numbers. *)
Hypothesis permutation_spec :
  forall n g, Permutation (fst (permutation n g)) (seq 0 n).

(** The package's scorer returns a value on arrays of one length that are
    not empty. *)
Hypothesis scorer_defined :
  forall true sc cutoff,
    true <> [] -> length true = length sc ->
    exists r, ep_auc_score true sc cutoff = inr r.

Lemma mapM_length {A B : Type} (f : A -> Rt.M (World RNG) B) (l : list A)
    (w w' : World RNG) (X : list B) :
  Rt.mapM f l w = (inr X, w') -> length X = length l.
Proof.
  revert w X. induction l as [|a t IH]; intros w X H.
  - cbn in H. inversion H. reflexivity.
  - cbn [Rt.mapM] in H. unfold Rt.bind at 1 in H.
    destruct (f a w) as [[e|b] w1]; [discriminate|].
    unfold Rt.bind in H.
    destruct (Rt.mapM f t w1) as [[e|bs] w2] eqn:E; [discriminate|].
    cbn in H. inversion H. subst. cbn [length]. f_equal. exact (IH _ _ E).
Qed.

(** *** Frames and validated arrays *)

Lemma encode_all_rows (encoder : Encoder_fn RNG) (df : list AffinityRecord)
    (w w1 : World RNG) (A : list (list Q)) :
  encode_rows encoder df w = (inr A, w1) ->
  encode_all encoder df w = (inr (DataFrame_of_rows A), w1).
Proof. intros H. unfold encode_all, Rt.bind. now rewrite H. Qed.

Lemma encode_all_inv (encoder : Encoder_fn RNG) (df : list AffinityRecord)
    (w w1 : World RNG) (X : Matrix) :
  encode_all encoder df w = (inr X, w1) ->
  exists A, encode_rows encoder df w = (inr A, w1) /\ X = DataFrame_of_rows A.
Proof.
  unfold encode_all, Rt.bind. intros H.
  destruct (encode_rows encoder df w) as [[e|A] w2]; [discriminate H|].
  unfold Rt.ret, Py.ret in H. inversion H; subst. now exists A.
Qed.

Lemma encode_all_length (encoder : Encoder_fn RNG) (df : list AffinityRecord)
    (w w1 : World RNG) (X : Matrix) :
  encode_all encoder df w = (inr X, w1) -> length X = length df.
Proof.
  intros H. destruct (encode_all_inv _ _ _ H) as [A [HA ->]].
  unfold DataFrame_of_rows. rewrite length_map.
  unfold encode_rows in HA. rewrite (mapM_length _ _ _ HA). apply length_map.
Qed.

Lemma max_length_uniform (m : nat) (A : Array) :
  uniform m A -> A <> [] -> fold_right Nat.max 0%nat (map (@length Q) A) = m.
Proof.
  induction 1 as [|r t Hr Ht IH]; intros Hne; [congruence|].
  cbn [map fold_right]. rewrite Hr.
  destruct t as [|r' t']; [cbn; lia|].
  rewrite IH by discriminate. lia.
Qed.

(** Rows of one length are not padded. *)
Lemma DataFrame_of_rows_uniform (m : nat) (A : Array) :
  uniform m A -> DataFrame_of_rows A = frame_of A.
Proof.
  intros H. destruct A as [|r t]; [reflexivity|].
  unfold DataFrame_of_rows, frame_of.
  rewrite (max_length_uniform H) by discriminate.
  apply map_ext_in. intros r' Hr'. unfold uniform in H.
  rewrite Forall_forall in H. unfold pad_row. rewrite (H r' Hr'), Nat.sub_diag.
  apply app_nil_r.
Qed.

Lemma finite_row_Fin (r : list Q) : finite_row (map Fin r) = Some r.
Proof. induction r as [|q t IH]; [reflexivity|]. cbn. now rewrite IH. Qed.

Lemma finite_rows_frame (A : Array) : finite_rows (frame_of A) = Some A.
Proof.
  induction A as [|r t IH]; [reflexivity|].
  unfold frame_of in *. cbn [map finite_rows]. now rewrite finite_row_Fin, IH.
Qed.

(** A frame without NaN, with at least one row and one column, passes the
    validation. *)
Lemma check_array_frame (m : nat) (A : Array) :
  A <> [] -> uniform m A -> (1 <= m)%nat -> check_array (frame_of A) = inr A.
Proof.
  intros Hne Hu Hm. destruct A as [|r t]; [congruence|].
  unfold check_array. change (frame_of (r :: t)) with (map Fin r :: frame_of t).
  change (map Fin r :: frame_of t) with (frame_of (r :: t)) at 2 3.
  unfold uniform in Hu. rewrite Forall_forall in Hu.
  rewrite length_map, (Hu r (or_introl eq_refl)).
  destruct (Nat.eqb_spec m 0) as [E|_]; [lia|].
  assert (F : forallb (fun r' : list pyfloat => (length r' =? m)%nat)
                (frame_of (r :: t)) = true).
  { apply forallb_forall. intros r' Hr'. unfold frame_of in Hr'.
    apply in_map_iff in Hr'. destruct Hr' as [q [<- Hq]].
    rewrite length_map, (Hu q Hq). apply Nat.eqb_refl. }
  rewrite F. cbn [negb]. now rewrite finite_rows_frame.
Qed.

Lemma take_map {R S : Type} (f : R -> S) (l : list R) (idx : list nat) :
  take (map f l) idx = map f (take l idx).
Proof.
  unfold take. induction idx as [|i t IH]; [reflexivity|].
  cbn [flat_map]. rewrite map_app, IH, nth_error_map.
  now destruct (nth_error l i).
Qed.

Lemma take_uniform (m : nat) (A : Array) (idx : list nat) :
  uniform m A -> uniform m (take A idx).
Proof.
  unfold uniform, take. intros H. rewrite Forall_forall in *.
  intros r Hr. apply in_flat_map in Hr. destruct Hr as [i [_ Hr]].
  destruct (nth_error A i) as [v|] eqn:E; [|contradiction].
  destruct Hr as [<-|[]]. apply H. exact (nth_error_In _ _ E).
Qed.

Lemma hd_uniform (m : nat) (A : Array) :
  A <> [] -> uniform m A -> length (hd [] A) = m.
Proof.
  intros Hne H. destruct A as [|r t]; [congruence|].
  inversion H; subst. reflexivity.
Qed.

(** [fit] and [predict] on a frame that passes the validation. *)
Lemma fit_frame (m : nat) (reg : MLPRegressor W) (A : Array) (y : list Q)
    (w : World RNG) :
  A <> [] -> uniform m A -> (1 <= m)%nat -> length A = length y ->
  fit train reg (frame_of A) y w
  = (inr (mkReg (params reg) (Some (train (params reg) A y)) m),
     mkWorld (rng w) (fits w ++ [(A, y)])).
Proof.
  intros Hne Hu Hm Hlen. unfold fit.
  rewrite (check_array_frame Hne Hu Hm), Hlen, Nat.eqb_refl. cbn [negb].
  rewrite (hd_uniform Hne Hu). reflexivity.
Qed.

Lemma predict_frame (m : nat) (reg : MLPRegressor W) (wt : W) (A : Array)
    (w : World RNG) :
  coefs_ reg = Some wt -> n_features_in_ reg = m ->
  A <> [] -> uniform m A -> (1 <= m)%nat ->
  predict forward reg (frame_of A) w = (inr (map (forward wt) A), w).
Proof.
  intros Hc Hn Hne Hu Hm. unfold predict. rewrite Hc.
  rewrite (check_array_frame Hne Hu Hm), Hn, (hd_uniform Hne Hu), Nat.eqb_refl.
  reflexivity.
Qed.

(** C4 (as amended): with fewer than 100 records in the training table
    [build_predictor] returns no model and runs no fit (the world is
    unchanged); with at least 100 records, every peptide accepted by the
    encoder and all the encodings of one length [m >= 1], it runs one fit
    on the encoded table and returns the fitted regressor. *)
Theorem build_predictor_threshold
    (nlf_encode : Encoder_fn RNG) (allele : string)
    (encoder : option (Encoder_fn RNG)) (len : nat) (w : World RNG) :
  let enc := match encoder with
             | None => nlf_encode
             | Some e => e
             end in
  let data := get_training_set allele len in
  ((length data < 100)%nat ->
   build_predictor train get_training_set nlf_encode allele encoder len w
   = (inr None, w))
  /\ ((100 <= length data)%nat ->
      forall A w1 m,
        encode_rows enc data w = (inr A, w1) ->
        uniform m A -> (1 <= m)%nat ->
        build_predictor train get_training_set nlf_encode allele encoder len w
        = (inr (Some (mkReg notebook_hyper
                        (Some (train notebook_hyper A (map log50k data))) m)),
           mkWorld (rng w1) (fits w1 ++ [(A, map log50k data)]))).
Proof.
  intros enc data. unfold build_predictor. fold enc. fold data. split.
  - intros Hlt. apply Nat.ltb_lt in Hlt. rewrite Hlt. reflexivity.
  - intros Hge A w1 m Henc Hu Hm. apply Nat.ltb_ge in Hge. rewrite Hge.
    assert (HA : length A = length data).
    { unfold encode_rows in Henc. rewrite (mapM_length _ _ _ Henc).
      apply length_map. }
    assert (Hne : A <> []).
    { intros ->. cbn [length] in HA. apply Nat.ltb_ge in Hge. lia. }
    unfold Rt.bind at 1.
    rewrite (encode_all_rows _ _ _ Henc), (DataFrame_of_rows_uniform Hu).
    unfold Rt.bind at 1.
    rewrite (@fit_frame m _ A (map log50k data) w1 Hne Hu Hm)
      by (now rewrite length_map).
    reflexivity.
Qed.

Lemma n_test_bounds (n : nat) :
  (3 * n <= 10 * n_test_of n < 3 * n + 10)%nat.
Proof.
  unfold n_test_of.
  pose proof (Nat.div_mod_eq (3 * n + 9) 10).
  pose proof (Nat.mod_upper_bound (3 * n + 9) 10). lia.
Qed.

Lemma n_train_positive (n : nat) : (2 <= n)%nat -> (n - n_test_of n <> 0)%nat.
Proof. intros H. pose proof (n_test_bounds n). lia. Qed.

Lemma take_length {A : Type} (a : list A) (idx : list nat) :
  Forall (fun i => (i < length a)%nat) idx -> length (take a idx) = length idx.
Proof.
  induction 1 as [|i t Hi Ht IH]; [reflexivity|].
  unfold take in *. cbn [flat_map]. rewrite length_app, IH.
  apply nth_error_Some in Hi.
  destruct (nth_error a i); [reflexivity | congruence].
Qed.

(** The two index arrays of a split partition the row numbers. *)
Lemma split_partition (n : nat) (perm : list nat) :
  Permutation perm (seq 0 n) ->
  length (ind_test n perm) = n_test_of n
  /\ length (ind_train n perm) = (n - n_test_of n)%nat
  /\ Permutation (ind_test n perm ++ ind_train n perm) (seq 0 n)
  /\ Forall (fun i => (i < n)%nat) (ind_test n perm)
  /\ Forall (fun i => (i < n)%nat) (ind_train n perm).
Proof.
  intros Hp.
  assert (Hlen : length perm = n).
  { rewrite (Permutation_length Hp). apply length_seq. }
  assert (Ht : (n_test_of n <= n)%nat).
  { pose proof (n_test_bounds n). lia. }
  assert (Htrain : ind_train n perm = skipn (n_test_of n) perm).
  { unfold ind_train. apply firstn_all2. rewrite length_skipn. lia. }
  assert (Hall : Forall (fun i => (i < n)%nat) perm).
  { rewrite Forall_forall. intros i Hi.
    apply (Permutation_in _ Hp) in Hi. apply in_seq in Hi. lia. }
  rewrite Htrain. unfold ind_test.
  split; [rewrite length_firstn; lia|].
  split; [rewrite length_skipn; lia|].
  split; [now rewrite firstn_skipn|].
  rewrite <- (firstn_skipn (n_test_of n) perm) in Hall.
  apply Forall_app in Hall. exact Hall.
Qed.

Lemma evaluation_round_eq (m : nat) (A : Array) (y : list Q)
    (reg : MLPRegressor W) (res : list pyfloat) (w : World RNG)
    (perm : list nat) (g : RNG) (a : pyfloat) :
  uniform m A -> (1 <= m)%nat ->
  length A = length y ->
  (2 <= length A)%nat ->
  params reg = notebook_hyper ->
  permutation (length A) (rng w) = (perm, g) ->
  round_auc train forward ep_auc_score A y perm = inr a ->
  evaluation_round permutation train forward ep_auc_score (frame_of A) y
    (reg, res) w
  = (inr (mkReg notebook_hyper
            (Some (train notebook_hyper (fst (train_part A y perm))
                     (snd (train_part A y perm)))) m,
          res ++ [a]),
     mkWorld g (fits w ++ [train_part A y perm])).
Proof.
  intros Hu Hm Hlen Hn Hreg Hperm Hauc.
  pose proof (permutation_spec (length A) (rng w)) as Hp.
  rewrite Hperm in Hp. cbn [fst] in Hp.
  destruct (@split_partition (length A) perm Hp) as (L1 & L2 & _ & F1 & F2).
  pose proof (n_test_bounds (length A)) as Hb.
  assert (HlenF : length (frame_of A) = length A) by apply length_map.
  assert (Ntrain : take A (ind_train (length A) perm) <> []).
  { intros E. apply (f_equal (@length _)) in E.
    rewrite take_length in E by assumption. cbn [length] in E. lia. }
  assert (Ntest : take A (ind_test (length A) perm) <> []).
  { intros E. apply (f_equal (@length _)) in E.
    rewrite take_length in E by assumption. cbn [length] in E. lia. }
  unfold evaluation_round, train_test_split. cbv zeta.
  rewrite HlenF, <- Hlen, Nat.eqb_refl. cbn [negb].
  destruct (Nat.eqb_spec (length A - n_test_of (length A)) 0) as [E|_].
  { exfalso. exact (n_train_positive Hn E). }
  unfold Rt.bind at 1. rewrite Hperm.
  unfold round_auc, train_part, split_by in *. rewrite HlenF.
  unfold frame_of at 1 2. rewrite !take_map.
  change (map (map Fin) (take A (ind_train (length A) perm)))
    with (frame_of (take A (ind_train (length A) perm))).
  change (map (map Fin) (take A (ind_test (length A) perm)))
    with (frame_of (take A (ind_test (length A) perm))).
  cbn [Py.ret fst snd]. unfold Py.ret.
  unfold Rt.bind at 1.
  rewrite (@fit_frame m reg _ _ (mkWorld g (fits w)) Ntrain
             (take_uniform _ Hu) Hm)
    by (rewrite !take_length by (rewrite <- ?Hlen; assumption); reflexivity).
  unfold Rt.bind at 1.
  erewrite (@predict_frame m);
    [| reflexivity | reflexivity | exact Ntest | exact (take_uniform _ Hu)
     | exact Hm].
  unfold Rt.bind, Rt.lift. rewrite Hreg.
  cbn [rng fits]. rewrite Hauc. reflexivity.
Qed.

(** The notebook's [auc_score] sees its two arguments only through their
    binarisation at the cutoff. *)
Lemma auc_score_binarized (true true' sc sc' : list Q) (cutoff : Q) :
  binarize cutoff true = binarize cutoff true' ->
  binarize cutoff sc = binarize cutoff sc' ->
  auc_score true sc cutoff = auc_score true' sc' cutoff.
Proof. intros Ht Hs. unfold auc_score. now rewrite Ht, Hs. Qed.


(** The run of [test_predictor] on a table whose encoded rows are the
    array [A], all of one length [m >= 1]: three rounds, each on its own
    permutation. *)
Lemma test_predictor_run
    (allele : string) (encoder : Encoder_fn RNG) (w0 w1 : World RNG)
    (A : Array) (m : nat)
    (p1 p2 p3 : list nat) (g1 g2 g3 : RNG) (a1 a2 a3 : pyfloat) :
  let df := get_training_set allele 9 in
  let y := map log50k df in
  let n := length df in
  encode_rows encoder df w0 = (inr A, w1) ->
  uniform m A -> (1 <= m)%nat ->
  (2 <= n)%nat ->
  permutation n (rng w1) = (p1, g1) ->
  permutation n g1 = (p2, g2) ->
  permutation n g2 = (p3, g3) ->
  round_auc train forward ep_auc_score A y p1 = inr a1 ->
  round_auc train forward ep_auc_score A y p2 = inr a2 ->
  round_auc train forward ep_auc_score A y p3 = inr a3 ->
  test_predictor permutation train forward get_training_set ep_auc_score
    allele encoder w0
  = (inr (mean [a1; a2; a3]),
     mkWorld g3
       (fits w1 ++ [train_part A y p1; train_part A y p2; train_part A y p3])).
Proof.
  intros df y n Henc Hu Hm Hn H1 H2 H3 A1 A2 A3.
  assert (HA : length A = n).
  { unfold encode_rows in Henc. rewrite (mapM_length _ _ _ Henc).
    apply length_map. }
  assert (Hy : length A = length y).
  { unfold y. rewrite length_map. exact HA. }
  unfold test_predictor. fold df. fold y.
  unfold Rt.bind at 1.
  rewrite (encode_all_rows _ _ _ Henc), (DataFrame_of_rows_uniform Hu).
  unfold Rt.bind at 1. cbn [Rt.for_range].
  unfold Rt.bind at 1.
  rewrite (@evaluation_round_eq m A y _ [] w1 p1 g1 a1); try assumption;
    try reflexivity; try (rewrite HA; assumption).
  unfold Rt.bind at 1.
  rewrite (@evaluation_round_eq m A y _ _ _ p2 g2 a2); try assumption;
    try reflexivity; try (rewrite HA; assumption).
  unfold Rt.bind at 1.
  rewrite (@evaluation_round_eq m A y _ _ _ p3 g3 a3); try assumption;
    try reflexivity; try (rewrite HA; assumption).
  cbn [Rt.ret snd fits app]. unfold Rt.ret.
  rewrite <- !app_assoc. reflexivity.
Qed.


End LearnFacts.

(** ** NaN in the trapezoidal area *)

Section AreaFacts.

Import Np Metrics.

Lemma diff_length (l : list pyfloat) : length (diff l) = (length l - 1)%nat.
Proof.
  induction l as [|a t IH]; [reflexivity|].
  destruct t as [|b u]; [reflexivity|].
  change (diff (a :: b :: u)) with (fsub b a :: diff (b :: u)).
  cbn [length] in *. rewrite IH. lia.
Qed.

Lemma diff_all_NaN (l : list pyfloat) :
  Forall (eq NaN) l -> Forall (eq NaN) (diff l).
Proof.
  induction l as [|a t IH]; intros H; [constructor|].
  destruct t as [|b u]; [constructor|].
  change (diff (a :: b :: u)) with (fsub b a :: diff (b :: u)).
  inversion H as [|? ? Ha Ht]; subst. inversion Ht as [|? ? Hb Hu]; subst.
  constructor; [reflexivity | now apply IH].
Qed.

Lemma fold_fadd_NaN (l : list pyfloat) : fold_left fadd l NaN = NaN.
Proof. induction l as [|a t IH]; [reflexivity | exact IH]. Qed.

Lemma fsum_all_NaN (l : list pyfloat) :
  l <> [] -> Forall (eq NaN) l -> fsum l = NaN.
Proof.
  intros Hne H. destruct l as [|a t]; [congruence|].
  inversion H as [|? ? Ha Ht]; subst. unfold fsum. cbn [fold_left fadd].
  apply fold_fadd_NaN.
Qed.

Lemma pair_sums_length (y : list pyfloat) :
  length (map (fun p => fadd (snd p) (fst p)) (combine y (tl y))) = (length y - 1)%nat.
Proof.
  rewrite length_map, length_combine.
  destruct y as [|a t]; [reflexivity|]. cbn [tl length]. lia.
Qed.

Lemma pair_sums_all_NaN (y : list pyfloat) :
  Forall (eq NaN) y ->
  Forall (eq NaN) (map (fun p => fadd (snd p) (fst p)) (combine y (tl y))).
Proof.
  intros H. rewrite Forall_forall in *. intros x Hx.
  apply in_map_iff in Hx. destruct Hx as [[a b] [<- Hab]].
  apply in_combine_l in Hab. rewrite <- (H a Hab). cbn [fst snd].
  destruct b; reflexivity.
Qed.

(** The area is NaN as soon as one of the two coordinate arrays is all NaN. *)
Lemma trapz_NaN (x y : list pyfloat) :
  length x = length y -> (2 <= length x)%nat ->
  Forall (eq NaN) x \/ Forall (eq NaN) y ->
  trapz y x = NaN.
Proof.
  intros Hlen H2 Hnan. unfold trapz. apply fsum_all_NaN.
  - intros E. apply (f_equal (@length _)) in E.
    rewrite length_map, length_combine, diff_length, pair_sums_length in E.
    cbn [length] in E. lia.
  - rewrite Forall_forall. intros v Hv.
    apply in_map_iff in Hv. destruct Hv as [[d s] [<- Hds]].
    cbn [fst snd]. destruct Hnan as [Hx|Hy].
    + apply in_combine_l in Hds.
      pose proof (diff_all_NaN Hx) as Hd. rewrite Forall_forall in Hd.
      rewrite <- (Hd d Hds). reflexivity.
    + apply in_combine_r in Hds.
      pose proof (pair_sums_all_NaN Hy) as Hs. rewrite Forall_forall in Hs.
      rewrite <- (Hs s Hds). destruct d; reflexivity.
Qed.

Lemma no_step_down_NaN (x : list pyfloat) : Forall (eq NaN) x -> no_step_down x.
Proof.
  intros H. unfold no_step_down.
  pose proof (diff_all_NaN H) as Hd.
  induction Hd as [|d t <- Ht IH]; [reflexivity | exact IH].
Qed.

Lemma auc_no_step_down (x y : list pyfloat) :
  length x = length y -> (2 <= length x)%nat -> no_step_down x ->
  auc x y = inr (fmul (Fin 1) (trapz y x)).
Proof.
  intros Hlen H2 Hx. unfold auc.
  rewrite Hlen, Nat.eqb_refl. cbn [negb].
  destruct (Nat.ltb_spec (length y) 2) as [L|_]; [lia|].
  unfold no_step_down in Hx. rewrite Hx. reflexivity.
Qed.

Lemma rate_length (counts : list Z) : length (rate counts) = length counts.
Proof.
  unfold rate. destruct (last counts 0 <=? 0)%Z.
  - apply repeat_length.
  - apply length_map.
Qed.

Lemma rate_NaN (counts : list Z) :
  (last counts 0 <= 0)%Z -> Forall (eq NaN) (rate counts).
Proof.
  intros H. unfold rate. apply Z.leb_le in H. rewrite H.
  rewrite Forall_forall. intros v Hv. apply repeat_spec in Hv. now subst.
Qed.

Lemma last_all (v : Z) (l : list Z) : Forall (eq v) l -> last l v = v.
Proof.
  induction 1 as [|a t <- Ht IH]; [reflexivity|].
  destruct t as [|b u]; [reflexivity|]. exact IH.
Qed.

Lemma scaled_no_step_down (total : Z) (counts : list Z) :
  (0 < total)%Z -> StronglySorted Z.le counts ->
  no_step_down (map (fun c => Fin (inject_Z c / inject_Z total)) counts).
Proof.
  intros Hpos Hs. unfold no_step_down.
  induction Hs as [|a t Ht IH Ha]; [reflexivity|].
  destruct t as [|b u]; [reflexivity|].
  change (diff (map (fun c => Fin (inject_Z c / inject_Z total)) (a :: b :: u)))
    with (fsub (Fin (inject_Z b / inject_Z total)) (Fin (inject_Z a / inject_Z total))
          :: diff (map (fun c => Fin (inject_Z c / inject_Z total)) (b :: u))).
  cbn [existsb]. rewrite IH, orb_false_r.
  cbn [fsub flt]. apply negb_false_iff, Qle_bool_iff.
  inversion Ha as [|? ? Hab _]; subst.
  assert (inject_Z a / inject_Z total <= inject_Z b / inject_Z total)%Q.
  { unfold Qdiv. apply Qmult_le_compat_r.
    - now rewrite <- Zle_Qle.
    - apply Qinv_le_0_compat. change 0%Q with (inject_Z 0).
      rewrite <- Zle_Qle. lia. }
  now apply -> Qle_minus_iff.
Qed.

(** A non-decreasing array of counts gives rates that never step down. *)
Lemma rate_no_step_down (counts : list Z) :
  StronglySorted Z.le counts -> no_step_down (rate counts).
Proof.
  intros Hs. unfold rate.
  destruct (Z.leb_spec (last counts 0%Z) 0%Z) as [L|L].
  - apply no_step_down_NaN. rewrite Forall_forall.
    intros v Hv. apply repeat_spec in Hv. now subst.
  - now apply scaled_no_step_down.
Qed.

End AreaFacts.

(** ** The counts behind the ROC curve *)

Section CurveFacts.

Import Np Metrics.

Lemma select_Forall {A : Type} (P : A -> Prop) (mask : list bool) (l : list A) :
  Forall P l -> Forall P (select mask l).
Proof.
  intros H. revert mask. induction H as [|a t Ha Ht IH]; intros mask.
  - destruct mask; constructor.
  - destruct mask as [|b m]; [constructor|].
    unfold select in *. cbn [combine filter fst].
    destruct b; cbn [map snd]; [constructor; [assumption|]|]; apply IH.
Qed.

Lemma select_sorted {A : Type} (R : A -> A -> Prop) (mask : list bool) (l : list A) :
  StronglySorted R l -> StronglySorted R (select mask l).
Proof.
  intros H. revert mask. induction H as [|a t Ht IH Ha]; intros mask.
  - destruct mask; constructor.
  - destruct mask as [|b m]; [constructor|].
    pose proof (select_Forall m Ha) as Hsel. specialize (IH m).
    unfold select in *. cbn [combine filter fst].
    destruct b; cbn [map snd]; [constructor|]; assumption.
Qed.

Lemma drop_intermediate_Forall (P : Z * Z -> Prop) (pts : list (Z * Z)) :
  Forall P pts -> Forall P (drop_intermediate pts).
Proof.
  intros H. unfold drop_intermediate.
  destruct (2 <? length pts)%nat; [now apply select_Forall | assumption].
Qed.

Lemma drop_intermediate_sorted (R : Z * Z -> Z * Z -> Prop) (pts : list (Z * Z)) :
  StronglySorted R pts -> StronglySorted R (drop_intermediate pts).
Proof.
  intros H. unfold drop_intermediate.
  destruct (2 <? length pts)%nat; [now apply select_sorted | assumption].
Qed.

Lemma drop_intermediate_nonempty (pts : list (Z * Z)) :
  pts <> [] -> drop_intermediate pts <> [].
Proof.
  intros H. unfold drop_intermediate.
  destruct (2 <? length pts)%nat; [|assumption].
  destruct pts as [|a t]; [congruence|]. discriminate.
Qed.

Lemma distinct_value_indices_spec (score : list Q) (i0 : nat) :
  Forall (fun i => (i0 <= i /\ S i < i0 + length score)%nat)
    (distinct_value_indices i0 score)
  /\ StronglySorted lt (distinct_value_indices i0 score).
Proof.
  revert i0. induction score as [|a t IH]; intros i0; [split; constructor|].
  destruct t as [|b u]; [split; constructor|].
  destruct (IH (S i0)) as [HF HS].
  assert (HF' : Forall (fun i => (i0 <= i /\ S i < i0 + length (a :: b :: u))%nat)
                  (distinct_value_indices (S i0) (b :: u))).
  { eapply Forall_impl; [|exact HF]. cbn [length]. intros i Hi. cbn beta in Hi. lia. }
  change (distinct_value_indices i0 (a :: b :: u))
    with (if Qeq_bool a b then distinct_value_indices (S i0) (b :: u)
          else i0 :: distinct_value_indices (S i0) (b :: u)).
  destruct (Qeq_bool a b); [now split|].
  split.
  - constructor; [cbn [length]; lia | assumption].
  - constructor; [assumption|].
    eapply Forall_impl; [|exact HF]. intros i Hi. cbn beta in Hi. lia.
Qed.

Lemma sorted_snoc (l : list nat) (a : nat) :
  StronglySorted lt l -> Forall (fun i => (i < a)%nat) l ->
  StronglySorted lt (l ++ [a]).
Proof.
  induction 1 as [|x t Ht IH Hx]; intros Hall; cbn [app].
  - repeat constructor.
  - inversion Hall as [|? ? Hxa Hta]; subst.
    constructor; [now apply IH|].
    apply Forall_app. split; [assumption | now repeat constructor].
Qed.

(** The threshold positions are increasing and inside the arrays. *)
Lemma threshold_idxs_spec (score : list Q) :
  score <> [] ->
  StronglySorted lt (distinct_value_indices 0 score ++ [(length score - 1)%nat])
  /\ Forall (fun i => (i < length score)%nat)
       (distinct_value_indices 0 score ++ [(length score - 1)%nat]).
Proof.
  intros Hne.
  assert (Hlen : (0 < length score)%nat).
  { destruct score; [congruence | cbn; lia]. }
  destruct (distinct_value_indices_spec score 0) as [HF HS].
  split.
  - apply sorted_snoc; [assumption|].
    eapply Forall_impl; [|exact HF]. intros i Hi. cbn beta in Hi. lia.
  - apply Forall_app. split.
    + eapply Forall_impl; [|exact HF]. intros i Hi. cbn beta in Hi. lia.
    + repeat constructor. lia.
Qed.

Lemma cumsum_from_head (a : Z) (l : list Z) :
  nth 0 (cumsum_from a l) 0%Z = match l with [] => 0%Z | x :: _ => (a + x)%Z end.
Proof. destruct l; reflexivity. Qed.

Lemma cumsum_from_step (a : Z) (l : list Z) (i : nat) :
  (S i < length l)%nat ->
  nth (S i) (cumsum_from a l) 0%Z
  = (nth i (cumsum_from a l) 0 + nth (S i) l 0)%Z.
Proof.
  revert a i. induction l as [|x t IH]; intros a i Hi; [cbn in Hi; lia|].
  cbn [length] in Hi. cbn [cumsum_from].
  destruct i as [|i].
  - destruct t as [|b u]; [cbn in Hi; lia|]. reflexivity.
  - change (nth (S (S i)) ((a + x)%Z :: cumsum_from (a + x) t) 0%Z)
      with (nth (S i) (cumsum_from (a + x) t) 0%Z).
    change (nth (S i) ((a + x)%Z :: cumsum_from (a + x) t) 0%Z)
      with (nth i (cumsum_from (a + x) t) 0%Z).
    change (nth (S (S i)) (x :: t) 0%Z) with (nth (S i) t 0%Z).
    apply IH. lia.
Qed.

Section Counts.

Variable ys : list Z.
Hypothesis ys_binary : Forall (fun v => v = 0%Z \/ v = 1%Z) ys.

Lemma ys_nth (i : nat) : (i < length ys)%nat -> (0 <= nth i ys 0 <= 1)%Z.
Proof.
  intros Hi. rewrite Forall_forall in ys_binary.
  destruct (ys_binary (nth i ys 0%Z) (nth_In ys 0%Z Hi)) as [-> | ->]; lia.
Qed.

Lemma fp_at_0 : (0 < length ys)%nat -> (0 <= fp_at ys 0)%Z.
Proof.
  intros H. unfold fp_at, tp_at, cumsum. rewrite cumsum_from_head.
  pose proof (ys_nth H) as B. destruct ys; [cbn in H; lia|]. cbn [nth] in B. lia.
Qed.

Lemma fp_at_step (j : nat) :
  (S j < length ys)%nat -> (fp_at ys j <= fp_at ys (S j))%Z.
Proof.
  intros Hj. unfold fp_at, tp_at, cumsum. rewrite (cumsum_from_step 0 ys Hj).
  pose proof (ys_nth Hj). lia.
Qed.

Lemma fp_at_mono (i j : nat) :
  (i <= j)%nat -> (j < length ys)%nat -> (fp_at ys i <= fp_at ys j)%Z.
Proof.
  intros Hij Hj. induction j as [|j IH].
  - assert (i = 0)%nat as -> by lia. lia.
  - destruct (Nat.eq_dec i (S j)) as [->|Hne]; [lia|].
    pose proof (fp_at_step Hj). assert (fp_at ys i <= fp_at ys j)%Z by (apply IH; lia).
    lia.
Qed.

Lemma fp_at_nonneg (j : nat) : (j < length ys)%nat -> (0 <= fp_at ys j)%Z.
Proof.
  intros Hj. assert (H0 : (0 < length ys)%nat) by lia.
  pose proof (fp_at_0 H0). pose proof (@fp_at_mono 0 j ltac:(lia) Hj). lia.
Qed.

End Counts.

End CurveFacts.

(** ** [roc_curve] and [auc] on well-formed input *)

Section RocFacts.

Import Np Metrics Evaluator.

Lemma combine_with_map {A B : Type} (f : A -> B) (l : list A) :
  combine l (map f l) = map (fun a => (a, f a)) l.
Proof.
  induction l as [|a t IH]; [reflexivity|]. cbn [map combine]. now rewrite IH.
Qed.

Lemma combine_maps {A B C : Type} (f : A -> B) (g : A -> C) (l : list A) :
  combine (map f l) (map g l) = map (fun a => (f a, g a)) l.
Proof.
  induction l as [|a t IH]; [reflexivity|]. cbn [map combine]. now rewrite IH.
Qed.

Lemma cumsum_from_const (v a : Z) (l : list Z) (i : nat) :
  Forall (eq v) l -> (i < length l)%nat ->
  nth i (cumsum_from a l) 0%Z = (a + (Z.of_nat i + 1) * v)%Z.
Proof.
  intros Hl. induction i as [|i IH]; intros Hi.
  - rewrite cumsum_from_head. destruct l as [|x t]; [cbn in Hi; lia|].
    inversion Hl; subst. lia.
  - rewrite cumsum_from_step by assumption. rewrite IH by lia.
    rewrite Forall_forall in Hl.
    rewrite <- (Hl (nth (S i) l 0%Z) (nth_In l 0%Z Hi)). lia.
Qed.

Section Rows.

Variable y_true : list Z.
Variable y_score : list Q.
Hypothesis same_length : length y_true = length y_score.
Hypothesis nonempty : y_true <> [].

Local Abbreviation ys := (map snd (desc_rows y_true y_score 1)).
Local Abbreviation ss := (map fst (desc_rows y_true y_score 1)).
Local Abbreviation idxs := (distinct_value_indices 0 ss ++ [(length ys - 1)%nat]).
Local Abbreviation pts := (map (fun i => (fp_at ys i, tp_at ys i)) idxs).

Lemma desc_rows_length : length (desc_rows y_true y_score 1) = length y_true.
Proof.
  unfold desc_rows. rewrite length_rev, sort_by_length, length_combine, length_map.
  rewrite same_length. apply Nat.min_id.
Qed.

Lemma ys_length : length ys = length y_true.
Proof. rewrite length_map. apply desc_rows_length. Qed.

Lemma ss_length : length ss = length ys.
Proof. now rewrite !length_map. Qed.

Lemma ys_from_labels (P : Z -> Prop) :
  Forall P (map (fun t => if (t =? 1)%Z then 1%Z else 0%Z) y_true) -> Forall P ys.
Proof.
  intros H. unfold desc_rows. rewrite Forall_forall in *.
  intros v Hv. apply in_map_iff in Hv. destruct Hv as [[q z] [<- Hqz]].
  apply in_rev in Hqz. apply sort_by_In in Hqz. apply in_combine_r in Hqz.
  now apply H.
Qed.

Lemma ys_binary : Forall (fun v => v = 0%Z \/ v = 1%Z) ys.
Proof.
  apply ys_from_labels. rewrite Forall_forall. intros v Hv.
  apply in_map_iff in Hv. destruct Hv as [t [<- _]].
  destruct (t =? 1)%Z; tauto.
Qed.

Lemma idxs_spec :
  StronglySorted lt idxs /\ Forall (fun i => (i < length ys)%nat) idxs.
Proof.
  rewrite <- ss_length. apply threshold_idxs_spec.
  intros E. apply (f_equal (@length _)) in E.
  rewrite ss_length, ys_length in E. destruct y_true; [congruence | discriminate].
Qed.

Lemma binary_clf_curve_eq :
  binary_clf_curve y_true y_score 1 = (map (fp_at ys) idxs, map (tp_at ys) idxs).
Proof.
  unfold binary_clf_curve.
  f_equal. rewrite combine_with_map, map_map. reflexivity.
Qed.

Lemma pts_nonempty : pts <> [].
Proof.
  intros E. apply (f_equal (@length _)) in E.
  rewrite length_map, length_app in E. cbn in E. lia.
Qed.

Lemma pts_nonneg : Forall (fun p => (0 <= fst p)%Z) pts.
Proof.
  destruct idxs_spec as [_ HF].
  rewrite Forall_forall in *. intros p Hp.
  apply in_map_iff in Hp. destruct Hp as [i [<- Hi]]. cbn [fst].
  apply (fp_at_nonneg ys_binary). now apply HF.
Qed.

Lemma pts_sorted : StronglySorted (fun p q => (fst p <= fst q)%Z) pts.
Proof.
  destruct idxs_spec as [HS HF].
  induction HS as [|i t Ht IH Hi]; [constructor|].
  inversion HF as [|? ? Hin Htn]; subst.
  cbn [map]. constructor; [now apply IH|].
  rewrite Forall_forall in *. intros p Hp.
  apply in_map_iff in Hp. destruct Hp as [j [<- Hj]]. cbn [fst].
  apply (fp_at_mono ys_binary); [specialize (Hi j Hj); lia | now apply Htn].
Qed.

Lemma sorted_fst (l : list (Z * Z)) :
  StronglySorted (fun p q => (fst p <= fst q)%Z) l -> StronglySorted Z.le (map fst l).
Proof.
  induction 1 as [|a t Ht IH Ha]; [constructor|].
  cbn [map]. constructor; [assumption|].
  rewrite Forall_forall in *. intros z Hz.
  apply in_map_iff in Hz. destruct Hz as [p [<- Hp]]. now apply Ha.
Qed.

(** On arrays of one length that are not empty, [roc_curve] returns two
    arrays of at least two rates, the false positive rates never step
    down, and a missing class makes the corresponding rate all NaN. *)
Lemma roc_curve_defined :
  exists fpr tpr,
    roc_curve y_true y_score 1 = inr (fpr, tpr)
    /\ length fpr = length tpr
    /\ (2 <= length fpr)%nat
    /\ no_step_down fpr
    /\ (Forall (eq 1%Z) y_true -> Forall (eq NaN) fpr)
    /\ (Forall (fun t => t <> 1%Z) y_true -> Forall (eq NaN) tpr).
Proof.
  exists (rate (0%Z :: map fst (drop_intermediate pts))),
         (rate (0%Z :: map snd (drop_intermediate pts))).
  assert (Hne : drop_intermediate pts <> []) by (apply drop_intermediate_nonempty, pts_nonempty).
  split; [|split; [|split; [|split; [|split]]]].
  - unfold roc_curve. rewrite same_length, Nat.eqb_refl. cbn [negb].
    destruct (Nat.eqb_spec (length y_score) 0) as [E|_].
    { rewrite <- same_length in E. destruct y_true; [congruence | discriminate]. }
    rewrite binary_clf_curve_eq, combine_maps. reflexivity.
  - rewrite !rate_length. cbn [length]. now rewrite !length_map.
  - rewrite rate_length. cbn [length]. rewrite length_map.
    destruct (drop_intermediate pts); [congruence | cbn; lia].
  - apply rate_no_step_down. constructor.
    + apply sorted_fst, drop_intermediate_sorted, pts_sorted.
    + pose proof (drop_intermediate_Forall pts_nonneg) as H.
      rewrite Forall_forall in *. intros z Hz.
      apply in_map_iff in Hz. destruct Hz as [p [<- Hp]]. now apply H.
  - intros Hall. apply rate_NaN.
    assert (Hys : Forall (eq 1%Z) ys).
    { apply ys_from_labels. rewrite Forall_forall in *. intros v Hv.
      apply in_map_iff in Hv. destruct Hv as [t [<- Ht]].
      now rewrite <- (Hall t Ht). }
    assert (Hz : Forall (eq 0%Z) (0%Z :: map fst (drop_intermediate pts))).
    { constructor; [reflexivity|].
      assert (Hp : Forall (fun p => 0%Z = fst p) pts).
      { destruct idxs_spec as [_ HF]. rewrite Forall_forall in HF.
        apply Forall_forall.
        intros p Hp. apply in_map_iff in Hp. destruct Hp as [i [<- Hi]].
        cbn [fst]. unfold fp_at, tp_at, cumsum.
        rewrite (cumsum_from_const 0 Hys (HF i Hi)). lia. }
      apply drop_intermediate_Forall in Hp. rewrite Forall_forall in Hp.
      apply Forall_forall. intros z Hz.
      apply in_map_iff in Hz. destruct Hz as [p [<- Hp']]. now apply Hp. }
    rewrite (last_all Hz). lia.
  - intros Hall. apply rate_NaN.
    assert (Hys : Forall (eq 0%Z) ys).
    { apply ys_from_labels. rewrite Forall_forall in *. intros v Hv.
      apply in_map_iff in Hv. destruct Hv as [t [<- Ht]].
      destruct (Z.eqb_spec t 1) as [E|_]; [|reflexivity].
      exfalso. exact (Hall t Ht E). }
    assert (Hz : Forall (eq 0%Z) (0%Z :: map snd (drop_intermediate pts))).
    { constructor; [reflexivity|].
      assert (Hp : Forall (fun p => 0%Z = snd p) pts).
      { destruct idxs_spec as [_ HF]. rewrite Forall_forall in HF.
        apply Forall_forall.
        intros p Hp. apply in_map_iff in Hp. destruct Hp as [i [<- Hi]].
        cbn [snd]. unfold tp_at, cumsum.
        rewrite (cumsum_from_const 0 Hys (HF i Hi)). lia. }
      apply drop_intermediate_Forall in Hp. rewrite Forall_forall in Hp.
      apply Forall_forall. intros z Hz.
      apply in_map_iff in Hz. destruct Hz as [p [<- Hp']]. now apply Hp. }
    rewrite (last_all Hz). lia.
Qed.

End Rows.

(** On arrays of one length that are not empty the notebook's [auc_score]
    raises nothing: it returns the area under the curve of the binarised
    values. *)
Lemma auc_score_defined (true sc : list Q) (cutoff : Q) :
  true <> [] -> length true = length sc ->
  exists fpr tpr,
    roc_curve (binarize cutoff true) (map inject_Z (binarize cutoff sc)) 1
    = inr (fpr, tpr)
    /\ auc_score true sc cutoff = inr (fmul (Fin 1) (trapz tpr fpr))
    /\ length fpr = length tpr
    /\ (2 <= length fpr)%nat
    /\ (Forall (eq 1%Z) (binarize cutoff true) -> Forall (eq NaN) fpr)
    /\ (Forall (fun t => t <> 1%Z) (binarize cutoff true) -> Forall (eq NaN) tpr).
Proof.
  intros Hne Hlen.
  assert (Hl : length (binarize cutoff true) = length (map inject_Z (binarize cutoff sc))).
  { unfold binarize. now rewrite !length_map. }
  assert (Hn : binarize cutoff true <> []).
  { destruct true; [congruence | discriminate]. }
  destruct (@roc_curve_defined _ _ Hl Hn) as (fpr & tpr & Hroc & L1 & L2 & Hstep & N1 & N2).
  exists fpr, tpr. split; [assumption|]. split; [|now repeat split].
  unfold auc_score. rewrite Hroc. cbn [Py.bind].
  rewrite (@auc_no_step_down fpr tpr L1 L2 Hstep). reflexivity.
Qed.

(** C7 (as amended): when the two vectors have one length and are not
    empty, and all true values fall on one side of the cutoff,
    [auc_score] raises nothing and returns NaN. *)
Theorem auc_score_constant_labels (true sc : list Q) (cutoff : Q) :
  true <> [] ->
  length true = length sc ->
  Forall (fun t => t <= cutoff)%Q true \/ Forall (fun t => ~ (t <= cutoff)%Q) true ->
  auc_score true sc cutoff = inr NaN.
Proof.
  intros Hne Hlen Hconst.
  destruct (@auc_score_defined true sc cutoff Hne Hlen)
    as (fpr & tpr & _ & Hauc & L1 & L2 & N1 & N2).
  rewrite Hauc. f_equal.
  rewrite (@trapz_NaN fpr tpr L1 L2); [reflexivity|].
  destruct Hconst as [Hall|Hall]; [left; apply N1 | right; apply N2];
    unfold binarize; rewrite Forall_forall in *; intros v Hv;
    apply in_map_iff in Hv; destruct Hv as [t [<- Ht]]; specialize (Hall t Ht).
  - apply Qle_bool_iff in Hall. now rewrite Hall.
  - destruct (Qle_bool t cutoff) eqn:E; [|discriminate].
    apply Qle_bool_iff in E. contradiction.
Qed.

Lemma auc_score_constant_labels_witness :
  auc_score [1 # 10; 2 # 10; 3 # 10] [5 # 10; 1 # 10; 7 # 10] default_cutoff = inr NaN
  /\ auc_score [5 # 10; 6 # 10] [5 # 10; 1 # 10] default_cutoff = inr NaN.
Proof.
  split.
  - apply auc_score_constant_labels; [discriminate | reflexivity |].
    left. repeat constructor; vm_compute; discriminate.
  - apply auc_score_constant_labels; [discriminate | reflexivity |].
    right. repeat constructor; vm_compute; intros H; apply H; reflexivity.
Defined.

(** C7 as stated fails on the empty pair of vectors, where no true label
    belongs to the other class: [auc_score] raises. *)
Lemma auc_score_empty_raises :
  Forall (fun t => t <= default_cutoff)%Q []
  /\ auc_score [] [] default_cutoff = inl Py.IndexError
  /\ ~ exists r, auc_score [] [] default_cutoff = inr r.
Proof.
  split; [constructor|]. split; [reflexivity|].
  intros [r Hr]. discriminate Hr.
Qed.

End RocFacts.

(** ** The toy instance at work *)

Lemma toy_permutation_spec (n : nat) (g : Toy.RNG) :
  Permutation (fst (Toy.permutation n g)) (seq 0 n).
Proof.
  unfold Toy.permutation. cbn [fst].
  rewrite Permutation_app_comm, firstn_skipn. reflexivity.
Qed.

Lemma uniform_check (m : nat) (A : Learn.Array) :
  forallb (fun r => (length r =? m)%nat) A = true -> Learn.uniform m A.
Proof.
  intros H. apply Forall_forall. intros r Hr.
  rewrite forallb_forall in H. now apply Nat.eqb_eq, H.
Qed.

Lemma build_predictor_threshold_witness :
  Learn.build_predictor Toy.train Toy.get_training_set Toy.one_hot
    "HLA-A*03:01" None 9 Toy.world1 = (inr None, Toy.world1)
  /\ exists reg w,
       Learn.build_predictor Toy.train Toy.get_training_set Toy.one_hot
         "HLA-A*02:01" (Some Toy.one_hot) 9 Toy.world1 = (inr (Some reg), w)
       /\ Learn.n_features_in_ reg = 180%nat
       /\ length (Learn.fits w) = 1%nat.
Proof.
  split.
  - apply (build_predictor_threshold Toy.train Toy.get_training_set Toy.one_hot
             "HLA-A*03:01" None 9 Toy.world1).
    vm_compute. lia.
  - pose (A := match fst (Learn.encode_rows Toy.one_hot
                            (Toy.get_training_set "HLA-A*02:01" 9)
                            Toy.world1) with
               | inr A => A
               | inl _ => []
               end).
    do 2 eexists. split; [|split].
    + apply (build_predictor_threshold Toy.train Toy.get_training_set Toy.one_hot
               "HLA-A*02:01" (Some Toy.one_hot) 9 Toy.world1)
        with (A := A) (w1 := Toy.world1) (m := 180%nat).
      * vm_compute. lia.
      * vm_compute. reflexivity.
      * apply uniform_check. vm_compute. reflexivity.
      * lia.
    + reflexivity.
    + reflexivity.
Defined.

(** C4 as stated fails: a table of 100 records does not always give a
    model.  With the default encoder and a peptide that holds the unknown
    residue [X], for which the NLF table has no column, the encoder raises
    [KeyError] before any fit: nothing is fitted and nothing returned. *)
Lemma build_predictor_100_records_no_model :
  let table := repeat (Learn.mkRecord "HLA-A*02:01" "ALDFEQEMX" (500 # 1) 9
                         (426 # 1000)) 100 in
  let nlf_encode := Learn.float_encoder
                      (Encoder.nlf_encode (TableFacts.constant_table 19 (1 # 2))) in
  length table = 100%nat
  /\ Learn.build_predictor Toy.train (fun _ _ => table) nlf_encode
       "HLA-A*02:01" None 9 Toy.world1
     = (inl Py.KeyError, Toy.world1).
Proof. split; vm_compute; reflexivity. Qed.




(** Encodings of different lengths are refused by the regressor: with
    the one-hot encoder, a peptide that holds the unknown residue [X] gets
    189 entries where the others get 180, the frame pads the short rows
    with NaN, and the first [fit] (or, when the padded rows are all held
    out, the first [predict]) raises [ValueError]. *)
Lemma ragged_encodings_refused :
  let ragged := fun (_ : string) (_ : nat) =>
                  [Learn.mkRecord "HLA-A*03:01" "ALDFEQEMX" (9 # 1) 9 (8 # 10);
                   Learn.mkRecord "HLA-A*03:01" "ALDFEQEMT" (5743 # 1) 9 (2 # 10);
                   Learn.mkRecord "HLA-A*03:01" "CLDFEQEMT" (3 # 1) 9 (9 # 10)] in
  fst (Learn.test_predictor Toy.permutation Toy.train Toy.forward ragged
         Evaluator.auc_score "HLA-A*03:01" Toy.one_hot Toy.world1)
  = inl Py.ValueError
  /\ fst (Learn.build_predictor Toy.train
            (fun _ _ => Learn.mkRecord "HLA-A*02:01" "ALDFEQEMX" (9 # 1) 9 (8 # 10)
                        :: Toy.get_training_set "HLA-A*02:01" 9)
            Toy.one_hot "HLA-A*02:01" (Some Toy.one_hot) 9 Toy.world1)
     = inl Py.ValueError.
Proof. split; vm_compute; reflexivity. Qed.

(** A run of the random baseline on a peptide of length 4. *)
Lemma random_encode_toy_run :
  fst (Encoder.random_encode Toy.randint "AAAA" 17%nat)
  = [17; 18; 19; 0; 1; 2; 3; 4; 5]%Z.
Proof. reflexivity. Qed.

(** ** More on the one-hot encoder *)

Section OneHotMore.

Import Pd Encoder EncoderSpec OneHotOrder.

Lemma sort_chars_perm_eq (l l' : list ascii) :
  NoDup l -> Permutation l l' -> sort_by char_leb l = sort_by char_leb l'.
Proof.
  intros Hnd Hp.
  apply strict_sorted_unique.
  - apply sorted_nodup_strict; [apply sort_chars_sorted|].
    apply (Permutation_NoDup (Permutation_sym (sort_by_perm char_leb l))), Hnd.
  - apply sorted_nodup_strict; [apply sort_chars_sorted|].
    apply (Permutation_NoDup (Permutation_sym (sort_by_perm char_leb l'))).
    apply (Permutation_NoDup Hp), Hnd.
  - intros x. rewrite !sort_by_In. split; apply Permutation_in;
      [assumption | now apply Permutation_sym].
Qed.

(** The body of the encoder for any list [o] of labels none of which
    occurs in the sequence. *)
Lemma one_hot_encode_in_order_eq (o : list ascii) (seq : string) :
  seq <> EmptyString ->
  (forall t, In t o -> ~ In t (list_ascii_of_string seq)) ->
  one_hot_encode_in_order o seq
  = inr (flat_map
           (fun c => map (indicator c)
                       (sort_by char_leb (sort_by char_leb (unique (non_commas seq)) ++ o)))
           (list_ascii_of_string seq)).
Proof.
  intros Hne Ho. unfold one_hot_encode_in_order, non_commas.
  set (l := list_ascii_of_string seq) in *.
  assert (Hl : l <> []).
  { subst l. destruct seq; [congruence | simpl; congruence]. }
  rewrite (getitem_of_list Hl). cbn [Py.bind].
  set (tags := sort_by char_leb (unique (filter (fun c => negb (Ascii.eqb c comma)) l))).
  assert (Htags : forall t, In t tags -> In t l).
  { intros t Ht. subst tags. rewrite sort_by_In, unique_In in Ht.
    now apply filter_In in Ht. }
  unfold join, str_get_dummies, zeros. cbn [columns values].
  fold tags.
  assert (existsb (fun c => mem c o) tags = false) as ->.
  { destruct (existsb (fun c => mem c o) tags) eqn:E; [|reflexivity].
    apply existsb_exists in E. destruct E as [t [Ht Hm]].
    apply mem_In in Hm. exfalso. exact (Ho t Hm (Htags t Ht)). }
  cbn [Py.bind Py.ret]. unfold Py.ret. f_equal.
  unfold flatten, sort_index_axis1. cbn [columns values].
  rewrite <- (length_list_of_string seq). fold l.
  rewrite combine_map_repeat, !map_map. cbn [fst snd].
  rewrite flat_map_concat_map. f_equal.
  apply map_ext_in. intros c Hc.
  assert (Hz : repeat 0%Z (length o) = map (indicator c) o).
  { apply zero_row. intros Hco. exact (Ho c Hco Hc). }
  rewrite Hz.
  change (fun t => if Ascii.eqb c t then 1%Z else 0%Z) with (indicator c).
  rewrite <- map_app. apply sorted_row.
Qed.

Lemma missing_codes_eq (seq : string) :
  missing_codes seq
  = filter (fun c => negb (mem c (list_ascii_of_string seq))) codes.
Proof. reflexivity. Qed.

Lemma missing_codes_absent (seq : string) (t : ascii) :
  In t (missing_codes seq) -> ~ In t (list_ascii_of_string seq).
Proof.
  rewrite missing_codes_eq. intros Ht. apply filter_In in Ht.
  destruct Ht as [_ Ht]. apply mem_false.
  now destruct (mem t (list_ascii_of_string seq)).
Qed.

Lemma one_hot_columns_any_order (o : list ascii) (seq : string) :
  Permutation o (missing_codes seq) ->
  sort_by char_leb (sort_by char_leb (unique (non_commas seq)) ++ o)
  = one_hot_columns seq.
Proof.
  rewrite missing_codes_eq. intros Hp.
  pose proof (one_hot_columns_NoDup seq) as Hnd.
  unfold one_hot_columns in *. unfold non_commas.
  apply (Permutation_NoDup (sort_by_perm char_leb _)) in Hnd.
  apply (Permutation_NoDup (Permutation_app_head _ (Permutation_sym Hp))) in Hnd.
  apply (sort_chars_perm_eq Hnd (Permutation_app_head _ Hp)).
Qed.

(** The encoding does not depend on the order in which the set
    [set(codes) - set(seq)] is iterated: every arrangement [o] of its
    elements gives the result of [one_hot_encode], error included. *)
Theorem one_hot_encode_any_set_order (o : list ascii) (seq : string) :
  Permutation o (missing_codes seq) ->
  one_hot_encode_in_order o seq = one_hot_encode seq.
Proof.
  intros Hp. destruct (string_dec seq EmptyString) as [->|Hne].
  { transitivity (@inl Py.exn (list Z) Py.KeyError); [|symmetry]; reflexivity. }
  rewrite one_hot_encode_in_order_eq.
  - rewrite (one_hot_encode_eq Hne), (one_hot_columns_any_order seq Hp). reflexivity.
  - exact Hne.
  - intros t Ht. apply missing_codes_absent. apply (Permutation_in _ Hp). exact Ht.
Qed.

Lemma one_hot_encode_any_set_order_witness :
  one_hot_encode_in_order (rev (missing_codes "ALDFEQEMT")) "ALDFEQEMT"
  = one_hot_encode "ALDFEQEMT".
Proof.
  apply one_hot_encode_any_set_order. apply Permutation_sym, Permutation_rev.
Defined.

Lemma indicator_row_ones (c : ascii) (cols : list ascii) :
  NoDup cols ->
  count_occ Z.eq_dec (map (indicator c) cols) 1%Z = if mem c cols then 1%nat else 0%nat.
Proof.
  induction 1 as [|t cols Hni Hnd IH]; [reflexivity|].
  cbn [map mem existsb].
  destruct (Ascii.eqb c t) eqn:E.
  - assert (Hi : indicator c t = 1%Z) by (unfold indicator; now rewrite E).
    rewrite (count_occ_cons_eq Z.eq_dec _ Hi), IH.
    apply Ascii.eqb_eq in E. subst t.
    apply mem_false in Hni. now rewrite Hni.
  - assert (Hi : indicator c t <> 1%Z) by (unfold indicator; rewrite E; discriminate).
    rewrite (count_occ_cons_neq Z.eq_dec _ Hi), IH. reflexivity.
Qed.

Lemma flat_map_count_sum {A : Type} (f : A -> list Z) (v : Z) (p : A -> bool) (l : list A) :
  (forall a, In a l -> count_occ Z.eq_dec (f a) v = if p a then 1%nat else 0%nat) ->
  count_occ Z.eq_dec (flat_map f l) v = length (filter p l).
Proof.
  induction l as [|a t IH]; intros H; [reflexivity|].
  cbn [flat_map filter]. rewrite count_occ_app, (H a (or_introl eq_refl)), IH.
  - destruct (p a); reflexivity.
  - intros; apply H; now right.
Qed.

(** On every non-empty string the encoder returns a vector of zeros and
    ones, one block of [length (one_hot_columns seq)] entries per
    position, that holds as many ones as the string has characters other
    than the comma: a comma is encoded as a block of zeros. *)
Theorem one_hot_encode_ones (seq : string) :
  seq <> EmptyString ->
  exists e,
    one_hot_encode seq = inr e
    /\ length e = (String.length seq * length (one_hot_columns seq))%nat
    /\ Forall (fun v => v = 0%Z \/ v = 1%Z) e
    /\ count_occ Z.eq_dec e 1%Z = length (non_commas seq).
Proof.
  intros Hne.
  exists (flat_map (fun c => map (indicator c) (one_hot_columns seq))
            (list_ascii_of_string seq)).
  split; [now apply one_hot_encode_eq|]. split; [|split].
  - rewrite <- (length_list_of_string seq). apply flat_map_block_length.
    intros a _. now rewrite length_map.
  - rewrite Forall_forall. intros v Hv. apply in_flat_map in Hv.
    destruct Hv as [c [_ Hv]]. apply in_map_iff in Hv. destruct Hv as [t [<- _]].
    unfold indicator. destruct (Ascii.eqb c t); tauto.
  - unfold non_commas. apply flat_map_count_sum. intros c Hc.
    rewrite (indicator_row_ones c (one_hot_columns_NoDup seq)).
    destruct (Ascii.eqb c comma) eqn:E; cbn [negb].
    + apply Ascii.eqb_eq in E. subst c.
      assert (mem comma (one_hot_columns seq) = false) as ->; [|reflexivity].
      apply mem_false. rewrite one_hot_columns_In.
      intros [[_ N]|N]; [congruence | now apply comma_not_code].
    + assert (mem c (one_hot_columns seq) = true) as ->; [|reflexivity].
      apply mem_In, one_hot_columns_In. left. split; [assumption|].
      intros ->. now rewrite Ascii.eqb_refl in E.
Qed.

Lemma one_hot_encode_ones_witness :
  exists e,
    one_hot_encode "A,X" = inr e
    /\ length e = (String.length "A,X" * length (one_hot_columns "A,X"))%nat
    /\ Forall (fun v => v = 0%Z \/ v = 1%Z) e
    /\ count_occ Z.eq_dec e 1%Z = length (non_commas "A,X").
Proof. apply one_hot_encode_ones. discriminate. Defined.

End OneHotMore.

(** ** More on the table encoders *)

Section TableMore.

Import Pd Encoder TableFacts.

Lemma list_of_string_app (s1 s2 : string) :
  list_ascii_of_string (s1 ++ s2) = list_ascii_of_string s1 ++ list_ascii_of_string s2.
Proof.
  induction s1 as [|c s1 IH]; [reflexivity|]. cbn. now rewrite IH.
Qed.

Variable V : Type.
Variable tbl : Table V.

(** The column that [tbl[c]] returns. *)
Lemma table_getitem_cases (c : ascii) :
  (has_column tbl c = true /\ exists col, table_getitem tbl c = inr col
                                          /\ In (c, col) (table_columns tbl))
  \/ (has_column tbl c = false /\ table_getitem tbl c = inl Py.KeyError).
Proof.
  unfold table_getitem, has_column.
  destruct (find (fun cv => Ascii.eqb c (fst cv)) (table_columns tbl)) as [[c' col]|] eqn:E.
  - left. apply find_some in E. destruct E as [Hin Heq]. cbn [fst] in Heq.
    apply Ascii.eqb_eq in Heq. subst c'. split.
    + apply existsb_exists. exists (c, col). split; [assumption | apply Ascii.eqb_refl].
    + exists col. split; [reflexivity | assumption].
  - right. split; [|reflexivity].
    destruct (existsb (fun cv => Ascii.eqb c (fst cv)) (table_columns tbl)) eqn:E';
      [|reflexivity].
    apply existsb_exists in E'. destruct E' as [cv [Hin Heq]].
    pose proof (find_none _ _ E cv Hin) as N. cbn beta in N. congruence.
Qed.

(** Looking up the letters one after the other: the rows when every
    letter has a column, [KeyError] otherwise. *)
Lemma lookup_rows (l : list ascii) :
  (forallb (has_column tbl) l = true
   /\ exists rows, Py.mapM (table_getitem tbl) l = inr rows
                   /\ Forall2 (fun c col => In (c, col) (table_columns tbl)) l rows)
  \/ (forallb (has_column tbl) l = false
      /\ Py.mapM (table_getitem tbl) l = inl Py.KeyError).
Proof.
  induction l as [|c t IH].
  - left. split; [reflexivity|]. exists []. split; [reflexivity | constructor].
  - cbn [forallb Py.mapM].
    destruct (table_getitem_cases c) as [[Hc [col [Hg Hin]]]|[Hc Hg]];
      rewrite Hc, Hg; cbn [andb].
    + destruct IH as [[Ht [rows [Hm HF]]]|[Ht Hm]]; rewrite Ht, Hm.
      * left. split; [reflexivity|]. exists (col :: rows).
        split; [reflexivity | now constructor].
      * right. now split.
    + right. now split.
Qed.

Lemma lookup_rows_app (l1 l2 : list ascii) (r1 r2 : list (list V)) :
  Py.mapM (table_getitem tbl) l1 = inr r1 ->
  Py.mapM (table_getitem tbl) l2 = inr r2 ->
  Py.mapM (table_getitem tbl) (l1 ++ l2) = inr (r1 ++ r2).
Proof.
  revert r1. induction l1 as [|c t IH]; intros r1 H1 H2.
  - cbn in H1. inversion H1. exact H2.
  - cbn [Py.mapM app] in *.
    destruct (table_getitem tbl c) as [e|col]; [discriminate|].
    destruct (Py.mapM (table_getitem tbl) t) as [e|rows] eqn:E; [discriminate|].
    inversion H1; subst. rewrite (IH rows eq_refl H2). reflexivity.
Qed.

Lemma rows_height (m : nat) (l : list ascii) (rows : list (list V)) :
  column_height tbl m ->
  Forall2 (fun c col => In (c, col) (table_columns tbl)) l rows ->
  Forall (fun r => length r = m) rows /\ length rows = length l.
Proof.
  intros Hm HF. unfold column_height in Hm. rewrite Forall_forall in Hm.
  induction HF as [|c col l rows Hin HF IH]; [split; constructor|].
  destruct IH as [IH1 IH2]. split.
  - constructor; [exact (Hm _ Hin) | assumption].
  - cbn [length]. now rewrite IH2.
Qed.

Lemma concat_uniform_length {A : Type} (m : nat) (rows : list (list A)) :
  Forall (fun r => length r = m) rows ->
  length (concat rows) = (length rows * m)%nat.
Proof.
  induction 1 as [|r rows Hr HF IH]; [reflexivity|].
  cbn [concat length]. rewrite length_app, Hr, IH. reflexivity.
Qed.

Lemma flatten_series (rows : list (list V)) :
  flatten (DataFrame_of_series tbl rows) = concat rows.
Proof. destruct rows; reflexivity. Qed.

Lemma flatten_trimmed (k : nat) (rows : list (list V)) :
  flatten (iloc_drop_last k (DataFrame_of_series tbl rows))
  = concat (map (fun r => firstn (length r - k) r) rows).
Proof. destruct rows; reflexivity. Qed.

End TableMore.

Lemma forallb_false_witness {A : Type} (p : A -> bool) (l : list A) :
  forallb p l = false -> exists c, In c l /\ p c = false.
Proof.
  induction l as [|a t IH]; [discriminate|]. cbn [forallb].
  destruct (p a) eqn:E; cbn [andb].
  - intros H. destruct (IH H) as [c [Hc Hp]]. exists c. split; [now right | assumption].
  - intros _. exists a. split; [now left | assumption].
Qed.

Section TableEncoders.

Import Pd Encoder TableFacts.

(** [blosum_encode] can only fail with [KeyError], and does so exactly
    when the sequence holds a letter that is not a column of the table:
    letters outside the 20-letter alphabet pass when the table has them. *)
Theorem blosum_encode_error (blosum : Table Z) (seq : string) (e : Py.exn) :
  blosum_encode blosum seq = inl e
  <-> e = Py.KeyError
      /\ exists c, In c (list_ascii_of_string seq) /\ has_column blosum c = false.
Proof.
  unfold blosum_encode.
  destruct (lookup_rows blosum (list_ascii_of_string seq))
    as [[Hall [rows [Hm _]]]|[Hall Hm]]; rewrite Hm; cbn [Py.bind].
  - split; [discriminate|]. intros [_ [c [Hc Hn]]].
    rewrite forallb_forall in Hall. rewrite (Hall c Hc) in Hn. discriminate.
  - split.
    + intros H. inversion H; subst. split; [reflexivity|].
      destruct (forallb_false_witness _ _ Hall) as [c Hc]. exists c. exact Hc.
    + intros [-> _]. reflexivity.
Qed.

Lemma blosum_encode_error_witness :
  blosum_encode Blosum62.blosum62 "ALJ" = inl Py.KeyError
  /\ exists v, blosum_encode Blosum62.blosum62 "ALX*" = inr v.
Proof.
  split.
  - apply blosum_encode_error. split; [reflexivity|].
    exists "J"%char. split; [cbn; tauto | reflexivity].
  - destruct (blosum_encode Blosum62.blosum62 "ALX*") as [e|v] eqn:E.
    + exfalso. apply blosum_encode_error in E. destruct E as [_ [c [Hc Hn]]].
      cbn [list_ascii_of_string In] in Hc.
      repeat (destruct Hc as [<-|Hc]; [vm_compute in Hn; discriminate Hn|]).
      exact Hc.
    + now exists v.
Defined.

(** [blosum_encode] works position by position: the code of a
    concatenation is the concatenation of the codes, and the empty string
    has the empty code (where [one_hot_encode] raises). *)
Theorem blosum_encode_concat (blosum : Table Z) (s1 s2 : string) (v1 v2 : list Z) :
  blosum_encode blosum s1 = inr v1 ->
  blosum_encode blosum s2 = inr v2 ->
  blosum_encode blosum (s1 ++ s2) = inr (v1 ++ v2)
  /\ blosum_encode blosum EmptyString = inr [].
Proof.
  unfold blosum_encode. intros H1 H2. split; [|reflexivity].
  destruct (Py.mapM (table_getitem blosum) (list_ascii_of_string s1)) as [e|r1] eqn:E1;
    [discriminate|].
  destruct (Py.mapM (table_getitem blosum) (list_ascii_of_string s2)) as [e|r2] eqn:E2;
    [discriminate|].
  rewrite list_of_string_app, (lookup_rows_app _ _ _ E1 E2).
  cbn [Py.bind] in *. unfold Py.ret in *.
  inversion H1; subst. inversion H2; subst.
  rewrite !flatten_trimmed, map_app, concat_app. reflexivity.
Qed.

Lemma blosum_encode_concat_witness :
  exists v1 v2,
    blosum_encode Blosum62.blosum62 "ALD" = inr v1
    /\ blosum_encode Blosum62.blosum62 "FEQEMT" = inr v2
    /\ blosum_encode Blosum62.blosum62 pep = inr (v1 ++ v2).
Proof.
  do 2 eexists. split; [|split].
  - vm_compute. reflexivity.
  - vm_compute. reflexivity.
  - apply (@blosum_encode_concat Blosum62.blosum62 "ALD" "FEQEMT");
      vm_compute; reflexivity.
Defined.

(** For a table whose columns all have [m] entries and that has a column
    for every letter of the sequence, [blosum_encode] returns [m - 4]
    values per position: 20 for the 24 rows of the distributed matrix, 21
    for a matrix of 25 rows, none for a matrix of at most 4 rows. *)
Theorem blosum_encode_width (blosum : Table Z) (m : nat) (seq : string) :
  column_height blosum m ->
  forallb (has_column blosum) (list_ascii_of_string seq) = true ->
  exists v,
    blosum_encode blosum seq = inr v
    /\ length v = (String.length seq * (m - 4))%nat.
Proof.
  intros Hm Hall. unfold blosum_encode.
  destruct (lookup_rows blosum (list_ascii_of_string seq))
    as [[_ [rows [Hr HF]]]|[Hn _]]; [|congruence].
  rewrite Hr. cbn [Py.bind]. eexists. split; [reflexivity|].
  rewrite flatten_trimmed.
  destruct (rows_height Hm HF) as [Hh Hlen].
  rewrite (@concat_uniform_length _ (m - 4)).
  - rewrite length_map, Hlen, length_list_of_string. reflexivity.
  - rewrite Forall_forall in *. intros r Hr'. apply in_map_iff in Hr'.
    destruct Hr' as [r0 [<- Hr0]]. rewrite length_firstn, (Hh r0 Hr0). lia.
Qed.

Lemma blosum_encode_width_witness :
  (exists v, blosum_encode (constant_table 25 7%Z) pep = inr v
             /\ length v = (String.length pep * (25 - 4))%nat)
  /\ (exists v, blosum_encode (constant_table 3 7%Z) pep = inr v
                /\ length v = (String.length pep * (3 - 4))%nat).
Proof.
  split; apply blosum_encode_width;
    try (vm_compute; reflexivity);
    unfold column_height, constant_table; cbn [table_columns];
    apply Forall_forall; intros cv Hcv; apply in_map_iff in Hcv;
    destruct Hcv as [c [<- _]]; apply repeat_length.
Defined.

(** For a table whose columns all have [m] entries (19 for the NLF table)
    and that has a column for every letter of the sequence, [nlf_encode]
    returns [m] values per position, each position contributing a column
    of the table for its letter. *)
Theorem nlf_encode_columns (nlf : Table Q) (m : nat) (seq : string) :
  column_height nlf m ->
  forallb (has_column nlf) (list_ascii_of_string seq) = true ->
  exists rows,
    nlf_encode nlf seq = inr (concat rows)
    /\ Forall2 (fun c col => In (c, col) (table_columns nlf))
         (list_ascii_of_string seq) rows
    /\ length (concat rows) = (String.length seq * m)%nat.
Proof.
  intros Hm Hall. unfold nlf_encode.
  destruct (lookup_rows nlf (list_ascii_of_string seq))
    as [[_ [rows [Hr HF]]]|[Hn _]]; [|congruence].
  exists rows. rewrite Hr. cbn [Py.bind]. rewrite flatten_series.
  split; [reflexivity|]. split; [assumption|].
  destruct (rows_height Hm HF) as [Hh Hlen].
  rewrite (concat_uniform_length Hh), Hlen, length_list_of_string. reflexivity.
Qed.

Lemma nlf_encode_columns_witness :
  exists rows,
    nlf_encode (constant_table 19 (1 # 2)) pep = inr (concat rows)
    /\ Forall2 (fun c col => In (c, col) (table_columns (constant_table 19 (1 # 2))))
         (list_ascii_of_string pep) rows
    /\ length (concat rows) = (String.length pep * 19)%nat.
Proof.
  apply nlf_encode_columns; [|vm_compute; reflexivity].
  unfold column_height, constant_table; cbn [table_columns].
  apply Forall_forall. intros cv Hcv. apply in_map_iff in Hcv.
  destruct Hcv as [c [<- _]]. apply repeat_length.
Defined.

(** [nlf_encode] can only fail with [KeyError], exactly when a letter of
    the sequence is not a column of the table; on the empty string it
    returns the empty vector. *)
Theorem nlf_encode_error (nlf : Table Q) (seq : string) (e : Py.exn) :
  (nlf_encode nlf seq = inl e
   <-> e = Py.KeyError
       /\ exists c, In c (list_ascii_of_string seq) /\ has_column nlf c = false)
  /\ nlf_encode nlf EmptyString = inr [].
Proof.
  split; [|reflexivity]. unfold nlf_encode.
  destruct (lookup_rows nlf (list_ascii_of_string seq))
    as [[Hall [rows [Hm _]]]|[Hall Hm]]; rewrite Hm; cbn [Py.bind].
  - split; [discriminate|]. intros [_ [c [Hc Hn]]].
    rewrite forallb_forall in Hall. rewrite (Hall c Hc) in Hn. discriminate.
  - split.
    + intros H. inversion H; subst. split; [reflexivity|].
      destruct (forallb_false_witness _ _ Hall) as [c Hc]. exists c. exact Hc.
    + intros [-> _]. reflexivity.
Qed.

Lemma nlf_encode_error_witness :
  nlf_encode (constant_table 19 (1 # 2)) "ALX" = inl Py.KeyError.
Proof.
  apply (nlf_encode_error (constant_table 19 (1 # 2)) "ALX" Py.KeyError).
  split; [reflexivity|]. exists "X"%char. split; [cbn; tauto | reflexivity].
Defined.

End TableEncoders.

Lemma random_encode_range_witness :
  Forall (fun v => 0 <= v < 20)%Z (fst (Encoder.random_encode Toy.randint "AAAA" 17%nat)).
Proof.
  apply random_encode_range. intros g'. unfold Toy.randint. cbn [fst].
  apply Z.mod_pos_bound. reflexivity.
Defined.

(** ** When [auc_score] returns, and what it returns *)

Section AucReturns.

Import Np Metrics Evaluator.

(** [auc_score] returns exactly on two vectors of one length that are not
    empty: vectors of different lengths raise [ValueError], two empty
    vectors raise [IndexError]. *)
Theorem auc_score_returns (true sc : list Q) (cutoff : Q) :
  (length true <> length sc -> auc_score true sc cutoff = inl Py.ValueError)
  /\ (true = [] -> sc = [] -> auc_score true sc cutoff = inl Py.IndexError)
  /\ ((exists r, auc_score true sc cutoff = inr r)
      <-> true <> [] /\ length true = length sc).
Proof.
  assert (Hdiff : length true <> length sc ->
                  auc_score true sc cutoff = inl Py.ValueError).
  { intros Hne. unfold auc_score, roc_curve, binarize.
    rewrite !length_map. apply Nat.eqb_neq in Hne. rewrite Hne. reflexivity. }
  split; [exact Hdiff|]. split.
  - intros -> ->. reflexivity.
  - split.
    + intros [r Hr]. destruct (Nat.eq_dec (length true) (length sc)) as [E|N].
      * split; [|assumption]. intros ->.
        destruct sc; [|discriminate]. discriminate Hr.
      * rewrite (Hdiff N) in Hr. discriminate.
    + intros [Hne Hlen].
      destruct (@auc_score_defined true sc cutoff Hne Hlen) as (fpr & tpr & _ & H & _).
      eexists. exact H.
Qed.

Lemma auc_score_returns_witness :
  (exists r, auc_score [1 # 10; 9 # 10] [2 # 10; 8 # 10] default_cutoff = inr r)
  /\ auc_score [1 # 10; 9 # 10] [2 # 10] default_cutoff = inl Py.ValueError.
Proof.
  destruct (auc_score_returns [1 # 10; 9 # 10] [2 # 10; 8 # 10] default_cutoff)
    as (_ & _ & H).
  destruct (auc_score_returns [1 # 10; 9 # 10] [2 # 10] default_cutoff)
    as (H' & _ & _).
  split.
  - apply H. split; [discriminate | reflexivity].
  - apply H'. cbn. lia.
Defined.

End AucReturns.

(** ** The area is between 0 and 1 *)

Lemma last_member {A : Type} (l : list A) (d : A) : l <> [] -> In (last l d) l.
Proof.
  induction l as [|a t IH]; [congruence|]. intros _.
  destruct t as [|b u]; [now left|].
  right. apply IH. discriminate.
Qed.

Lemma sorted_le_last (l : list Z) :
  StronglySorted Z.le l -> Forall (fun c => c <= last l 0)%Z l.
Proof.
  induction 1 as [|a t Ht IH Ha]; [constructor|].
  destruct t as [|b u].
  - repeat constructor. cbn. lia.
  - change (last (a :: b :: u) 0%Z) with (last (b :: u) 0%Z).
    constructor; [|exact IH].
    rewrite Forall_forall in Ha. apply Ha. apply last_member. discriminate.
Qed.

Section AreaBounds.

Import Np Metrics Evaluator.

Lemma Fin_terms_cons (x0 x1 y0 y1 : Q) (xs ys : list Q) :
  trapz (map Fin (y0 :: y1 :: ys)) (map Fin (x0 :: x1 :: xs))
  = fold_left fadd
      (map (fun dy => fdiv (fmul (fst dy) (snd dy)) (Fin 2))
         (combine (diff (map Fin (x1 :: xs)))
            (map (fun p => fadd (snd p) (fst p))
               (combine (map Fin (y1 :: ys)) (tl (map Fin (y1 :: ys)))))))
      (Fin (0 + (x1 - x0) * (y1 + y0) / 2)).
Proof. reflexivity. Qed.

(** The running sum of the trapezoids stays between its start and its
    start plus the width that is left. *)
Lemma trapezoids_bound (xs : list Q) :
  forall (x0 : Q) (ys : list Q) (a : Q),
    length (x0 :: xs) = length ys ->
    StronglySorted Qle (x0 :: xs) ->
    Forall (fun v => v <= 1)%Q (x0 :: xs) ->
    Forall (fun v => 0 <= v <= 1)%Q ys ->
    exists q,
      fold_left fadd
        (map (fun dy => fdiv (fmul (fst dy) (snd dy)) (Fin 2))
           (combine (diff (map Fin (x0 :: xs)))
              (map (fun p => fadd (snd p) (fst p))
                 (combine (map Fin ys) (tl (map Fin ys))))))
        (Fin a) = Fin q
      /\ (a <= q <= a + (1 - x0))%Q.
Proof.
  induction xs as [|x1 xs IH]; intros x0 ys a Hlen Hs Hx Hy.
  - exists a. split; [reflexivity|].
    inversion Hx as [|? ? Hx0 _]; subst. split; Lqa.lra.
  - destruct ys as [|y0 [|y1 ys]]; [discriminate | discriminate |].
    inversion Hs as [|? ? Hs' Hle]; subst. inversion Hle as [|? ? Hx01 _]; subst.
    inversion Hx as [|? ? _ Hx']; subst.
    inversion Hy as [|? ? Hy0 Hy']; subst.
    assert (Hy1 : (0 <= y1 <= 1)%Q) by (inversion Hy'; assumption).
    destruct (IH x1 (y1 :: ys) (a + (x1 - x0) * (y1 + y0) / 2)%Q) as [q [Hq Hb]];
      try assumption.
    { cbn [length] in *. lia. }
    exists q. split.
    + change (diff (map Fin (x0 :: x1 :: xs)))
        with (fsub (Fin x1) (Fin x0) :: diff (map Fin (x1 :: xs))).
      cbn [map combine tl fold_left fst snd fsub fadd fmul fdiv].
      change (Qeq_bool 2 0) with false. cbn iota.
      exact Hq.
    + assert (H0 : (0 <= (x1 - x0) * (y1 + y0))%Q).
      { apply Qmult_le_0_compat; Lqa.lra. }
      assert (H1 : ((x1 - x0) * (y1 + y0) <= 2 * (x1 - x0))%Q).
      { rewrite (Qmult_comm (x1 - x0)). apply Qmult_le_compat_r; Lqa.lra. }
      revert Hb H0 H1. generalize ((x1 - x0) * (y1 + y0))%Q. intros M Hb H0 H1.
      assert (E : (M / 2 == M * (1 # 2))%Q) by (unfold Qdiv; reflexivity).
      rewrite E in Hb. split; Lqa.lra.
Qed.

Lemma trapz_bound (x y : list Q) :
  length x = length y -> (1 <= length x)%nat ->
  StronglySorted Qle x ->
  Forall (fun v => 0 <= v <= 1)%Q x ->
  Forall (fun v => 0 <= v <= 1)%Q y ->
  exists q, trapz (map Fin y) (map Fin x) = Fin q /\ (0 <= q <= 1)%Q.
Proof.
  intros Hlen Hn Hs Hx Hy. destruct x as [|x0 xs]; [cbn in Hn; lia|].
  assert (Hx1 : Forall (fun v => v <= 1)%Q (x0 :: xs)).
  { eapply Forall_impl; [|exact Hx]. intros v Hv. cbn beta in Hv. tauto. }
  destruct (@trapezoids_bound xs x0 y 0 Hlen Hs Hx1 Hy) as [q [Hq Hb]].
  exists q. split; [exact Hq|].
  inversion Hx as [|? ? Hx0 _]; subst. split; Lqa.lra.
Qed.

Lemma sorted_no_step_down (x : list Q) :
  StronglySorted Qle x -> no_step_down (map Fin x).
Proof.
  unfold no_step_down. induction 1 as [|a t Ht IH Ha]; [reflexivity|].
  destruct t as [|b u]; [reflexivity|].
  change (diff (map Fin (a :: b :: u)))
    with (fsub (Fin b) (Fin a) :: diff (map Fin (b :: u))).
  cbn [existsb]. rewrite IH, orb_false_r.
  cbn [fsub flt]. apply negb_false_iff, Qle_bool_iff.
  inversion Ha as [|? ? Hab _]; subst. Lqa.lra.
Qed.

(** The rates of a non-decreasing array of non-negative counts with a
    positive total. *)
Lemma rate_finite (counts : list Z) :
  StronglySorted Z.le counts ->
  Forall (fun c => 0 <= c)%Z counts ->
  (0 < last counts 0)%Z ->
  exists r,
    rate counts = map Fin r
    /\ length r = length counts
    /\ StronglySorted Qle r
    /\ Forall (fun v => 0 <= v <= 1)%Q r.
Proof.
  intros Hs Hnn Hpos. set (total := last counts 0%Z) in *.
  exists (map (fun c => inject_Z c / inject_Z total)%Q counts).
  assert (Htot : (0 < inject_Z total)%Q).
  { change 0%Q with (inject_Z 0). now rewrite <- Zlt_Qlt. }
  assert (Hle : Forall (fun c => c <= total)%Z counts) by apply (sorted_le_last Hs).
  split; [|split; [|split]].
  - unfold rate. fold total. apply Z.leb_gt in Hpos. rewrite Hpos.
    now rewrite map_map.
  - apply length_map.
  - clear Hnn Hle Hpos. clearbody total.
    induction Hs as [|a t Ht IH Ha]; [constructor|].
    cbn [map]. constructor; [exact IH|].
    rewrite Forall_forall in *. intros v Hv. apply in_map_iff in Hv.
    destruct Hv as [c [<- Hc]]. specialize (Ha c Hc).
    unfold Qdiv. apply Qmult_le_compat_r; [now rewrite <- Zle_Qle|].
    apply Qinv_le_0_compat. Lqa.lra.
  - rewrite Forall_forall in *. intros v Hv. apply in_map_iff in Hv.
    destruct Hv as [c [<- Hc]]. specialize (Hnn c Hc). specialize (Hle c Hc).
    split.
    + apply Qle_shift_div_l; [assumption|]. rewrite Qmult_0_l.
      change 0%Q with (inject_Z 0). now rewrite <- Zle_Qle.
    + apply Qle_shift_div_r; [assumption|]. rewrite Qmult_1_l.
      now rewrite <- Zle_Qle.
Qed.

End AreaBounds.

Section CountsMore.

Import Np Metrics.

Variable ys : list Z.
Hypothesis ys_01 : Forall (fun v => v = 0%Z \/ v = 1%Z) ys.

Lemma tp_at_0 : (0 < length ys)%nat -> tp_at ys 0 = nth 0 ys 0%Z.
Proof.
  intros H. unfold tp_at, cumsum. rewrite cumsum_from_head.
  destruct ys; [cbn in H; lia | reflexivity].
Qed.

Lemma tp_at_S (j : nat) :
  (S j < length ys)%nat -> tp_at ys (S j) = (tp_at ys j + nth (S j) ys 0)%Z.
Proof. intros Hj. unfold tp_at, cumsum. now apply cumsum_from_step. Qed.

Lemma tp_at_mono (i j : nat) :
  (i <= j)%nat -> (j < length ys)%nat -> (tp_at ys i <= tp_at ys j)%Z.
Proof.
  intros Hij Hj. induction j as [|j IH].
  - assert (i = 0)%nat as -> by lia. lia.
  - destruct (Nat.eq_dec i (S j)) as [->|Hne]; [lia|].
    rewrite (tp_at_S Hj). pose proof (ys_nth ys_01 Hj).
    assert (tp_at ys i <= tp_at ys j)%Z by (apply IH; lia). lia.
Qed.

Lemma tp_at_nonneg (j : nat) : (j < length ys)%nat -> (0 <= tp_at ys j)%Z.
Proof.
  intros Hj. assert (H0 : (0 < length ys)%nat) by lia.
  pose proof (@tp_at_mono 0 j ltac:(lia) Hj) as M.
  rewrite (tp_at_0 H0) in M. pose proof (ys_nth ys_01 H0). lia.
Qed.

(** A positive row counts as a true positive from its position on, a
    negative row as a false positive. *)
Lemma tp_at_positive (j : nat) :
  (j < length ys)%nat -> nth j ys 0%Z = 1%Z -> (1 <= tp_at ys j)%Z.
Proof.
  intros Hj H1. destruct j as [|j].
  - rewrite tp_at_0 by assumption. lia.
  - rewrite (tp_at_S Hj), H1.
    assert (0 <= tp_at ys j)%Z by (apply tp_at_nonneg; lia). lia.
Qed.

Lemma fp_at_positive (j : nat) :
  (j < length ys)%nat -> nth j ys 0%Z = 0%Z -> (1 <= fp_at ys j)%Z.
Proof.
  intros Hj H0. unfold fp_at. destruct j as [|j].
  - rewrite tp_at_0 by assumption. lia.
  - rewrite (tp_at_S Hj), H0.
    assert (0 <= fp_at ys j)%Z by (apply (fp_at_nonneg ys_01); lia).
    unfold fp_at in *. lia.
Qed.

(** The points of the curve go up and to the right. *)
Lemma curve_points_sorted (idxs : list nat) :
  StronglySorted lt idxs ->
  Forall (fun i => (i < length ys)%nat) idxs ->
  StronglySorted (fun p q : Z * Z => (fst p <= fst q)%Z /\ (snd p <= snd q)%Z)
    (map (fun i => (fp_at ys i, tp_at ys i)) idxs)
  /\ Forall (fun p : Z * Z => (0 <= fst p)%Z /\ (0 <= snd p)%Z)
       (map (fun i => (fp_at ys i, tp_at ys i)) idxs).
Proof.
  intros HS HF. split.
  - induction HS as [|i t Ht IH Hi]; [constructor|].
    inversion HF as [|? ? Hin Htn]; subst.
    cbn [map]. constructor; [now apply IH|].
    rewrite Forall_forall in Hi, Htn. apply Forall_forall. intros p Hp.
    apply in_map_iff in Hp. destruct Hp as [j [<- Hj]]. cbn [fst snd].
    specialize (Hi j Hj). specialize (Htn j Hj). split.
    + apply (fp_at_mono ys_01); [lia | assumption].
    + apply tp_at_mono; [lia | assumption].
  - rewrite Forall_forall in HF. apply Forall_forall. intros p Hp.
    apply in_map_iff in Hp. destruct Hp as [j [<- Hj]]. cbn [fst snd].
    split; [apply (fp_at_nonneg ys_01) | apply tp_at_nonneg]; now apply HF.
Qed.

End CountsMore.

Section DropKeepsEnds.

Import Np Metrics.

Lemma inner_corners_length (pts : list (Z * Z)) :
  length (inner_corners pts) = (length pts - 2)%nat.
Proof.
  induction pts as [|a t IH]; [reflexivity|].
  destruct t as [|b [|c u]]; [reflexivity | reflexivity |].
  change (inner_corners (a :: b :: c :: u))
    with ((negb (fst c - 2 * fst b + fst a =? 0)%Z
           || negb (snd c - 2 * snd b + snd a =? 0)%Z) :: inner_corners (b :: c :: u)).
  cbn [length] in *. rewrite IH. lia.
Qed.

Lemma select_app {A : Type} (m m' : list bool) (l l' : list A) :
  length m = length l ->
  select (m ++ m') (l ++ l') = select m l ++ select m' l'.
Proof.
  revert l. induction m as [|b m IH]; intros [|a l] H; try discriminate H;
    [reflexivity|].
  injection H as H. specialize (IH l H).
  unfold select in *. cbn [app combine filter fst].
  destruct b; cbn [map snd app]; now rewrite IH.
Qed.

Lemma drop_intermediate_last (pts : list (Z * Z)) (d : Z * Z) :
  last (drop_intermediate pts) d = last pts d.
Proof.
  unfold drop_intermediate.
  destruct (Nat.ltb_spec 2 (length pts)) as [H|_]; [|reflexivity].
  destruct pts as [|a t]; [reflexivity|].
  assert (Ht : t <> []) by (destruct t; [cbn in H; lia | discriminate]).
  pose proof (app_removelast_last d Ht) as E.
  revert E. generalize (removelast t), (last t d). intros r z E. subst t.
  change (true :: inner_corners (a :: r ++ [z]) ++ [true])
    with ([true] ++ (inner_corners (a :: r ++ [z]) ++ [true])).
  change (a :: r ++ [z]) with ([a] ++ (r ++ [z])) at 2 3.
  rewrite select_app by reflexivity.
  rewrite select_app.
  - rewrite !app_assoc. cbn [select combine filter map fst snd].
    rewrite !last_last. reflexivity.
  - rewrite inner_corners_length. cbn [length]. rewrite length_app. cbn [length]. lia.
Qed.

End DropKeepsEnds.

Section RocFinite.

Import Np Metrics Evaluator.

Lemma map_snd_combine {A B : Type} (a : list A) (b : list B) :
  length a = length b -> map snd (combine a b) = b.
Proof.
  revert b. induction a as [|x a IH]; intros [|y b] H; try discriminate H;
    [reflexivity|].
  cbn [combine map snd]. f_equal. apply IH. now injection H.
Qed.

Lemma last_map_snoc {A B : Type} (f : A -> B) (l : list A) (x : A) (d : B) :
  last (map f (l ++ [x])) d = f x.
Proof. rewrite map_app. cbn [map]. apply last_last. Qed.

Lemma last_cons_nonempty {A : Type} (a : A) (l : list A) (d : A) :
  l <> [] -> last (a :: l) d = last l d.
Proof. destruct l; [congruence | reflexivity]. Qed.

Lemma last_map {A B : Type} (f : A -> B) (l : list A) (d : A) (d' : B) :
  l <> [] -> last (map f l) d' = f (last l d).
Proof.
  induction l as [|a t IH]; [congruence|]. intros _.
  destruct t as [|b u]; [reflexivity|].
  change (last (map f (a :: b :: u)) d') with (last (map f (b :: u)) d').
  change (last (a :: b :: u) d) with (last (b :: u) d).
  apply IH. discriminate.
Qed.

Lemma sorted_both (l : list (Z * Z)) :
  StronglySorted (fun p q : Z * Z => (fst p <= fst q)%Z /\ (snd p <= snd q)%Z) l ->
  StronglySorted Z.le (map fst l) /\ StronglySorted Z.le (map snd l).
Proof.
  induction 1 as [|a t Ht [IH1 IH2] Ha]; [split; constructor|].
  cbn [map]. rewrite Forall_forall in Ha.
  split; (constructor; [assumption|]); apply Forall_forall; intros z Hz;
    apply in_map_iff in Hz; destruct Hz as [p [<- Hp]]; now apply Ha.
Qed.

Variable y_true : list Z.
Variable y_score : list Q.
Hypothesis same_length : length y_true = length y_score.
Hypothesis has_pos : In 1%Z y_true.
Hypothesis has_neg : exists t, In t y_true /\ t <> 1%Z.

Local Abbreviation ys := (map snd (desc_rows y_true y_score 1)).
Local Abbreviation ss := (map fst (desc_rows y_true y_score 1)).
Local Abbreviation idxs := (distinct_value_indices 0 ss ++ [(length ys - 1)%nat]).
Local Abbreviation pts := (map (fun i => (fp_at ys i, tp_at ys i)) idxs).

Lemma y_true_nonempty : y_true <> [].
Proof. intros E. rewrite E in has_pos. exact has_pos. Qed.

Lemma sorted_labels_perm :
  Permutation ys (map (fun t => if (t =? 1)%Z then 1%Z else 0%Z) y_true).
Proof.
  unfold desc_rows.
  rewrite <- (@map_snd_combine _ _ y_score
                (map (fun t => if (t =? 1)%Z then 1%Z else 0%Z) y_true)) at 2
    by (now rewrite length_map).
  apply Permutation_map.
  rewrite <- Permutation_rev. apply sort_by_perm.
Qed.

Lemma some_positive_row : exists j, (j < length ys)%nat /\ nth j ys 0%Z = 1%Z.
Proof.
  assert (H : In 1%Z ys).
  { apply (Permutation_in _ (Permutation_sym sorted_labels_perm)).
    apply in_map_iff. exists 1%Z. split; [reflexivity | exact has_pos]. }
  destruct (In_nth _ _ 0%Z H) as [j [Hj Hn]]. now exists j.
Qed.

Lemma some_negative_row : exists j, (j < length ys)%nat /\ nth j ys 0%Z = 0%Z.
Proof.
  destruct has_neg as [t [Ht Hne]].
  assert (H : In 0%Z ys).
  { apply (Permutation_in _ (Permutation_sym sorted_labels_perm)).
    apply in_map_iff. exists t. split; [|exact Ht].
    destruct (Z.eqb_spec t 1); [contradiction | reflexivity]. }
  destruct (In_nth _ _ 0%Z H) as [j [Hj Hn]]. now exists j.
Qed.

Lemma roc_curve_eq :
  roc_curve y_true y_score 1
  = inr (rate (0%Z :: map fst (drop_intermediate pts)),
         rate (0%Z :: map snd (drop_intermediate pts))).
Proof.
  unfold roc_curve. rewrite same_length, Nat.eqb_refl. cbn [negb].
  destruct (Nat.eqb_spec (length y_score) 0) as [E|_].
  { rewrite <- same_length in E. pose proof y_true_nonempty.
    destruct y_true; [congruence | discriminate]. }
  rewrite binary_clf_curve_eq, combine_maps. reflexivity.
Qed.

Lemma last_point :
  last (drop_intermediate pts) (0%Z, 0%Z)
  = (fp_at ys (length ys - 1), tp_at ys (length ys - 1)).
Proof.
  rewrite drop_intermediate_last.
  exact (last_map_snoc (fun i => (fp_at ys i, tp_at ys i)) _ _ _).
Qed.

Lemma totals_positive :
  (1 <= fp_at ys (length ys - 1))%Z /\ (1 <= tp_at ys (length ys - 1))%Z.
Proof.
  pose proof (ys_binary y_true y_score) as Hb.
  destruct some_positive_row as [j [Hj Hj1]].
  destruct some_negative_row as [k [Hk Hk0]].
  split.
  - pose proof (fp_at_positive Hb Hk Hk0).
    pose proof (@fp_at_mono ys Hb k (length ys - 1) ltac:(lia) ltac:(lia)). lia.
  - pose proof (tp_at_positive Hb Hj Hj1).
    pose proof (@tp_at_mono ys Hb j (length ys - 1) ltac:(lia) ltac:(lia)). lia.
Qed.

(** With both classes among the labels the curve is made of finite rates
    and the area under it is a number between 0 and 1. *)
Lemma roc_auc_in_unit_interval :
  exists q, roc_auc y_true y_score = inr (Fin q) /\ (0 <= q <= 1)%Q.
Proof.
  pose proof (ys_binary y_true y_score) as Hb.
  destruct (@idxs_spec y_true y_score same_length y_true_nonempty) as [HS HF].
  destruct (@curve_points_sorted ys Hb idxs HS HF) as [Hsorted Hnn].
  pose proof (drop_intermediate_sorted Hsorted) as Hs'.
  pose proof (drop_intermediate_Forall Hnn) as Hn'.
  pose proof (drop_intermediate_nonempty (pts_nonempty y_true y_score same_length)) as Hne.
  destruct (sorted_both Hs') as [Hf Ht].
  destruct totals_positive as [Tf Tt].
  rewrite Forall_forall in Hn'.
  destruct (@rate_finite (0%Z :: map fst (drop_intermediate pts))) as (r1 & E1 & L1 & S1 & B1).
  { constructor; [exact Hf|]. apply Forall_forall. intros z Hz.
    apply in_map_iff in Hz. destruct Hz as [p [<- Hp]]. now apply Hn'. }
  { constructor; [lia|]. apply Forall_forall. intros z Hz.
    apply in_map_iff in Hz. destruct Hz as [p [<- Hp]]. now apply Hn'. }
  { rewrite last_cons_nonempty by (intros E; apply map_eq_nil in E; contradiction).
    rewrite (@last_map _ _ fst (drop_intermediate pts) (0%Z, 0%Z) 0%Z Hne), last_point. cbn [fst]. lia. }
  destruct (@rate_finite (0%Z :: map snd (drop_intermediate pts))) as (r2 & E2 & L2 & S2 & B2).
  { constructor; [exact Ht|]. apply Forall_forall. intros z Hz.
    apply in_map_iff in Hz. destruct Hz as [p [<- Hp]]. now apply Hn'. }
  { constructor; [lia|]. apply Forall_forall. intros z Hz.
    apply in_map_iff in Hz. destruct Hz as [p [<- Hp]]. now apply Hn'. }
  { rewrite last_cons_nonempty by (intros E; apply map_eq_nil in E; contradiction).
    rewrite (@last_map _ _ snd (drop_intermediate pts) (0%Z, 0%Z) 0%Z Hne), last_point. cbn [snd]. lia. }
  assert (Hlen : length r1 = length r2).
  { rewrite L1, L2. cbn [length]. now rewrite !length_map. }
  assert (H1 : (1 <= length r1)%nat) by (rewrite L1; cbn [length]; lia).
  destruct (trapz_bound Hlen H1 S1 B1 B2) as [q [Hq Hb']].
  exists (1 * q)%Q. split; [|Lqa.lra].
  unfold roc_auc. rewrite roc_curve_eq. cbn [Py.bind fst snd].
  rewrite E1, E2.
  rewrite auc_no_step_down.
  - rewrite Hq. reflexivity.
  - now rewrite !length_map.
  - rewrite length_map, L1. cbn [length].
    destruct (drop_intermediate pts); [congruence | cbn; lia].
  - now apply sorted_no_step_down.
Qed.

End RocFinite.

Section AucValues.

Import Np Metrics Evaluator.

Lemma auc_score_roc_auc (true sc : list Q) (cutoff : Q) :
  auc_score true sc cutoff
  = roc_auc (binarize cutoff true) (map inject_Z (binarize cutoff sc)).
Proof.
  unfold auc_score, roc_auc.
  destruct (roc_curve (binarize cutoff true) (map inject_Z (binarize cutoff sc)) 1)
    as [e|[fpr tpr]]; [reflexivity|].
  cbn [Py.bind fst snd]. destruct (auc fpr tpr); reflexivity.
Qed.

Lemma binarize_both_classes (true : list Q) (cutoff : Q) :
  (exists t, In t true /\ (t <= cutoff)%Q) ->
  (exists t, In t true /\ ~ (t <= cutoff)%Q) ->
  In 1%Z (binarize cutoff true)
  /\ exists l, In l (binarize cutoff true) /\ l <> 1%Z.
Proof.
  intros [t [Ht Hle]] [u [Hu Hgt]]. unfold binarize. split.
  - apply in_map_iff. exists t. split; [|assumption].
    apply Qle_bool_iff in Hle. now rewrite Hle.
  - exists 0%Z. split; [|discriminate].
    apply in_map_iff. exists u. split; [|assumption].
    destruct (Qle_bool u cutoff) eqn:E; [|reflexivity].
    apply Qle_bool_iff in E. contradiction.
Qed.

(** When the two vectors have one length and the true values fall on both
    sides of the cutoff, [auc_score] returns a number, and that number
    lies between 0 and 1. *)
Theorem auc_score_unit_interval (true sc : list Q) (cutoff : Q) :
  length true = length sc ->
  (exists t, In t true /\ (t <= cutoff)%Q) ->
  (exists t, In t true /\ ~ (t <= cutoff)%Q) ->
  exists q, auc_score true sc cutoff = inr (Fin q) /\ (0 <= q <= 1)%Q.
Proof.
  intros Hlen Hpos Hneg.
  destruct (@binarize_both_classes true cutoff Hpos Hneg) as [H1 H0].
  rewrite auc_score_roc_auc.
  apply roc_auc_in_unit_interval; [|assumption|assumption].
  unfold binarize. now rewrite !length_map.
Qed.

Lemma auc_score_unit_interval_witness :
  exists q,
    auc_score [1 # 10; 9 # 10; 3 # 10; 7 # 10] [2 # 10; 8 # 10; 6 # 10; 1 # 10]
      default_cutoff = inr (Fin q)
    /\ (0 <= q <= 1)%Q.
Proof.
  apply auc_score_unit_interval.
  - reflexivity.
  - exists (1 # 10). split; [cbn; tauto | vm_compute; discriminate].
  - exists (9 # 10). split; [cbn; tauto | vm_compute; intros H; apply H; reflexivity].
Defined.

Lemma no_distinct_values (v : Q) (score : list Q) (i0 : nat) :
  Forall (eq v) score -> distinct_value_indices i0 score = [].
Proof.
  revert i0. induction score as [|a t IH]; intros i0 H; [reflexivity|].
  destruct t as [|b u]; [reflexivity|].
  inversion H as [|? ? Ha Ht]. inversion Ht as [|? ? Hb _]. subst a b.
  change (distinct_value_indices i0 (v :: v :: u))
    with (if Qeq_bool v v then distinct_value_indices (S i0) (v :: u)
          else i0 :: distinct_value_indices (S i0) (v :: u)).
  rewrite Qeq_bool_refl. now apply IH.
Qed.

(** The curve of a score that is the same on every row: the origin and the
    corner [(1, 1)], with area one half. *)
Lemma roc_auc_constant_score (y_true : list Z) (y_score : list Q) (v : Q) :
  length y_true = length y_score ->
  In 1%Z y_true ->
  (exists t, In t y_true /\ t <> 1%Z) ->
  Forall (eq v) y_score ->
  exists q, roc_auc y_true y_score = inr (Fin q) /\ (q == 1 # 2)%Q.
Proof.
  intros Hlen Hpos Hneg Hv.
  destruct (totals_positive y_true y_score Hlen Hpos Hneg) as [Tf Tt].
  unfold roc_auc. rewrite (roc_curve_eq y_true y_score Hlen Hpos Hneg).
  assert (Hss : Forall (eq v) (map fst (desc_rows y_true y_score 1))).
  { apply Forall_forall. intros s Hs. apply in_map_iff in Hs.
    destruct Hs as [[s' l] [<- Hin]]. unfold desc_rows in Hin.
    apply in_rev in Hin. apply sort_by_In in Hin. apply in_combine_l in Hin.
    rewrite Forall_forall in Hv. now apply Hv. }
  rewrite (no_distinct_values 0 Hss). cbn [app map].
  revert Tf Tt.
  generalize (fp_at (map snd (desc_rows y_true y_score 1))
                (length (map snd (desc_rows y_true y_score 1)) - 1)).
  generalize (tp_at (map snd (desc_rows y_true y_score 1))
                (length (map snd (desc_rows y_true y_score 1)) - 1)).
  intros P N Tf Tt.
  unfold drop_intermediate. cbn [length Nat.ltb Nat.leb map fst snd Py.bind].
  unfold rate. cbn [last].
  destruct (Z.leb_spec N 0) as [L|_]; [lia|].
  destruct (Z.leb_spec P 0) as [L|_]; [lia|].
  cbn [map].
  assert (HN : (0 < inject_Z N)%Q).
  { change 0%Q with (inject_Z 0). rewrite <- Zlt_Qlt. lia. }
  assert (HP : (0 < inject_Z P)%Q).
  { change 0%Q with (inject_Z 0). rewrite <- Zlt_Qlt. lia. }
  rewrite (@auc_no_step_down
             [Fin (inject_Z 0 / inject_Z N); Fin (inject_Z N / inject_Z N)]
             [Fin (inject_Z 0 / inject_Z P); Fin (inject_Z P / inject_Z P)]
             eq_refl).
  - eexists. split; [reflexivity|].
    cbn [fst snd]. change (inject_Z 0) with 0%Q. field. split; Lqa.lra.
  - cbn. lia.
  - apply (sorted_no_step_down
             (x := [inject_Z 0 / inject_Z N; inject_Z N / inject_Z N]%Q)).
    repeat constructor.
    change (inject_Z 0) with 0%Q.
    apply Qle_shift_div_l; [assumption|]. 
    setoid_replace (0 / inject_Z N * inject_Z N)%Q with 0%Q by (field; Lqa.lra).
    Lqa.lra.
Qed.

(** A prediction that lies on one side of the cutoff for every row is
    scored one half, whatever the true values, as long as they fall on
    both sides of the cutoff. *)
Theorem auc_score_constant_prediction (true sc : list Q) (cutoff : Q) :
  length true = length sc ->
  (exists t, In t true /\ (t <= cutoff)%Q) ->
  (exists t, In t true /\ ~ (t <= cutoff)%Q) ->
  Forall (fun s => s <= cutoff)%Q sc \/ Forall (fun s => ~ (s <= cutoff)%Q) sc ->
  exists q, auc_score true sc cutoff = inr (Fin q) /\ (q == 1 # 2)%Q.
Proof.
  intros Hlen Hpos Hneg Hsc.
  destruct (@binarize_both_classes true cutoff Hpos Hneg) as [H1 H0].
  rewrite auc_score_roc_auc.
  assert (Hl : length (binarize cutoff true) = length (map inject_Z (binarize cutoff sc))).
  { unfold binarize. now rewrite !length_map. }
  destruct Hsc as [Hall|Hall].
  - apply (@roc_auc_constant_score _ _ (inject_Z 1)); try assumption.
    apply Forall_forall. intros s Hs. apply in_map_iff in Hs.
    destruct Hs as [z [<- Hz]]. unfold binarize in Hz. apply in_map_iff in Hz.
    destruct Hz as [t [<- Ht]]. rewrite Forall_forall in Hall.
    specialize (Hall t Ht). apply Qle_bool_iff in Hall. now rewrite Hall.
  - apply (@roc_auc_constant_score _ _ (inject_Z 0)); try assumption.
    apply Forall_forall. intros s Hs. apply in_map_iff in Hs.
    destruct Hs as [z [<- Hz]]. unfold binarize in Hz. apply in_map_iff in Hz.
    destruct Hz as [t [<- Ht]]. rewrite Forall_forall in Hall.
    specialize (Hall t Ht).
    destruct (Qle_bool t cutoff) eqn:E; [|reflexivity].
    apply Qle_bool_iff in E. contradiction.
Qed.

Lemma auc_score_constant_prediction_witness :
  exists q,
    auc_score [1 # 10; 9 # 10; 3 # 10] [5 # 10; 8 # 10; 6 # 10] default_cutoff
    = inr (Fin q)
    /\ (q == 1 # 2)%Q.
Proof.
  apply auc_score_constant_prediction.
  - reflexivity.
  - exists (1 # 10). split; [cbn; tauto | vm_compute; discriminate].
  - exists (9 # 10). split; [cbn; tauto | vm_compute; intros H; apply H; reflexivity].
  - right. repeat constructor; vm_compute; intros H; apply H; reflexivity.
Defined.

End AucValues.

(** ** More on the shuffle split *)

Section TakeFacts.

Import Learn.

Context {A B : Type}.

Lemma nth_error_combine (a : list A) (b : list B) (i : nat) :
  nth_error (combine a b) i
  = match nth_error a i, nth_error b i with
    | Some x, Some y => Some (x, y)
    | _, _ => None
    end.
Proof.
  revert b i. induction a as [|x a IH]; intros [|y b] [|i]; try reflexivity.
  - cbn. now destruct (nth_error a i).
  - cbn [combine nth_error]. apply IH.
Qed.

Lemma take_combine (a : list A) (b : list B) (idx : list nat) :
  take (combine a b) idx = combine (take a idx) (take b idx)
  \/ exists i, In i idx /\ (nth_error a i = None <-> nth_error b i <> None).
Proof.
  induction idx as [|i t IH]; [now left|].
  destruct IH as [IH|[j [Hj Hn]]].
  - unfold take in *. cbn [flat_map]. rewrite IH, nth_error_combine.
    destruct (nth_error a i) as [x|] eqn:Ea, (nth_error b i) as [y|] eqn:Eb.
    + now left.
    + right. exists i. split; [now left|]. rewrite Ea, Eb. split; congruence.
    + right. exists i. split; [now left|]. rewrite Ea, Eb. split; congruence.
    + now left.
  - right. exists j. split; [now right | assumption].
Qed.

Lemma take_combine_same_length (a : list A) (b : list B) (idx : list nat) :
  length a = length b ->
  take (combine a b) idx = combine (take a idx) (take b idx).
Proof.
  intros Hlen. destruct (take_combine a b idx) as [H|[i [_ Hi]]]; [assumption|].
  exfalso.
  destruct (Nat.lt_ge_cases i (length a)) as [L|L].
  - assert (nth_error a i <> None) by now apply nth_error_Some.
    assert (nth_error b i <> None) by (apply nth_error_Some; lia). tauto.
  - assert (Ha : nth_error a i = None) by now apply nth_error_None.
    assert (Hb : nth_error b i = None) by (apply nth_error_None; lia). tauto.
Qed.

Lemma take_seq_from (pre l : list A) :
  take (pre ++ l) (seq (length pre) (length l)) = l.
Proof.
  revert pre. induction l as [|x t IH]; intros pre; [reflexivity|].
  cbn [length seq]. unfold take. cbn [flat_map].
  rewrite nth_error_app2, Nat.sub_diag by lia. cbn [nth_error app].
  f_equal.
  replace (pre ++ x :: t) with ((pre ++ [x]) ++ t) by (now rewrite <- app_assoc).
  replace (S (length pre)) with (length (pre ++ [x]))
    by (rewrite length_app; cbn [length]; lia).
  apply IH.
Qed.

Lemma take_all_rows (l : list A) : take l (seq 0 (length l)) = l.
Proof. exact (take_seq_from [] l). Qed.

Lemma take_perm (l : list A) (idx idx' : list nat) :
  Permutation idx idx' -> Permutation (take l idx) (take l idx').
Proof. intros H. unfold take. now apply Permutation_flat_map. Qed.

Lemma take_app (l : list A) (idx idx' : list nat) :
  take l (idx ++ idx') = take l idx ++ take l idx'.
Proof. unfold take. apply flat_map_app. Qed.

End TakeFacts.

Section SplitMore.

Import Np Learn.

Variable RNG : Type.
Variable permutation : nat -> RNG -> list nat * RNG.

Hypothesis permutation_spec :
  forall n g, Permutation (fst (permutation n g)) (seq 0 n).

Lemma n_train_zero (n : nat) : (n - n_test_of n = 0)%nat <-> (n <= 1)%nat.
Proof.
  split; intros H.
  - pose proof (n_test_bounds n). lia.
  - destruct n as [|[|n]]; [reflexivity | reflexivity | lia].
Qed.

(** [train_test_split] raises exactly when the two arrays differ in length
    or there are fewer than two rows; the error is [ValueError], and no
    permutation has been drawn. *)
Theorem train_test_split_raises (X : Matrix) (y : list Q) (w w' : World RNG)
    (e : Py.exn) :
  train_test_split permutation X y w = (inl e, w')
  <-> e = Py.ValueError /\ w' = w
      /\ (length X <> length y \/ (length X <= 1)%nat).
Proof.
  unfold train_test_split.
  destruct (Nat.eqb_spec (length X) (length y)) as [E|E]; cbn [negb].
  - destruct (Nat.eqb_spec (length X - n_test_of (length X)) 0) as [Z|Z].
    + apply n_train_zero in Z. unfold Rt.raise, Py.raise. split.
      * intros H. inversion H. tauto.
      * intros (-> & -> & _). reflexivity.
    + rewrite n_train_zero in Z.
      destruct (permutation (length X) (rng w)) as [perm g]. split.
      * intros H. discriminate H.
      * intros (_ & _ & [H|H]); [contradiction | lia].
  - unfold Rt.raise, Py.raise. split.
    + intros H. inversion H. tauto.
    + intros (-> & -> & _). reflexivity.
Qed.

(** On two arrays of one length with at least two rows [train_test_split]
    returns; one permutation is drawn and no fit is run; the test part has
    [ceil(0.3 n)] rows and the training part the other rows; and the rows
    of the two parts, each with its own target value, are the rows of the
    table: none is lost, repeated or paired with another row's value. *)
Theorem train_test_split_partition (X : Matrix) (y : list Q) (w : World RNG) :
  length X = length y -> (2 <= length X)%nat ->
  exists X_train X_test y_train y_test,
    train_test_split permutation X y w
    = (inr (X_train, X_test, y_train, y_test),
       mkWorld (snd (permutation (length X) (rng w))) (fits w))
    /\ length X_test = n_test_of (length X)
    /\ length X_train = (length X - n_test_of (length X))%nat
    /\ length y_test = length X_test
    /\ length y_train = length X_train
    /\ Permutation (combine X_test y_test ++ combine X_train y_train)
         (combine X y).
Proof.
  intros Hlen Hn.
  pose proof (permutation_spec (length X) (rng w)) as Hp.
  destruct (@split_partition (length X) _ Hp) as (L1 & L2 & PP & F1 & F2).
  unfold train_test_split.
  rewrite <- Hlen, Nat.eqb_refl. cbn [negb].
  destruct (Nat.eqb_spec (length X - n_test_of (length X)) 0) as [Z|_].
  { apply n_train_zero in Z. lia. }
  destruct (permutation (length X) (rng w)) as [perm g]. cbn [fst snd] in *.
  unfold split_by.
  do 4 eexists. split; [reflexivity|].
  rewrite !take_length by (rewrite <- ?Hlen; assumption).
  repeat (split; [congruence|]).
  rewrite <- !take_combine_same_length by assumption.
  rewrite <- take_app.
  rewrite <- (take_all_rows (combine X y)) at 2.
  apply take_perm. rewrite length_combine, <- Hlen, Nat.min_id. exact PP.
Qed.

End SplitMore.

Lemma train_test_split_partition_witness :
  exists X_train X_test y_train y_test,
    Learn.train_test_split Toy.permutation
      (Learn.frame_of [[1]; [2]; [3]; [4]; [5]]) [1 # 10; 2 # 10; 3 # 10; 4 # 10; 5 # 10]
      Toy.world1
    = (inr (X_train, X_test, y_train, y_test), Learn.mkWorld 2%nat [])
    /\ length X_test = 2%nat
    /\ length X_train = 3%nat
    /\ length y_test = length X_test
    /\ length y_train = length X_train
    /\ Permutation (combine X_test y_test ++ combine X_train y_train)
         (combine (Learn.frame_of [[1]; [2]; [3]; [4]; [5]])
            [1 # 10; 2 # 10; 3 # 10; 4 # 10; 5 # 10]).
Proof.
  apply (@train_test_split_partition Toy.RNG Toy.permutation toy_permutation_spec
           (Learn.frame_of [[1]; [2]; [3]; [4]; [5]]) [1 # 10; 2 # 10; 3 # 10; 4 # 10; 5 # 10]
           Toy.world1); [reflexivity | cbn; lia].
Defined.

(** ** Errors and NaN in the trainer and the evaluator *)

Section PipelineErrors.

Import Np Learn.

Variable RNG : Type.
Variable permutation : nat -> RNG -> list nat * RNG.
Variable W : Type.
Variable train : Hyper -> Array -> list Q -> W.
Variable forward : W -> list Q -> Q.
Variable get_training_set : string -> nat -> list AffinityRecord.
Variable ep_auc_score : list Q -> list Q -> Q -> Py.result pyfloat.

(** An encoder that draws no random numbers stops at the first peptide it
    refuses, with the world as it was. *)
Lemma encode_rows_first_error (f : string -> Py.result (list Z))
    (pre post : list AffinityRecord) (r : AffinityRecord) (e : Py.exn)
    (w : World RNG) :
  Forall (fun r' => exists v, f (peptide r') = inr v) pre ->
  f (peptide r) = inl e ->
  encode_rows (pure_encoder f) (pre ++ r :: post) w = (inl e, w).
Proof.
  intros Hpre He. unfold encode_rows.
  induction Hpre as [|a t [v Ha] Ht IH].
  - cbn [app map Rt.mapM]. unfold Rt.bind at 1.
    unfold pure_encoder at 1, Rt.lift. now rewrite He.
  - cbn [app map Rt.mapM]. unfold Rt.bind at 1.
    unfold pure_encoder at 1, Rt.lift. rewrite Ha. cbn [Py.bind Py.ret].
    unfold Py.ret. unfold Rt.bind at 1.
    cbn [app map] in IH. now rewrite IH.
Qed.

Lemma encode_all_first_error (f : string -> Py.result (list Z))
    (pre post : list AffinityRecord) (r : AffinityRecord) (e : Py.exn)
    (w : World RNG) :
  Forall (fun r' => exists v, f (peptide r') = inr v) pre ->
  f (peptide r) = inl e ->
  encode_all (pure_encoder f) (pre ++ r :: post) w = (inl e, w).
Proof.
  intros Hpre He. unfold encode_all, Rt.bind.
  now rewrite (@encode_rows_first_error f pre post r e w Hpre He).
Qed.

(** [test_predictor] with an encoder that refuses a peptide of the table:
    the error of the first refused peptide comes out, before any
    permutation is drawn and before any fit. *)
Theorem test_predictor_encoder_error (f : string -> Py.result (list Z))
    (allele : string) (pre post : list AffinityRecord) (r : AffinityRecord)
    (e : Py.exn) (w : World RNG) :
  get_training_set allele 9 = pre ++ r :: post ->
  Forall (fun r' => exists v, f (peptide r') = inr v) pre ->
  f (peptide r) = inl e ->
  test_predictor permutation train forward get_training_set ep_auc_score
    allele (pure_encoder f) w
  = (inl e, w).
Proof.
  intros Hdf Hpre He. unfold test_predictor. rewrite Hdf.
  unfold Rt.bind at 1. now rewrite (@encode_all_first_error f pre post r e w Hpre He).
Qed.

(** [build_predictor] on a table of at least 100 records with an encoder
    that refuses one of the peptides: the error of the first refused
    peptide comes out and no fit is run. *)
Theorem build_predictor_encoder_error (f : string -> Py.result (list Z))
    (nlf_encode : Encoder_fn RNG) (allele : string) (len : nat)
    (pre post : list AffinityRecord) (r : AffinityRecord)
    (e : Py.exn) (w : World RNG) :
  get_training_set allele len = pre ++ r :: post ->
  (100 <= length (pre ++ r :: post))%nat ->
  Forall (fun r' => exists v, f (peptide r') = inr v) pre ->
  f (peptide r) = inl e ->
  build_predictor train get_training_set nlf_encode allele
    (Some (pure_encoder f)) len w
  = (inl e, w).
Proof.
  intros Hdf Hlen Hpre He. unfold build_predictor. rewrite Hdf.
  apply Nat.ltb_ge in Hlen. rewrite Hlen.
  unfold Rt.bind at 1. now rewrite (@encode_all_first_error f pre post r e w Hpre He).
Qed.

Lemma train_test_split_too_small (X : Matrix) (y : list Q) (w : World RNG) :
  (length X <= 1)%nat ->
  train_test_split permutation X y w = (inl Py.ValueError, w).
Proof.
  intros H. unfold train_test_split.
  destruct (negb (length X =? length y)%nat); [reflexivity|].
  destruct (Nat.eqb_spec (length X - n_test_of (length X)) 0) as [_|Z];
    [reflexivity|].
  exfalso. apply Z. now apply n_train_zero.
Qed.

(** [test_predictor] on a table of at most one record whose peptide the
    encoder accepts: the first split raises [ValueError], and no fit is
    run. *)
Theorem test_predictor_small_table (allele : string) (encoder : Encoder_fn RNG)
    (w w1 : World RNG) (X : Matrix) :
  (length (get_training_set allele 9) <= 1)%nat ->
  encode_all encoder (get_training_set allele 9) w = (inr X, w1) ->
  test_predictor permutation train forward get_training_set ep_auc_score
    allele encoder w
  = (inl Py.ValueError, w1).
Proof.
  intros Hn Henc.
  assert (HX : length X = length (get_training_set allele 9)).
  { exact (encode_all_length _ _ _ Henc). }
  unfold test_predictor. unfold Rt.bind at 1. rewrite Henc.
  unfold Rt.bind at 1. cbn [Rt.for_range]. unfold Rt.bind at 1.
  unfold evaluation_round. unfold Rt.bind at 1.
  rewrite train_test_split_too_small by (rewrite HX; exact Hn).
  reflexivity.
Qed.

End PipelineErrors.

Lemma test_predictor_encoder_error_witness :
  Learn.test_predictor Toy.permutation Toy.train Toy.forward
    (fun _ _ => [Learn.mkRecord "HLA-A*03:01" "ALD" (9 # 1) 3 (8 # 10);
                 Learn.mkRecord "HLA-A*03:01" "ALJ" (3 # 1) 3 (9 # 10);
                 Learn.mkRecord "HLA-A*03:01" "FEQ" (5 # 1) 3 (7 # 10)])
    Evaluator.auc_score "HLA-A*03:01"
    (Learn.pure_encoder (Encoder.blosum_encode Blosum62.blosum62)) Toy.world1
  = (inl Py.KeyError, Toy.world1).
Proof.
  apply (@test_predictor_encoder_error Toy.RNG Toy.permutation Toy.W Toy.train
           Toy.forward _ Evaluator.auc_score
           (Encoder.blosum_encode Blosum62.blosum62) "HLA-A*03:01"
           [Learn.mkRecord "HLA-A*03:01" "ALD" (9 # 1) 3 (8 # 10)]
           [Learn.mkRecord "HLA-A*03:01" "FEQ" (5 # 1) 3 (7 # 10)]
           (Learn.mkRecord "HLA-A*03:01" "ALJ" (3 # 1) 3 (9 # 10))).
  - reflexivity.
  - constructor; [|constructor]. eexists. vm_compute. reflexivity.
  - vm_compute. reflexivity.
Defined.

Lemma build_predictor_encoder_error_witness :
  Learn.build_predictor Toy.train
    (fun _ _ => repeat (Learn.mkRecord "HLA-A*03:01" "ALD" (9 # 1) 3 (8 # 10)) 99
                ++ [Learn.mkRecord "HLA-A*03:01" "ALJ" (3 # 1) 3 (9 # 10)])
    Toy.one_hot "HLA-A*03:01"
    (Some (Learn.pure_encoder (Encoder.blosum_encode Blosum62.blosum62))) 3
    Toy.world1
  = (inl Py.KeyError, Toy.world1).
Proof.
  apply (@build_predictor_encoder_error Toy.RNG Toy.W Toy.train _
           (Encoder.blosum_encode Blosum62.blosum62) Toy.one_hot "HLA-A*03:01" 3
           (repeat (Learn.mkRecord "HLA-A*03:01" "ALD" (9 # 1) 3 (8 # 10)) 99)
           []
           (Learn.mkRecord "HLA-A*03:01" "ALJ" (3 # 1) 3 (9 # 10))).
  - reflexivity.
  - rewrite length_app, repeat_length. cbn [length]. lia.
  - apply Forall_forall. intros r Hr. apply repeat_spec in Hr. subst r.
    eexists. vm_compute. reflexivity.
  - vm_compute. reflexivity.
Defined.

Lemma test_predictor_small_table_witness :
  Learn.test_predictor Toy.permutation Toy.train Toy.forward Toy.get_training_set
    Evaluator.auc_score "H-2-Kb" Toy.one_hot Toy.world1
  = (inl Py.ValueError, Toy.world1).
Proof.
  apply (@test_predictor_small_table Toy.RNG Toy.permutation Toy.W Toy.train
           Toy.forward Toy.get_training_set Evaluator.auc_score
           "H-2-Kb" Toy.one_hot Toy.world1 Toy.world1 []).
  - cbn. lia.
  - reflexivity.
Defined.

(** ** The mean over the three rounds *)

Section RoundsMean.

Import Np Learn.

Variable RNG : Type.
Variable permutation : nat -> RNG -> list nat * RNG.
Variable W : Type.
Variable train : Hyper -> Array -> list Q -> W.
Variable forward : W -> list Q -> Q.
Variable get_training_set : string -> nat -> list AffinityRecord.
Variable ep_auc_score : list Q -> list Q -> Q -> Py.result pyfloat.

(** The generator's permutations are permutations of the row numbers. *)
Hypothesis permutation_spec :
  forall n g, Permutation (fst (permutation n g)) (seq 0 n).

(** The value of [test_predictor] on a table of at least two records
    whose encodings have one length [m >= 1] (so that every fit and every
    prediction passes the validation), when the three rounds return the
    scores [a1], [a2] and [a3]: NaN as soon as one of them is NaN (one
    round whose held-out part the scorer cannot rank spoils the mean), and
    otherwise a third of their sum. *)
Theorem test_predictor_mean
    (allele : string) (encoder : Encoder_fn RNG) (w0 w1 : World RNG)
    (A : Array) (m : nat)
    (p1 p2 p3 : list nat) (g1 g2 g3 : RNG) (a1 a2 a3 : pyfloat) :
  let df := get_training_set allele 9 in
  let y := map log50k df in
  let n := length df in
  encode_rows encoder df w0 = (inr A, w1) ->
  uniform m A -> (1 <= m)%nat ->
  (2 <= n)%nat ->
  permutation n (rng w1) = (p1, g1) ->
  permutation n g1 = (p2, g2) ->
  permutation n g2 = (p3, g3) ->
  round_auc train forward ep_auc_score A y p1 = inr a1 ->
  round_auc train forward ep_auc_score A y p2 = inr a2 ->
  round_auc train forward ep_auc_score A y p3 = inr a3 ->
  exists r,
    fst (test_predictor permutation train forward get_training_set ep_auc_score
           allele encoder w0) = inr r
    /\ (In NaN [a1; a2; a3] -> r = NaN)
    /\ (forall q1 q2 q3, a1 = Fin q1 -> a2 = Fin q2 -> a3 = Fin q3 ->
        same_float r (Fin ((q1 + q2 + q3) / 3))).
Proof.
  intros df y n Henc Hu Hm Hn H1 H2 H3 A1 A2 A3.
  exists (mean [a1; a2; a3]). split.
  - rewrite (@test_predictor_run RNG permutation W train forward
               get_training_set ep_auc_score permutation_spec
               allele encoder w0 w1 A m p1 p2 p3 g1 g2 g3
               a1 a2 a3 Henc Hu Hm Hn H1 H2 H3 A1 A2 A3).
    reflexivity.
  - split.
    + intros Hnan. unfold mean, fsum. cbn [fold_left length].
      destruct a1, a2, a3; cbn [fadd fdiv]; try reflexivity.
      cbn [In] in Hnan. destruct Hnan as [H|[H|[H|[]]]]; discriminate H.
    + intros q1 q2 q3 -> -> ->. unfold mean, fsum.
      cbn [fold_left length fadd fdiv].
      change (Qeq_bool (inject_Z (Z.of_nat 3)) 0) with false.
      cbn [same_float]. change (inject_Z (Z.of_nat 3)) with 3%Q. field.
Qed.

End RoundsMean.

Lemma test_predictor_mean_witness :
  exists r,
    fst (Learn.test_predictor Toy.permutation Toy.train Toy.forward
           Toy.get_training_set Evaluator.auc_score "HLA-A*03:01" Toy.one_hot
           Toy.world1) = inr r
    /\ Np.same_float r (Np.Fin (2 # 3)).
Proof.
  pose (A := match fst (Learn.encode_rows Toy.one_hot Toy.four Toy.world1) with
             | inr A => A
             | inl _ => []
             end).
  pose (p := fun g : nat => fst (Toy.permutation 4 g)).
  pose (a := fun g : nat =>
               match Learn.round_auc Toy.train Toy.forward Evaluator.auc_score
                       A (map Learn.log50k Toy.four) (p g) with
               | inr v => v
               | inl _ => Np.NaN
               end).
  edestruct (@test_predictor_mean Toy.RNG Toy.permutation Toy.W Toy.train
               Toy.forward Toy.get_training_set Evaluator.auc_score
               toy_permutation_spec
               "HLA-A*03:01" Toy.one_hot Toy.world1 Toy.world1 A 180%nat
               (p 1%nat) (p 2%nat) (p 3%nat) 2%nat 3%nat 4%nat
               (a 1%nat) (a 2%nat) (a 3%nat))
    as (r & Hr & _ & Hfin);
    [ vm_compute; reflexivity
    | apply uniform_check; vm_compute; reflexivity
    | lia
    | vm_compute; lia
    | vm_compute; reflexivity | vm_compute; reflexivity | vm_compute; reflexivity
    | vm_compute; reflexivity | vm_compute; reflexivity | vm_compute; reflexivity | ].
  exists r. split; [exact Hr|].
  vm_compute in Hr. injection Hr as <-. vm_compute. reflexivity.
Defined.

(** ** Training and saving the models *)

Section DiskFacts.

Import Np Learn Bench.

Variable RNG : Type.
Variable W : Type.
Variable train : Hyper -> Array -> list Q -> W.
Variable get_training_set : string -> nat -> list AffinityRecord.
Variable blosum : Encoder.Table Z.
Variable nlf : Encoder.Table Q.

Local Abbreviation enc := (@blosum_encoder RNG blosum).
Local Abbreviation accepted :=
  (fun r => exists v, Encoder.blosum_encode blosum (peptide r) = inr v).
(** The table of an allele can be fitted: every peptide is accepted and
    the codes all have one length, which is not zero. *)
Local Abbreviation ready :=
  (fun a : string =>
     Forall accepted (get_training_set a 9)
     /\ exists m, (1 <= m)%nat /\ uniform m (encoded get_training_set blosum a)).

Lemma encode_rows_accepted (df : list AffinityRecord) (w : World RNG) :
  Forall accepted df ->
  encode_rows enc df w
  = (inr (map (fun r => match Encoder.blosum_encode blosum (peptide r) with
                        | inr v => map inject_Z v
                        | inl _ => []
                        end) df), w).
Proof.
  unfold encode_rows. induction 1 as [|r t [v Hr] Ht IH]; [reflexivity|].
  cbn [map Rt.mapM]. unfold Rt.bind at 1.
  unfold blosum_encoder at 1, pure_encoder at 1, Rt.lift. rewrite Hr.
  cbn [Py.bind Py.ret]. unfold Py.ret. unfold Rt.bind at 1. rewrite IH.
  reflexivity.
Qed.

Lemma build_predictor_blosum (a : string) (w : World RNG) :
  (large get_training_set a = true -> ready a) ->
  build_predictor train get_training_set (@nlf_encoder RNG nlf) a (Some enc) 9 w
  = if large get_training_set a
    then (inr (Some (fitted train get_training_set blosum a)),
          mkWorld (rng w)
            (fits w ++ [(encoded get_training_set blosum a,
                         map log50k (get_training_set a 9))]))
    else (inr None, w).
Proof.
  intros Hready. unfold build_predictor, large in *.
  destruct (Nat.ltb_spec (length (get_training_set a 9)) 100) as [L|L];
    cbn [negb] in *; [reflexivity|].
  destruct (Hready eq_refl) as [Hacc [m [Hm Hu]]].
  assert (Hne : encoded get_training_set blosum a <> []).
  { intros E. apply (f_equal (@length _)) in E. unfold encoded in E.
    rewrite length_map in E. cbn [length] in E. lia. }
  unfold Rt.bind at 1.
  rewrite (encode_all_rows _ _ _ (encode_rows_accepted w Hacc)).
  fold (encoded get_training_set blosum a).
  rewrite (DataFrame_of_rows_uniform Hu).
  unfold Rt.bind at 1.
  rewrite (@fit_frame RNG W train m _ _ (map log50k (get_training_set a 9)) w
             Hne Hu Hm)
    by (unfold encoded; now rewrite !length_map).
  unfold fitted. rewrite (hd_uniform Hne Hu). reflexivity.
Qed.

Lemma read_file_cons (d : Disk W) (fname p : string) (reg : MLPRegressor W) :
  read_file (mkDisk (dirs d) ((p, reg) :: files d)) fname
  = if String.eqb fname p then Some reg else read_file d fname.
Proof.
  unfold read_file. cbn [files find fst snd].
  now destruct (String.eqb fname p).
Qed.

(** One pass of the loop of [train_models] for an allele whose peptides
    the encoder accepts when they are needed, and whose file name is not
    taken by a directory. *)
Lemma train_each_step (path a : string) (rest : list string)
    (w : World RNG) (d : Disk W) :
  (large get_training_set a = true -> ready a) ->
  is_dir d (model_path path a) = false ->
  train_each train get_training_set blosum nlf path (a :: rest) w d
  = if large get_training_set a
    then train_each train get_training_set blosum nlf path rest
           (mkWorld (rng w)
              (fits w ++ [(encoded get_training_set blosum a,
                           map log50k (get_training_set a 9))]))
           (mkDisk (dirs d)
              ((model_path path a, fitted train get_training_set blosum a)
               :: files d))
    else train_each train get_training_set blosum nlf path rest w d.
Proof.
  intros Hacc Hdir. cbn [train_each].
  rewrite (build_predictor_blosum w Hacc).
  destruct (large get_training_set a); [|reflexivity].
  unfold dump. rewrite Hdir. reflexivity.
Qed.

(** [train_models] when a regular file is in the way of the directory:
    [FileExistsError], nothing is trained and nothing is written.
    Otherwise, when the two file names are free of directories and, for
    every table of at least 100 records, the encoder accepts the peptides
    and gives codes of one length that is not zero (so that the fit
    passes the validation): the run returns, the directory [models] is there, each of the two
    alleles with such a table has been fitted once, in order, on its whole
    encoded table, and its file holds that regressor; the file of an
    allele with a smaller table and every other file are as before, and
    no random number is drawn. *)
Theorem train_models_outcome (w : World RNG) (d : Disk W) :
  let alleles := ["HLA-A*02:01"%string; "HLA-A*02:02"%string] in
  (read_file d "models" <> None ->
   train_models train get_training_set blosum nlf w d = (inl FileExistsError, w, d))
  /\ (read_file d "models" = None ->
      (forall a, In a alleles -> is_dir d (model_path "models" a) = false) ->
      (forall a, In a alleles -> large get_training_set a = true -> ready a) ->
      exists w' d',
        train_models train get_training_set blosum nlf w d = (inr tt, w', d')
        /\ rng w' = rng w
        /\ fits w'
           = fits w
             ++ flat_map (fun a => if large get_training_set a
                                   then [(encoded get_training_set blosum a,
                                          map log50k (get_training_set a 9))]
                                   else []) alleles
        /\ (forall p, is_dir d' p = String.eqb p "models" || is_dir d p)
        /\ (forall a, In a alleles ->
              read_file d' (model_path "models" a)
              = if large get_training_set a
                then Some (fitted train get_training_set blosum a)
                else read_file d (model_path "models" a))
        /\ (forall fname, ~ In fname (map (model_path "models") alleles) ->
              read_file d' fname = read_file d fname)).
Proof.
  intros alleles. split.
  - intros Hf. unfold train_models, makedirs.
    destruct (read_file d "models"); [reflexivity | congruence].
  - intros Hf Hdirs Hacc. unfold train_models, makedirs. rewrite Hf.
    set (d1 := if is_dir d "models" then d
               else mkDisk ("models"%string :: dirs d) (files d)).
    assert (Hd1 : (if is_dir d "models" then inr d
                   else inr (mkDisk ("models"%string :: dirs d) (files d)))
                  = (inr d1 : exn + Disk W)).
    { unfold d1. now destruct (is_dir d "models"). }
    rewrite Hd1. clear Hd1.
    assert (Hfiles : files d1 = files d).
    { unfold d1. now destruct (is_dir d "models"). }
    assert (Hisdir : forall p, is_dir d1 p = String.eqb p "models" || is_dir d p).
    { intros p. unfold d1. destruct (is_dir d "models") eqn:E.
      - destruct (String.eqb_spec p "models") as [->|_]; [now rewrite E | reflexivity].
      - reflexivity. }
    assert (Hread : forall p, read_file d1 p = read_file d p).
    { intros p. unfold read_file. now rewrite Hfiles. }
    assert (H1 : is_dir d (model_path "models" "HLA-A*02:01") = false)
      by (apply Hdirs; cbn; tauto).
    assert (H2 : is_dir d (model_path "models" "HLA-A*02:02") = false)
      by (apply Hdirs; cbn; tauto).
    pose proof (Hacc "HLA-A*02:01"%string ltac:(cbn; tauto)) as A1.
    pose proof (Hacc "HLA-A*02:02"%string ltac:(cbn; tauto)) as A2.
    unfold alleles.
    rewrite train_each_step; [|exact A1 | rewrite Hisdir, H1; reflexivity].
    destruct (large get_training_set "HLA-A*02:01") eqn:L1;
      (rewrite train_each_step;
       [|exact A2 | unfold is_dir in *; cbn [dirs]; rewrite Hisdir, H2; reflexivity]);
      destruct (large get_training_set "HLA-A*02:02") eqn:L2;
      cbn [train_each]; do 2 eexists; (split; [reflexivity|]);
      cbn [rng fits flat_map app]; rewrite ?L1, ?L2, <- ?app_assoc;
      (split; [reflexivity|]); (split; [cbn [app]; now rewrite ?app_nil_r|]);
      (split; [intros p; apply Hisdir|]);
      (split;
       [ intros a Ha; cbn [In] in Ha; destruct Ha as [<-|[<-|[]]];
         rewrite ?L1, ?L2;
         repeat (rewrite read_file_cons; cbn [dirs files]);
         rewrite ?Hread; reflexivity
       | intros fname Hn; cbn [map In] in Hn;
         repeat (rewrite read_file_cons; cbn [dirs files]);
         rewrite ?Hread;
         repeat match goal with
                | |- context [String.eqb fname ?p] =>
                    destruct (String.eqb_spec fname p) as [->|_];
                    [exfalso; apply Hn; tauto|]
                end; reflexivity ]).
Qed.

End DiskFacts.

Lemma train_models_outcome_witness :
  Bench.train_models Toy.train Toy.get_training_set Blosum62.blosum62
    (TableFacts.constant_table 19 (1 # 2)) Toy.world1
    (Bench.mkDisk [] [("models"%string, Learn.mkReg Learn.notebook_hyper None 0)])
  = (inl Bench.FileExistsError, Toy.world1,
     Bench.mkDisk [] [("models"%string, Learn.mkReg Learn.notebook_hyper None 0)])
  /\ exists w' d',
       Bench.train_models Toy.train Toy.get_training_set Blosum62.blosum62
         (TableFacts.constant_table 19 (1 # 2)) Toy.world1 (Bench.mkDisk [] [])
       = (inr tt, w', d')
       /\ Bench.read_file d' "models/HLA-A*02:01.joblib"
          = Some (Bench.fitted Toy.train Toy.get_training_set Blosum62.blosum62
                    "HLA-A*02:01")
       /\ Bench.read_file d' "models/HLA-A*02:02.joblib" = None.
Proof.
  split.
  - apply (@train_models_outcome Toy.RNG Toy.W Toy.train Toy.get_training_set
             Blosum62.blosum62 (TableFacts.constant_table 19 (1 # 2)) Toy.world1
             (Bench.mkDisk [] [("models"%string,
                                Learn.mkReg Learn.notebook_hyper None 0)])).
    discriminate.
  - destruct (@train_models_outcome Toy.RNG Toy.W Toy.train Toy.get_training_set
                Blosum62.blosum62 (TableFacts.constant_table 19 (1 # 2))
                Toy.world1 (Bench.mkDisk [] [])) as [_ Hok].
    destruct Hok as (w' & d' & E & _ & _ & _ & Hread & _).
    + reflexivity.
    + intros a _. reflexivity.
    + intros a Ha Hl. cbn [In] in Ha. destruct Ha as [<-|[<-|[]]].
      * split.
        -- apply Forall_forall. intros r Hr. apply repeat_spec in Hr. subst r.
           eexists. vm_compute. reflexivity.
        -- exists 180%nat. split; [lia|].
           apply uniform_check. vm_compute. reflexivity.
      * discriminate Hl.
    + exists w', d'. split; [exact E|]. split.
      * exact (Hread "HLA-A*02:01"%string (or_introl eq_refl)).
      * exact (Hread "HLA-A*02:02"%string (or_intror (or_introl eq_refl))).
Defined.

(** ** The alleles with enough training data *)

Section SortedBy.

Context {A : Type} (leb : A -> A -> bool).

Hypothesis leb_total : forall a b, leb a b = true \/ leb b a = true.
Hypothesis leb_trans : forall a b c, leb a b = true -> leb b c = true -> leb a c = true.

Lemma insert_by_sorted (x : A) (l : list A) :
  StronglySorted (fun a b => leb a b = true) l ->
  StronglySorted (fun a b => leb a b = true) (insert_by leb x l).
Proof.
  induction 1 as [|y t Ht IH Hy]; [repeat constructor|].
  cbn [insert_by]. destruct (leb x y) eqn:E.
  - constructor; [now constructor|].
    constructor; [assumption|].
    rewrite Forall_forall in *. intros z Hz. exact (leb_trans E (Hy z Hz)).
  - constructor; [assumption|].
    apply Forall_forall. intros z Hz.
    apply (Permutation_in _ (insert_by_perm leb x t)) in Hz.
    destruct Hz as [<-|Hz].
    + destruct (leb_total x y) as [H|H]; [congruence | assumption].
    + rewrite Forall_forall in Hy. now apply Hy.
Qed.

Lemma sort_by_sorted (l : list A) :
  StronglySorted (fun a b => leb a b = true) (sort_by leb l).
Proof.
  induction l as [|x t IH]; [constructor|].
  cbn [sort_by fold_right]. now apply insert_by_sorted.
Qed.

End SortedBy.

Section AlleleNames.

Import Learn Bench.

Lemma filter_sorted {A : Type} (R : A -> A -> Prop) (p : A -> bool) (l : list A) :
  StronglySorted R l -> StronglySorted R (filter p l).
Proof.
  induction 1 as [|x t Ht IH Hx]; [constructor|].
  cbn [filter]. destruct (p x); [|assumption].
  constructor; [assumption|].
  rewrite Forall_forall in *. intros y Hy. apply filter_In in Hy. now apply Hx.
Qed.

Lemma sorted_weaken {A : Type} (R R' : A -> A -> Prop) (l : list A) :
  (forall x y, R x y -> R' x y) -> StronglySorted R l -> StronglySorted R' l.
Proof.
  intros HR. induction 1 as [|x t Ht IH Hx]; [constructor|].
  constructor; [assumption|].
  rewrite Forall_forall in *. intros y Hy. now apply HR, Hx.
Qed.

Lemma map_fst_filter_NoDup {A B : Type} (p : A * B -> bool) (l : list (A * B)) :
  NoDup (map fst l) -> NoDup (map fst (filter p l)).
Proof.
  induction l as [|x t IH]; intros H; [constructor|].
  cbn [map] in H. inversion H as [|? ? Hx Ht]; subst.
  cbn [filter]. destruct (p x); [|now apply IH].
  cbn [map]. constructor; [|now apply IH].
  intros Hin. apply Hx. apply in_map_iff in Hin.
  destruct Hin as [y [Ey Hy]]. apply filter_In in Hy.
  apply in_map_iff. exists y. tauto.
Qed.

Lemma value_counts_In (l : list string) (a : string) (n : nat) :
  In (a, n) (value_counts l) <-> In a l /\ n = count_occ string_dec l a.
Proof.
  unfold value_counts. rewrite sort_by_In, in_map_iff. split.
  - intros [b [E Hb]]. inversion E; subst. unfold first_seen in Hb.
    apply <- in_rev in Hb. apply nodup_In in Hb. apply <- in_rev in Hb. tauto.
  - intros [Ha ->]. exists a. split; [reflexivity|]. unfold first_seen.
    apply -> in_rev. apply nodup_In. now apply -> in_rev.
Qed.

(** [get_allele_names] lists every allele with more than 200 records in
    the table, each once, the better covered alleles first; the order
    among alleles with the same number of records plays no role in the
    statement. *)
Theorem get_allele_names_spec (d : list AffinityRecord) :
  let count := count_occ string_dec (map allele d) in
  NoDup (get_allele_names d)
  /\ (forall a, In a (get_allele_names d) <-> (200 < count a)%nat)
  /\ StronglySorted (fun a b => (count b <= count a)%nat) (get_allele_names d).
Proof.
  intros count. unfold get_allele_names.
  set (l := map allele d). fold l in count.
  split; [|split].
  - apply map_fst_filter_NoDup.
    apply (Permutation_NoDup (l := first_seen l));
      [|unfold first_seen; apply NoDup_rev, NoDup_nodup].
    apply Permutation_sym. unfold value_counts.
    rewrite (Permutation_map fst (sort_by_perm _ _)).
    rewrite map_map. cbn [fst]. now rewrite map_id.
  - intros a. rewrite in_map_iff. split.
    + intros [[b n] [E Hb]]. cbn [fst] in E. subst b.
      apply filter_In in Hb. destruct Hb as [Hin Hn]. cbn [snd] in Hn.
      apply value_counts_In in Hin. destruct Hin as [_ ->].
      now apply Nat.ltb_lt in Hn.
    + intros Hc. exists (a, count a). split; [reflexivity|].
      apply filter_In. split; [|now apply Nat.ltb_lt].
      apply value_counts_In. split; [|reflexivity].
      apply (count_occ_In string_dec). unfold count in Hc. lia.
  - assert (HS : StronglySorted (fun x y : string * nat => (snd y <= snd x)%nat)
                   (filter (fun vn : string * nat => (200 <? snd vn)%nat)
                      (value_counts l))).
    { apply filter_sorted. unfold value_counts.
      eapply sorted_weaken;
        [|apply (sort_by_sorted (fun a b : string * nat => (snd b <=? snd a)%nat))].
      - intros x y H. now apply Nat.leb_le.
      - intros x y. destruct (Nat.le_ge_cases (snd x) (snd y)) as [H|H].
        + right. now apply Nat.leb_le.
        + left. now apply Nat.leb_le.
      - intros x y z H1 H2. apply Nat.leb_le in H1, H2. apply Nat.leb_le. lia. }
    assert (HC : Forall (fun vn : string * nat => snd vn = count (fst vn))
                   (filter (fun vn : string * nat => (200 <? snd vn)%nat)
                      (value_counts l))).
    { apply Forall_forall. intros [b n] Hb. apply filter_In in Hb.
      destruct Hb as [Hb _]. apply value_counts_In in Hb. now destruct Hb. }
    revert HS HC.
    generalize (filter (fun vn : string * nat => (200 <? snd vn)%nat)
                  (value_counts l)).
    intros L HS. induction HS as [|x t Ht IH Hx]; intros HC; [constructor|].
    inversion HC as [|? ? Cx Ct]; subst. cbn [map].
    constructor; [now apply IH|].
    apply Forall_forall. intros b Hb. apply in_map_iff in Hb.
    destruct Hb as [y [<- Hy]]. rewrite Forall_forall in Hx, Ct.
    rewrite <- Cx, <- (Ct y Hy). now apply Hx.
Qed.

(** Alleles with the same number of records come out in the order of
    their first appearance in the table. *)
Lemma value_counts_ties :
  value_counts ["B"; "A"; "C"; "A"; "B"; "C"; "C"]%string
  = [("C", 3); ("B", 2); ("A", 2)]%string%nat.
Proof. reflexivity. Qed.

End AlleleNames.

(** ** The benchmark *)

Section BenchFacts.

Import Np Learn Bench Evaluator.

Variable P : Type.
Variable name : P -> string.
Variable get_evaluation_set2 : string -> nat -> list AffinityRecord.
Variable get_scores : P -> string -> list string -> Py.result (list (string * Q)).

Local Abbreviation evaluate := (evaluate_predictor get_evaluation_set2 get_scores).
Local Abbreviation rows := (rows_of get_evaluation_set2 get_scores).
Local Abbreviation keep := (fun a : string => negb (existsb (String.eqb a) omit)).

Lemma merge_on_peptide_empty (data : list AffinityRecord) (x : list (string * Q)) :
  merge_on_peptide data x = []
  <-> forall r ps, In r data -> In ps x -> peptide r <> fst ps.
Proof.
  unfold merge_on_peptide. split.
  - intros E r ps Hr Hps Heq.
    assert (H : In (ic50 r, snd ps)
                  (flat_map
                     (fun r0 => map (fun ps0 : string * Q => (ic50 r0, snd ps0))
                                  (filter (fun ps0 => String.eqb (peptide r0) (fst ps0)) x))
                     data)).
    { apply in_flat_map. exists r. split; [assumption|].
      apply in_map_iff. exists ps. split; [reflexivity|].
      apply filter_In. split; [assumption|]. now apply String.eqb_eq. }
    rewrite E in H. exact H.
  - intros H.
    destruct (flat_map
                (fun r0 => map (fun ps0 : string * Q => (ic50 r0, snd ps0))
                             (filter (fun ps0 => String.eqb (peptide r0) (fst ps0)) x))
                data) as [|row rest] eqn:E; [reflexivity|].
    exfalso.
    assert (Hin : In row (row :: rest)) by now left.
    rewrite <- E in Hin. apply in_flat_map in Hin.
    destruct Hin as [r [Hr Hrow]]. apply in_map_iff in Hrow.
    destruct Hrow as [ps [_ Hps]]. apply filter_In in Hps.
    destruct Hps as [Hps Heq]. apply String.eqb_eq in Heq.
    exact (H r ps Hr Hps Heq).
Qed.

(** [evaluate_predictor] passes on an error of the predictor; when the
    predictor answers, it raises [IndexError] if no scored peptide is a
    peptide of the evaluation set, and otherwise returns a score together
    with the evaluation set as it was read (not the merged table). *)
Theorem evaluate_predictor_outcome (Pr : P) (allele : string) :
  let data := get_evaluation_set2 allele 9 in
  (forall e, get_scores Pr allele (map peptide data) = inl e ->
             evaluate Pr allele = inl e)
  /\ (forall x, get_scores Pr allele (map peptide data) = inr x ->
        ((forall r ps, In r data -> In ps x -> peptide r <> fst ps) ->
         evaluate Pr allele = inl Py.IndexError)
        /\ ((exists r ps, In r data /\ In ps x /\ peptide r = fst ps) ->
            exists auc, evaluate Pr allele = inr (auc, data))).
Proof.
  intros data. unfold evaluate_predictor. fold data. split.
  - intros e He. now rewrite He.
  - intros x Hx. rewrite Hx. cbn [Py.bind]. split.
    + intros Hno. apply merge_on_peptide_empty in Hno. rewrite Hno. reflexivity.
    + intros (r & ps & Hr & Hps & Heq).
      assert (Hne : map fst (merge_on_peptide data x) <> []).
      { intros E. apply map_eq_nil in E.
        exact (proj1 (merge_on_peptide_empty data x) E r ps Hr Hps Heq). }
      destruct (@auc_score_defined (map fst (merge_on_peptide data x))
                  (map snd (merge_on_peptide data x)) (500 # 1) Hne)
        as (fpr & tpr & _ & H & _); [now rewrite !length_map|].
      rewrite H. eexists. reflexivity.
Qed.

Lemma score_alleles_bound (Pr : P) (l : list string) (m : list Row) (v : pyfloat) :
  exists v',
    score_alleles get_evaluation_set2 get_scores Pr l m (Some v)
    = inr (m ++ rows Pr (filter keep l), Some v').
Proof.
  revert m v. induction l as [|a t IH]; intros m v.
  - exists v. cbn [score_alleles filter rows_of flat_map]. now rewrite app_nil_r.
  - cbn [score_alleles filter].
    destruct (existsb (String.eqb a) omit); cbn [negb]; [apply IH|].
    unfold rows_of. cbn [flat_map]. fold (rows Pr (filter keep t)).
    destruct (evaluate Pr a) as [e|[v2 df]].
    + cbn [app]. apply IH.
    + destruct (IH (m ++ [(a, v2, length df)]) v2) as [v' Hv'].
      exists v'. rewrite Hv', <- app_assoc. reflexivity.
Qed.

Lemma score_alleles_unbound (Pr : P) (l : list string) (m : list Row) :
  match filter keep l with
  | [] => score_alleles get_evaluation_set2 get_scores Pr l m None = inr (m, None)
  | a :: _ =>
      match evaluate Pr a with
      | inl _ =>
          score_alleles get_evaluation_set2 get_scores Pr l m None
          = inl UnboundLocalError
      | inr _ =>
          exists v',
            score_alleles get_evaluation_set2 get_scores Pr l m None
            = inr (m ++ rows Pr (filter keep l), Some v')
      end
  end.
Proof.
  induction l as [|a t IH]; [reflexivity|].
  cbn [score_alleles filter].
  destruct (existsb (String.eqb a) omit); cbn [negb]; [exact IH|].
  unfold rows_of. cbn [flat_map]. fold (rows Pr (filter keep t)).
  destruct (evaluate Pr a) as [e|[v2 df]]; [reflexivity|].
  destruct (score_alleles_bound Pr t (m ++ [(a, v2, length df)]) v2) as [v' Hv'].
  exists v'. rewrite Hv', <- app_assoc. reflexivity.
Qed.

Lemma score_predictors_bound (preds : list P) (l : list string)
    (comp : list (string * list Row)) (v : pyfloat) :
  score_predictors name get_evaluation_set2 get_scores preds l comp (Some v)
  = inr (comp ++ map (fun Pr => (name Pr, rows Pr (filter keep l))) preds).
Proof.
  revert comp v. induction preds as [|Pr rest IH]; intros comp v.
  - cbn [score_predictors map]. now rewrite app_nil_r.
  - cbn [score_predictors map].
    destruct (score_alleles_bound Pr l [] v) as [v' Hv']. rewrite Hv'.
    cbn [app]. rewrite IH, <- app_assoc. reflexivity.
Qed.

Lemma score_predictors_nothing_tried (preds : list P) (l : list string)
    (comp : list (string * list Row)) :
  filter keep l = [] ->
  score_predictors name get_evaluation_set2 get_scores preds l comp None
  = inr (comp ++ map (fun Pr => (name Pr, rows Pr (filter keep l))) preds).
Proof.
  intros E. revert comp. induction preds as [|Pr rest IH]; intros comp.
  - cbn [score_predictors map]. now rewrite app_nil_r.
  - cbn [score_predictors map].
    pose proof (score_alleles_unbound Pr l []) as H. rewrite E in H.
    rewrite H, IH, E, <- app_assoc. reflexivity.
Qed.

(** [run_tests] tries the first five allele names except [H-2-Kb].  When
    the first predictor fails on the first allele it tries, the run stops
    with [UnboundLocalError]: the line that prints the score runs after
    the handler, and no score has been bound yet.  In every other case
    the run returns one table per predictor, in order, under the
    predictor's name, with one row for each tried allele on which the
    evaluation returned, and none for those on which it raised. *)
Theorem run_tests_outcome (preds : list P) (allele_names : list string) :
  let table := map (fun Pr => (name Pr, rows Pr (tried allele_names))) preds in
  (preds = [] \/ tried allele_names = [] ->
   run_tests name get_evaluation_set2 get_scores preds allele_names = inr table)
  /\ (forall Pr rest a t,
        preds = Pr :: rest -> tried allele_names = a :: t ->
        (forall e, evaluate Pr a = inl e ->
           run_tests name get_evaluation_set2 get_scores preds allele_names
           = inl UnboundLocalError)
        /\ (forall r, evaluate Pr a = inr r ->
              run_tests name get_evaluation_set2 get_scores preds allele_names
              = inr table)).
Proof.
  intros table. unfold run_tests, table, tried. split.
  - intros [->|E]; [reflexivity|].
    now rewrite (score_predictors_nothing_tried preds _ [] E).
  - intros Pr rest a t -> E.
    pose proof (score_alleles_unbound Pr (firstn 5 allele_names) []) as H.
    rewrite E in H. cbn [score_predictors]. split.
    + intros e He. rewrite He in H. now rewrite H.
    + intros r Hr. rewrite Hr in H. destruct H as [v' Hv'].
      rewrite Hv', E. cbn [app map].
      rewrite score_predictors_bound, E. reflexivity.
Qed.

End BenchFacts.

Lemma evaluate_predictor_outcome_witness :
  (exists auc,
     Bench.evaluate_predictor Toy.get_training_set ToyBench.get_scores
       true "HLA-A*03:01" = inr (auc, Toy.four))
  /\ Bench.evaluate_predictor Toy.get_training_set ToyBench.get_scores
       true "HLA-B*07:02" = inl Py.IndexError
  /\ Bench.evaluate_predictor Toy.get_training_set ToyBench.get_scores
       false "HLA-A*03:01" = inl Py.KeyError.
Proof.
  destruct (@evaluate_predictor_outcome ToyBench.P Toy.get_training_set
              ToyBench.get_scores true "HLA-A*03:01") as [_ Hok].
  destruct (@evaluate_predictor_outcome ToyBench.P Toy.get_training_set
              ToyBench.get_scores true "HLA-B*07:02") as [_ Hnone].
  destruct (@evaluate_predictor_outcome ToyBench.P Toy.get_training_set
              ToyBench.get_scores false "HLA-A*03:01") as [Herr _].
  split; [|split].
  - apply (Hok _ eq_refl).
    exists (Learn.mkRecord "HLA-A*03:01" "ALDFEQEMT" (5743 # 1) 9 (2 # 10)).
    exists ("ALDFEQEMT"%string, 100 # 1).
    split; [cbn; tauto|]. split; [cbn; tauto | reflexivity].
  - apply (Hnone _ eq_refl). intros r ps Hr. exact (False_ind _ Hr).
  - apply Herr. reflexivity.
Defined.

Lemma run_tests_outcome_witness :
  Bench.run_tests ToyBench.name Toy.get_training_set ToyBench.get_scores
    [true; false] ToyBench.allele_names
  = inr [("basicmhc1"%string,
          Bench.rows_of Toy.get_training_set ToyBench.get_scores true
            ["HLA-A*03:01"%string; "HLA-B*07:02"%string]);
         ("netmhcpan"%string, [])]
  /\ Bench.run_tests ToyBench.name Toy.get_training_set ToyBench.get_scores
       [false; true] ToyBench.allele_names
     = inl Bench.UnboundLocalError.
Proof.
  destruct (@run_tests_outcome ToyBench.P ToyBench.name Toy.get_training_set
              ToyBench.get_scores [true; false] ToyBench.allele_names)
    as [_ H1].
  destruct (@run_tests_outcome ToyBench.P ToyBench.name Toy.get_training_set
              ToyBench.get_scores [false; true] ToyBench.allele_names)
    as [_ H2].
  split.
  - destruct (H1 true [false] "HLA-A*03:01"%string ["HLA-B*07:02"%string]
                eq_refl eq_refl) as [_ Hok].
    destruct (Bench.evaluate_predictor Toy.get_training_set ToyBench.get_scores
                true "HLA-A*03:01") as [e|r] eqn:E;
      [vm_compute in E; discriminate E|].
    exact (Hok r eq_refl).
  - destruct (H2 false [true] "HLA-A*03:01"%string ["HLA-B*07:02"%string]
                eq_refl eq_refl) as [Hun _].
    exact (Hun Py.KeyError eq_refl).
Defined.

(** ** Highlighting the best score *)

Section StylingFacts.

Import Np Styling.

Local Abbreviation pick :=
  (fun m v : pyfloat =>
     match m, v with
     | NaN, _ => v
     | _, NaN => m
     | Fin a, Fin b => if Qle_bool a b then Fin b else Fin a
     end).

Lemma pick_cases (acc v : pyfloat) :
  (pick acc v = acc \/ pick acc v = v)
  /\ (pick acc v = NaN -> acc = NaN /\ v = NaN)
  /\ (forall p, acc = Fin p \/ v = Fin p ->
        exists p', pick acc v = Fin p' /\ (p <= p')%Q).
Proof.
  destruct acc as [a|], v as [b|]; cbn.
  - destruct (Qle_bool a b) eqn:E.
    + split; [now right|]. split; [discriminate|].
      intros p [H|H]; injection H as <-; exists b; (split; [reflexivity|]).
      * now apply Qle_bool_iff.
      * apply Qle_refl.
    + split; [now left|]. split; [discriminate|].
      intros p [H|H]; injection H as <-; exists a; (split; [reflexivity|]).
      * apply Qle_refl.
      * destruct (Qlt_le_dec a b) as [L|L]; [|assumption].
        apply Qlt_le_weak in L. apply Qle_bool_iff in L. congruence.
  - split; [now left|]. split; [discriminate|].
    intros p [H|H]; [|discriminate H]. injection H as <-.
    exists a. split; [reflexivity | apply Qle_refl].
  - split; [now right|]. split; [discriminate|].
    intros p [H|H]; [discriminate H|]. injection H as <-.
    exists b. split; [reflexivity | apply Qle_refl].
  - split; [now left|]. split; [tauto|].
    intros p [H|H]; discriminate H.
Qed.

Lemma fold_max_spec (s : list pyfloat) (acc : pyfloat) :
  match fold_left pick s acc with
  | NaN => acc = NaN /\ Forall (eq NaN) s
  | Fin m => (acc = Fin m \/ In (Fin m) s)
             /\ (forall p, acc = Fin p \/ In (Fin p) s -> (p <= m)%Q)
  end.
Proof.
  revert acc. induction s as [|v t IH]; intros acc.
  - cbn [fold_left]. destruct acc as [m|].
    + split; [now left|]. intros p [H|[]]. inversion H. apply Qle_refl.
    + split; [reflexivity | constructor].
  - cbn [fold_left]. specialize (IH (pick acc v)).
    destruct (pick_cases acc v) as (Hsel & Hnan & Hup).
    destruct (fold_left pick t (pick acc v)) as [m|].
    + destruct IH as [Hm Hle]. split.
      * destruct Hm as [Hm|Hm]; [|right; now right].
        destruct Hsel as [E|E]; rewrite E in Hm; [now left | right; now left].
      * intros p Hp.
        assert (Hp' : (acc = Fin p \/ v = Fin p) \/ In (Fin p) t).
        { destruct Hp as [Hp|[Hp|Hp]]; [left; now left | left; now right | now right]. }
        destruct Hp' as [Hp'|Hp'].
        -- destruct (Hup p Hp') as [p' [E Hpp']].
           apply (Qle_trans _ p'); [assumption|]. apply Hle. now left.
        -- apply Hle. now right.
    + destruct IH as [Hacc Hall]. destruct (Hnan Hacc) as [-> ->].
      split; [reflexivity | now constructor].
Qed.

Lemma feq_true (a b : pyfloat) :
  feq a b = true <-> exists p q, a = Fin p /\ b = Fin q /\ (p == q)%Q.
Proof.
  destruct a as [p|], b as [q|]; cbn [feq]; split;
    try discriminate; try (intros (p' & q' & H1 & H2 & _); discriminate).
  - intros H. exists p, q. repeat split. now apply Qeq_bool_iff.
  - intros (p' & q' & H1 & H2 & H). inversion H1; inversion H2; subst.
    now apply Qeq_bool_iff.
Qed.

Lemma nth_map_default {A B : Type} (g : A -> B) (l : list A) (i : nat) (d : B) :
  nth i (map g l) d
  = match nth_error l i with
    | Some v => g v
    | None => d
    end.
Proof.
  revert i. induction l as [|x t IH]; intros [|i]; try reflexivity.
  cbn [map nth nth_error]. apply IH.
Qed.

(** [highlight_max] returns one style per entry, and an entry is
    highlighted exactly when it is a number that no number of the row
    exceeds: every entry that ties for the maximum is highlighted, a NaN
    entry never is, and in a row of NaN nothing is. *)
Theorem highlight_max_spec (s : list pyfloat) :
  length (highlight_max s) = length s
  /\ Forall (fun c => c = "background-color: yellow"%string \/ c = EmptyString)
       (highlight_max s)
  /\ forall i,
       nth i (highlight_max s) EmptyString = "background-color: yellow"%string
       <-> exists q, nth_error s i = Some (Fin q)
                     /\ forall p, In (Fin p) s -> (p <= q)%Q.
Proof.
  unfold highlight_max. split; [now rewrite !length_map|]. split.
  { apply Forall_forall. intros c Hc. apply in_map_iff in Hc.
    destruct Hc as [v [<- _]]. destruct v; tauto. }
  intros i. rewrite nth_map_default, nth_error_map.
  pose proof (fold_max_spec s NaN) as Hmax. fold (series_max s) in Hmax.
  destruct (nth_error s i) as [v|] eqn:Ev; cbn [option_map].
  - pose proof (nth_error_In _ _ Ev) as Hin. split.
    + intros H.
      destruct (feq v (series_max s)) eqn:E; [|discriminate H].
      apply feq_true in E. destruct E as (q & m & -> & Hm & Hqm).
      exists q. split; [reflexivity|].
      rewrite Hm in Hmax. destruct Hmax as [_ Hle].
      intros p Hp. rewrite Hqm. apply Hle. now right.
    + intros (q & Hq & Hle). injection Hq as ->.
      assert (E : feq (Fin q) (series_max s) = true).
      { apply feq_true. destruct (series_max s) as [m|].
        - destruct Hmax as [[Hm|Hm] Hup]; [discriminate Hm|].
          exists q, m. repeat split.
          apply Qle_antisym; [apply Hup; now right | now apply Hle].
        - destruct Hmax as [_ Hall]. rewrite Forall_forall in Hall.
          specialize (Hall _ Hin). discriminate Hall. }
      now rewrite E.
  - split; [discriminate|]. intros (q & Hq & _). discriminate Hq.
Qed.

End StylingFacts.

(** ** When the score is NaN *)

Section AucNaN.

Import Np Metrics Evaluator.

Lemma one_side_or_both (true : list Q) (cutoff : Q) :
  (Forall (fun t => t <= cutoff)%Q true
   \/ Forall (fun t => ~ (t <= cutoff)%Q) true)
  \/ ((exists t, In t true /\ (t <= cutoff)%Q)
      /\ (exists t, In t true /\ ~ (t <= cutoff)%Q)).
Proof.
  destruct (forallb (fun t => Qle_bool t cutoff) true) eqn:A.
  { left. left. rewrite forallb_forall in A. apply Forall_forall.
    intros t Ht. apply Qle_bool_iff. now apply A. }
  destruct (forallb (fun t => negb (Qle_bool t cutoff)) true) eqn:B.
  { left. right. rewrite forallb_forall in B. apply Forall_forall.
    intros t Ht Hle. apply Qle_bool_iff in Hle.
    specialize (B t Ht). rewrite Hle in B. discriminate B. }
  right.
  destruct (forallb_false_witness _ _ A) as [u [Hu Eu]].
  destruct (forallb_false_witness _ _ B) as [t [Ht Et]].
  split.
  - exists t. split; [assumption|]. apply Qle_bool_iff.
    now destruct (Qle_bool t cutoff).
  - exists u. split; [assumption|]. intros Hle.
    apply Qle_bool_iff in Hle. congruence.
Qed.

(** On two vectors of one length that are not empty, [auc_score] is NaN
    exactly when the true values all fall on one side of the cutoff;
    the predictions play no role in that. *)
Theorem auc_score_nan_exactly (true sc : list Q) (cutoff : Q) :
  true <> [] ->
  length true = length sc ->
  (auc_score true sc cutoff = inr NaN
   <-> Forall (fun t => t <= cutoff)%Q true
       \/ Forall (fun t => ~ (t <= cutoff)%Q) true).
Proof.
  intros Hne Hlen. split.
  - intros Hnan.
    destruct (one_side_or_both true cutoff) as [H|[Hpos Hneg]]; [assumption|].
    exfalso.
    destruct (@binarize_both_classes true cutoff Hpos Hneg) as [H1 H0].
    rewrite auc_score_roc_auc in Hnan.
    assert (Hl : length (binarize cutoff true)
                 = length (map inject_Z (binarize cutoff sc))).
    { unfold binarize. now rewrite !length_map. }
    destruct (roc_auc_in_unit_interval _ _ Hl H1 H0) as [q [Hq _]].
    rewrite Hq in Hnan. discriminate Hnan.
  - intros Hconst.
    destruct (@auc_score_defined true sc cutoff Hne Hlen)
      as (fpr & tpr & _ & Hauc & L1 & L2 & N1 & N2).
    rewrite Hauc. f_equal.
    rewrite (@trapz_NaN fpr tpr L1 L2); [reflexivity|].
    destruct Hconst as [Hall|Hall]; [left; apply N1 | right; apply N2];
      unfold binarize; rewrite Forall_forall in *; intros v Hv;
      apply in_map_iff in Hv; destruct Hv as [t [<- Ht]]; specialize (Hall t Ht).
    + apply Qle_bool_iff in Hall. now rewrite Hall.
    + destruct (Qle_bool t cutoff) eqn:E; [|discriminate].
      apply Qle_bool_iff in E. contradiction.
Qed.

Lemma auc_score_nan_exactly_witness :
  auc_score [1 # 10; 2 # 10; 3 # 10] [5 # 10; 1 # 10; 7 # 10] default_cutoff
  = inr NaN.
Proof.
  apply auc_score_nan_exactly; [discriminate | reflexivity |].
  left. repeat constructor; vm_compute; discriminate.
Defined.

End AucNaN.

(** ** The score of a thresholded prediction *)

Section SortedMore.

Context {A : Type}.

Lemma sorted_app (R : A -> A -> Prop) (l1 l2 : list A) :
  StronglySorted R l1 -> StronglySorted R l2 ->
  (forall x y, In x l1 -> In y l2 -> R x y) ->
  StronglySorted R (l1 ++ l2).
Proof.
  intros H1 H2 H. induction H1 as [|a t Ht IH Ha]; [exact H2|].
  cbn [app]. constructor.
  - apply IH. intros x y Hx Hy. apply H; [now right | assumption].
  - apply Forall_app. split; [assumption|].
    apply Forall_forall. intros y Hy. apply H; [now left | assumption].
Qed.

Lemma sorted_rev (R : A -> A -> Prop) (l : list A) :
  StronglySorted R l -> StronglySorted (fun a b => R b a) (rev l).
Proof.
  induction 1 as [|a t Ht IH Ha]; [constructor|].
  cbn [rev]. apply sorted_app; [assumption | repeat constructor|].
  intros x y Hx [<-|[]]. apply in_rev in Hx.
  rewrite Forall_forall in Ha. now apply Ha.
Qed.

Lemma sorted_map {B : Type} (f : A -> B) (R : B -> B -> Prop) (l : list A) :
  StronglySorted (fun a b => R (f a) (f b)) l -> StronglySorted R (map f l).
Proof.
  induction 1 as [|a t Ht IH Ha]; [constructor|].
  cbn [map]. constructor; [assumption|].
  apply Forall_forall. intros y Hy. apply in_map_iff in Hy.
  destruct Hy as [x [<- Hx]]. rewrite Forall_forall in Ha. now apply Ha.
Qed.

Lemma filter_length_perm (p : A -> bool) (l l' : list A) :
  Permutation l l' -> length (filter p l) = length (filter p l').
Proof.
  induction 1 as [|x l l' H IH|x y l|l l' l'' H1 IH1 H2 IH2]; cbn [filter].
  - reflexivity.
  - destruct (p x); cbn [length]; now rewrite IH.
  - destruct (p x), (p y); reflexivity.
  - now rewrite IH1.
Qed.

Lemma filter_length_map {B : Type} (f : B -> A) (p : A -> bool) (l : list B) :
  length (filter p (map f l)) = length (filter (fun x => p (f x)) l).
Proof.
  induction l as [|x t IH]; [reflexivity|].
  cbn [map filter]. destruct (p (f x)); cbn [length]; now rewrite IH.
Qed.

Lemma filter_none (p : A -> bool) (l : list A) :
  Forall (fun x => p x = false) l -> filter p l = [].
Proof.
  induction 1 as [|x t Hx Ht IH]; [reflexivity|].
  cbn [filter]. now rewrite Hx.
Qed.

Lemma filter_and_all (p q : A -> bool) (l : list A) :
  Forall (fun x => p x = true) l ->
  filter (fun x => p x && q x) l = filter q l.
Proof.
  induction 1 as [|x t Hx Ht IH]; [reflexivity|].
  cbn [filter]. rewrite Hx, IH. reflexivity.
Qed.

End SortedMore.

Section BinaryShape.

Import Np Metrics.

(** A list of zeros and ones in decreasing order: the ones, then the
    zeros. *)
Lemma binary_desc_shape (l : list Q) :
  Forall (fun q => q = 0%Q \/ q = 1%Q) l ->
  StronglySorted (fun a b => Qle_bool b a = true) l ->
  exists k j, l = repeat 1%Q k ++ repeat 0%Q j.
Proof.
  intros Hb Hs. induction Hs as [|x t Ht IH Hx]; [now exists 0%nat, 0%nat|].
  inversion Hb as [|? ? Bx Bt]; subst.
  destruct (IH Bt) as (k & j & ->).
  destruct Bx as [->| ->].
  - destruct k as [|k].
    + exists 0%nat, (S j). reflexivity.
    + exfalso. cbn [repeat app] in Hx. inversion Hx as [|? ? H1 _]; subst.
      vm_compute in H1. discriminate H1.
  - exists (S k), j. reflexivity.
Qed.

Lemma distinct_value_indices_binary (k j i0 : nat) :
  distinct_value_indices i0 (repeat 1%Q k ++ repeat 0%Q j)
  = if ((k =? 0) || (j =? 0))%nat then [] else [(i0 + k - 1)%nat].
Proof.
  revert i0. induction k as [|k IH]; intros i0.
  - cbn [repeat app Nat.eqb orb].
    apply (no_distinct_values (v := 0%Q)).
    apply Forall_forall. intros x Hx. apply repeat_spec in Hx. now subst.
  - destruct k as [|k].
    + destruct j as [|j]; [reflexivity|].
      cbn [repeat app Nat.eqb orb].
      change (distinct_value_indices i0 (1%Q :: 0%Q :: repeat 0%Q j))
        with (i0 :: distinct_value_indices (S i0) (0%Q :: repeat 0%Q j)).
      rewrite (no_distinct_values (v := 0%Q)).
      * f_equal. lia.
      * apply Forall_forall. intros x Hx.
        change (0%Q :: repeat 0%Q j) with (repeat 0%Q (S j)) in Hx.
        apply repeat_spec in Hx. now subst.
    + change (distinct_value_indices i0 (repeat 1%Q (S (S k)) ++ repeat 0%Q j))
        with (distinct_value_indices (S i0) (repeat 1%Q (S k) ++ repeat 0%Q j)).
      rewrite IH. cbn [Nat.eqb orb].
      destruct (j =? 0)%nat; [reflexivity|]. f_equal. lia.
Qed.

Lemma cumsum_from_nth (a : Z) (l : list Z) (i : nat) :
  (i < length l)%nat ->
  nth i (cumsum_from a l) 0%Z = (a + fold_right Z.add 0 (firstn (S i) l))%Z.
Proof.
  revert a i. induction l as [|x t IH]; intros a i Hi; [cbn in Hi; lia|].
  destruct i as [|i].
  - cbn. destruct t; cbn; lia.
  - cbn [cumsum_from nth]. rewrite IH by (cbn [length] in Hi; lia).
    cbn [firstn fold_right]. lia.
Qed.

Lemma tp_at_sum (ys : list Z) (i : nat) :
  (i < length ys)%nat -> tp_at ys i = fold_right Z.add 0%Z (firstn (S i) ys).
Proof.
  intros Hi. unfold tp_at, cumsum. rewrite cumsum_from_nth by assumption. lia.
Qed.

Lemma binary_sum_count {A : Type} (f : A -> Z) (l : list A) :
  Forall (fun x => f x = 0%Z \/ f x = 1%Z) l ->
  fold_right Z.add 0%Z (map f l)
  = Z.of_nat (length (filter (fun x => (f x =? 1)%Z) l)).
Proof.
  induction 1 as [|x t Hx Ht IH]; [reflexivity|].
  cbn [map fold_right filter]. rewrite IH.
  destruct Hx as [-> | ->]; cbn [Z.eqb Pos.eqb length]; lia.
Qed.

End BinaryShape.

Section CountPairs.

Import Confusion.

Lemma count_pairs_ext (p p' : Z -> Z -> bool) (labels scores : list Z) :
  (forall l s, p l s = p' l s) ->
  count_pairs p labels scores = count_pairs p' labels scores.
Proof.
  intros H. unfold count_pairs. do 2 f_equal.
  apply filter_ext. intros [l s]. apply H.
Qed.

Lemma count_pairs_split (p q : Z -> Z -> bool) (labels scores : list Z) :
  count_pairs q labels scores
  = (count_pairs (fun l s => p l s && q l s) labels scores
     + count_pairs (fun l s => negb (p l s) && q l s) labels scores)%Z.
Proof.
  unfold count_pairs. generalize (combine labels scores). intros l.
  induction l as [|[a b] t IH]; [reflexivity|].
  cbn [filter fst snd]. destruct (p a b), (q a b); cbn [negb andb length]; lia.
Qed.

Lemma combine_maps_swapped {A B C D : Type} (f : B -> C) (g : A -> D)
    (a : list A) (b : list B) :
  combine (map f b) (map g a)
  = map (fun ab => (f (snd ab), g (fst ab))) (combine a b).
Proof.
  revert b. induction a as [|x a IH]; intros [|y b]; try reflexivity.
  cbn [map combine fst snd]. now rewrite IH.
Qed.

Lemma firstn_length_app {A : Type} (l1 l2 : list A) :
  firstn (length l1) (l1 ++ l2) = l1 /\ skipn (length l1) (l1 ++ l2) = l2.
Proof.
  induction l1 as [|x t [IH1 IH2]]; [now split|].
  cbn [length app firstn skipn]. now rewrite IH1, IH2.
Qed.

Lemma map_fst_combine {A B : Type} (a : list A) (b : list B) :
  length a = length b -> map fst (combine a b) = a.
Proof.
  revert b. induction a as [|x a IH]; intros [|y b] H; try discriminate H;
    [reflexivity|].
  cbn [combine map fst]. f_equal. apply IH. now injection H.
Qed.

End CountPairs.

Section ThresholdedScore.

Import Np Metrics Evaluator Confusion.

Variable labels : list Z.
Variable s : list Z.
Hypothesis same_length : length labels = length s.
Hypothesis s_binary : Forall (fun v => v = 0%Z \/ v = 1%Z) s.
Hypothesis has_pos : In 1%Z labels.
Hypothesis has_neg : exists t, In t labels /\ t <> 1%Z.

Local Abbreviation norm := (fun t : Z => if (t =? 1)%Z then 1%Z else 0%Z).
Local Abbreviation y_score := (map inject_Z s).
Local Abbreviation rows := (desc_rows labels y_score 1).
Local Abbreviation ys := (map snd rows).
Local Abbreviation unsorted := (combine y_score (map norm labels)).
Local Abbreviation is1 := (fun r : Q * Z => Qeq_bool (fst r) 1).
Local Abbreviation lab := (fun r : Q * Z => (snd r =? 1)%Z).

Lemma score_length : length labels = length y_score.
Proof. now rewrite length_map. Qed.

Lemma rows_perm : Permutation rows unsorted.
Proof. unfold desc_rows. rewrite <- Permutation_rev. apply sort_by_perm. Qed.

Lemma rows_count (p : Q * Z -> bool) :
  Z.of_nat (length (filter p rows))
  = count_pairs (fun l z => p (inject_Z z, norm l)) labels s.
Proof.
  unfold count_pairs.
  rewrite (filter_length_perm p rows_perm), combine_maps_swapped, filter_length_map.
  reflexivity.
Qed.

Lemma rows_binary : Forall (fun r : Q * Z => snd r = 0%Z \/ snd r = 1%Z) rows.
Proof.
  pose proof (ys_binary labels y_score) as H.
  rewrite Forall_forall in *. intros r Hr. apply H. now apply in_map.
Qed.

Lemma ss_shape : exists k j, map fst rows = repeat 1%Q k ++ repeat 0%Q j.
Proof.
  apply binary_desc_shape.
  - apply Forall_forall. intros q Hq. apply in_map_iff in Hq.
    destruct Hq as [[q' l] [<- Hin]].
    apply (Permutation_in _ rows_perm) in Hin. apply in_combine_l in Hin.
    apply in_map_iff in Hin. destruct Hin as [z [<- Hz]].
    rewrite Forall_forall in s_binary.
    destruct (s_binary z Hz) as [-> | ->]; [left | right]; reflexivity.
  - apply sorted_map. unfold desc_rows.
    apply (sorted_rev (R := fun a b : Q * Z => Qle_bool (fst a) (fst b) = true)).
    apply (sort_by_sorted (fun a b : Q * Z => Qle_bool (fst a) (fst b))).
    + intros a b. destruct (Qlt_le_dec (fst b) (fst a)) as [L|L].
      * right. apply Qle_bool_iff. now apply Qlt_le_weak.
      * left. now apply Qle_bool_iff.
    + intros a b c H1 H2. apply Qle_bool_iff in H1, H2. apply Qle_bool_iff.
      now apply (Qle_trans _ (fst b)).
Qed.

Lemma positives_total :
  tp_at ys (length ys - 1) = count_pairs (fun l _ => (l =? 1)%Z) labels s.
Proof.
  assert (Hn : (0 < length ys)%nat).
  { rewrite (ys_length labels y_score score_length).
    destruct labels; [contradiction | cbn; lia]. }
  rewrite tp_at_sum by lia.
  replace (S (length ys - 1)) with (length ys) by lia.
  rewrite firstn_all, (binary_sum_count snd rows_binary), (rows_count lab).
  apply count_pairs_ext. intros l z. cbn [snd]. now destruct (l =? 1)%Z.
Qed.

Lemma negatives_total :
  fp_at ys (length ys - 1) = count_pairs (fun l _ => negb (l =? 1)%Z) labels s.
Proof.
  assert (Hn : (0 < length ys)%nat).
  { rewrite (ys_length labels y_score score_length).
    destruct labels; [contradiction | cbn; lia]. }
  unfold fp_at. rewrite positives_total.
  assert (Hall : Z.of_nat (length ys) = count_pairs (fun _ _ => true) labels s).
  { rewrite length_map. rewrite <- (rows_count (fun _ => true)).
    do 2 f_equal. symmetry. apply filter_all. intros x _. reflexivity. }
  rewrite (count_pairs_split (fun l _ => (l =? 1)%Z) (fun _ _ => true)) in Hall.
  rewrite (count_pairs_ext (fun l _ => (l =? 1)%Z && true) (fun l _ => (l =? 1)%Z))
    in Hall by (intros; apply andb_true_r).
  rewrite (count_pairs_ext (fun l _ => negb (l =? 1)%Z && true)
             (fun l _ => negb (l =? 1)%Z)) in Hall by (intros; apply andb_true_r).
  lia.
Qed.

(** With [k] ones before the zeros among the sorted scores: the rows that
    satisfy a condition among the first [k] are the rows with score one
    that satisfy it. *)
Lemma leading_rows (k j : nat) (q : Q * Z -> bool) :
  map fst rows = repeat 1%Q k ++ repeat 0%Q j ->
  length (filter q (firstn k rows)) = length (filter (fun r => is1 r && q r) rows).
Proof.
  intros Hshape.
  assert (Hk : k = length (repeat 1%Q k)) by (now rewrite repeat_length).
  assert (H1 : map fst (firstn k rows) = repeat 1%Q k).
  { rewrite <- firstn_map, Hshape. rewrite Hk at 1.
    apply (firstn_length_app (repeat 1%Q k) (repeat 0%Q j)). }
  assert (H0 : map fst (skipn k rows) = repeat 0%Q j).
  { rewrite <- skipn_map, Hshape. rewrite Hk at 1.
    apply (firstn_length_app (repeat 1%Q k) (repeat 0%Q j)). }
  rewrite <- (firstn_skipn k rows) at 2.
  rewrite filter_app, length_app.
  rewrite (filter_and_all is1 q), (@filter_none _ (fun r => is1 r && q r) (skipn k rows)).
  - cbn [length]. lia.
  - apply Forall_forall. intros r Hr.
    assert (E : fst r = 0%Q).
    { apply (repeat_spec j). rewrite <- H0. now apply in_map. }
    rewrite E. reflexivity.
  - apply Forall_forall. intros r Hr.
    assert (E : fst r = 1%Q).
    { apply (repeat_spec k). rewrite <- H1. now apply in_map. }
    rewrite E. reflexivity.
Qed.

Lemma is_one (z : Z) : Qeq_bool (inject_Z z) 1 = (z =? 1)%Z.
Proof.
  unfold Qeq_bool, inject_Z. cbn [Qnum Qden].
  rewrite !Z.mul_1_r. reflexivity.
Qed.

Lemma hits_at (k j : nat) :
  map fst rows = repeat 1%Q k ++ repeat 0%Q j -> (1 <= k)%nat ->
  tp_at ys (k - 1) = count_pairs (fun l z => (l =? 1)%Z && (z =? 1)%Z) labels s.
Proof.
  intros Hshape Hk.
  assert (Hlen : length ys = (k + j)%nat).
  { rewrite length_map, <- (length_map fst), Hshape, length_app, !repeat_length.
    reflexivity. }
  rewrite tp_at_sum by lia.
  replace (S (k - 1)) with k by lia.
  rewrite firstn_map.
  rewrite (@binary_sum_count _ snd (firstn k rows)).
  - rewrite (@leading_rows k j lab Hshape), (rows_count (fun r => is1 r && lab r)).
    apply count_pairs_ext. intros l z. cbn [fst snd]. rewrite is_one.
    destruct (l =? 1)%Z, (z =? 1)%Z; reflexivity.
  - pose proof rows_binary as H. rewrite <- (firstn_skipn k rows) in H.
    apply Forall_app in H. exact (proj1 H).
Qed.

Lemma false_alarms_at (k j : nat) :
  map fst rows = repeat 1%Q k ++ repeat 0%Q j -> (1 <= k)%nat ->
  fp_at ys (k - 1)
  = count_pairs (fun l z => negb (l =? 1)%Z && (z =? 1)%Z) labels s.
Proof.
  intros Hshape Hk. unfold fp_at. rewrite (@hits_at k j Hshape Hk).
  assert (Hlen : length rows = (k + j)%nat).
  { rewrite <- (length_map fst), Hshape, length_app, !repeat_length.
    reflexivity. }
  assert (Hones : Z.of_nat k = count_pairs (fun _ z => (z =? 1)%Z) labels s).
  { assert (E : k = length (filter (fun _ => true) (firstn k rows))).
    { rewrite filter_all by reflexivity. rewrite length_firstn. lia. }
    rewrite E at 1.
    rewrite (@leading_rows k j (fun _ => true) Hshape),
      (rows_count (fun r => is1 r && true)).
    apply count_pairs_ext. intros l z. cbn [fst]. rewrite is_one.
    apply andb_true_r. }
  rewrite (count_pairs_split (fun l _ => (l =? 1)%Z) (fun _ z => (z =? 1)%Z))
    in Hones.
  lia.
Qed.

Local Abbreviation TP :=
  (count_pairs (fun l z => (l =? 1)%Z && (z =? 1)%Z) labels s).
Local Abbreviation FP :=
  (count_pairs (fun l z => negb (l =? 1)%Z && (z =? 1)%Z) labels s).
Local Abbreviation Pn := (count_pairs (fun l _ => (l =? 1)%Z) labels s).
Local Abbreviation Nn := (count_pairs (fun l _ => negb (l =? 1)%Z) labels s).

Lemma totals : (1 <= Pn)%Z /\ (1 <= Nn)%Z.
Proof.
  destruct (totals_positive labels y_score score_length has_pos has_neg)
    as [Hf Ht].
  rewrite negatives_total in Hf. rewrite positives_total in Ht. now split.
Qed.

Lemma leading_count (k j : nat) (q : Z -> bool) :
  map fst rows = repeat 1%Q k ++ repeat 0%Q j ->
  Z.of_nat (length (filter (fun r : Q * Z => q (snd r)) (firstn k rows)))
  = count_pairs (fun l z => q (norm l) && (z =? 1)%Z) labels s.
Proof.
  intros Hshape.
  rewrite (@leading_rows k j _ Hshape),
    (rows_count (fun r => is1 r && q (snd r))).
  apply count_pairs_ext. intros l z. cbn [fst snd]. rewrite is_one.
  apply andb_comm.
Qed.

Lemma constant_score (v : Q) (n : nat) :
  map fst rows = repeat v n -> Forall (eq v) y_score.
Proof.
  intros Hshape. apply Forall_forall. intros x Hx.
  rewrite <- (@map_fst_combine _ _ y_score (map norm labels)) in Hx
    by (rewrite !length_map; symmetry; exact same_length).
  apply (Permutation_in _ (Permutation_map fst (Permutation_sym rows_perm))) in Hx.
  rewrite Hshape in Hx. apply repeat_spec in Hx. now subst.
Qed.

(** The area for a score of zeros and ones: one half of
    [1 + TP/P - FP/N]. *)
Lemma roc_auc_thresholded :
  exists q,
    roc_auc labels y_score = inr (Fin q)
    /\ (q == (1 + inject_Z TP / inject_Z Pn - inject_Z FP / inject_Z Nn) / 2)%Q.
Proof.
  destruct totals as [HP HN].
  assert (QP : (0 < inject_Z Pn)%Q).
  { change 0%Q with (inject_Z 0). rewrite <- Zlt_Qlt. lia. }
  assert (QN : (0 < inject_Z Nn)%Q).
  { change 0%Q with (inject_Z 0). rewrite <- Zlt_Qlt. lia. }
  destruct ss_shape as (k & j & Hshape).
  assert (Hlen : length rows = (k + j)%nat).
  { rewrite <- (length_map fst), Hshape, length_app, !repeat_length.
    reflexivity. }
  pose proof (@leading_count k j (fun t => (t =? 1)%Z) Hshape) as Ct.
  pose proof (@leading_count k j (fun t => negb (t =? 1)%Z) Hshape) as Cf.
  rewrite (count_pairs_ext (fun l z => (norm l =? 1)%Z && (z =? 1)%Z)
             (fun l z => (l =? 1)%Z && (z =? 1)%Z)) in Ct
    by (intros l z; now destruct (l =? 1)%Z).
  rewrite (count_pairs_ext (fun l z => negb (norm l =? 1)%Z && (z =? 1)%Z)
             (fun l z => negb (l =? 1)%Z && (z =? 1)%Z)) in Cf
    by (intros l z; now destruct (l =? 1)%Z).
  destruct (Nat.eq_dec k 0) as [K|K]; [|destruct (Nat.eq_dec j 0) as [J|J]].
  - subst k. cbn [repeat app firstn filter length] in *.
    destruct (@roc_auc_constant_score labels y_score 0%Q score_length has_pos
                has_neg (@constant_score _ _ Hshape)) as [q [Hq E]].
    exists q. split; [assumption|]. rewrite E, <- Ct, <- Cf.
    change (inject_Z (Z.of_nat 0)) with 0%Q. field. split; Lqa.lra.
  - subst j. rewrite app_nil_r in Hshape.
    rewrite firstn_all2 in Ct, Cf by lia.
    rewrite (rows_count (fun r => (snd r =? 1)%Z)) in Ct.
    rewrite (rows_count (fun r => negb (snd r =? 1)%Z)) in Cf.
    rewrite (count_pairs_ext (fun l _ => (norm l =? 1)%Z)
               (fun l _ => (l =? 1)%Z)) in Ct
      by (intros l z; now destruct (l =? 1)%Z).
    rewrite (count_pairs_ext (fun l _ => negb (norm l =? 1)%Z)
               (fun l _ => negb (l =? 1)%Z)) in Cf
      by (intros l z; now destruct (l =? 1)%Z).
    destruct (@roc_auc_constant_score labels y_score 1%Q score_length has_pos
                has_neg (@constant_score _ _ Hshape)) as [q [Hq E]].
    exists q. split; [assumption|]. rewrite E, <- Ct, <- Cf.
    field. split; Lqa.lra.
  - assert (Hle : (fp_at ys (k - 1) <= fp_at ys (length ys - 1))%Z).
    { apply (fp_at_mono (ys_binary labels y_score)); rewrite length_map; lia. }
    assert (H0 : (0 <= fp_at ys (k - 1))%Z).
    { apply (fp_at_nonneg (ys_binary labels y_score)). rewrite length_map. lia. }
    unfold roc_auc.
    rewrite (roc_curve_eq labels y_score score_length has_pos has_neg).
    rewrite Hshape, distinct_value_indices_binary.
    destruct (Nat.eqb_spec k 0) as [|_]; [contradiction|].
    destruct (Nat.eqb_spec j 0) as [|_]; [contradiction|].
    cbn [orb app map Nat.add].
    rewrite (@hits_at k j Hshape ltac:(lia)),
      (@false_alarms_at k j Hshape ltac:(lia)) in *.
    rewrite positives_total, negatives_total in *.
    revert HP HN QP QN Hle H0. clear Ct Cf.
    generalize TP, FP, Pn, Nn. intros tp fp pn nn HP HN QP QN Hle H0.
    unfold drop_intermediate. cbn [length Nat.ltb Nat.leb map fst snd Py.bind].
    unfold rate. cbn [last].
    destruct (Z.leb_spec nn 0) as [L|_]; [lia|].
    destruct (Z.leb_spec pn 0) as [L|_]; [lia|].
    rewrite (@auc_no_step_down
               (map (fun c => Fin (inject_Z c / inject_Z nn)) [0%Z; fp; nn])
               (map (fun c => Fin (inject_Z c / inject_Z pn)) [0%Z; tp; pn])
               eq_refl).
    + eexists. split; [reflexivity|].
      cbn [map]. unfold trapz.
      cbn [diff tl combine map fst snd fadd fsub fmul fdiv fsum fold_left].
      change (Qeq_bool 2 0) with false. cbn iota.
      change (inject_Z 0) with 0%Q. field. split; Lqa.lra.
    + cbn. lia.
    + apply scaled_no_step_down; [lia|].
      repeat constructor; lia.
Qed.

End ThresholdedScore.

Section BalancedAccuracy.

Import Np Metrics Evaluator Confusion.

Lemma binarize_binary (cutoff : Q) (v : list Q) :
  Forall (fun z => z = 0%Z \/ z = 1%Z) (binarize cutoff v).
Proof.
  apply Forall_forall. intros z Hz. unfold binarize in Hz.
  apply in_map_iff in Hz. destruct Hz as [t [<- _]].
  destruct (Qle_bool t cutoff); tauto.
Qed.

(** When the two vectors have one length and the true values fall on both
    sides of the cutoff, [auc_score] is the balanced accuracy of the
    thresholded prediction: with a row counted as positive when its value
    is at or below the cutoff, the score is the mean of the fraction of
    positive rows predicted positive and the fraction of negative rows
    predicted negative, [(1 + TP/P - FP/N) / 2].  How far a prediction is
    from the cutoff plays no role. *)
Theorem auc_score_balanced_accuracy (true sc : list Q) (cutoff : Q) :
  length true = length sc ->
  (exists t, In t true /\ (t <= cutoff)%Q) ->
  (exists t, In t true /\ ~ (t <= cutoff)%Q) ->
  exists q,
    auc_score true sc cutoff = inr (Fin q)
    /\ (q == (1 + inject_Z (true_positives cutoff true sc)
                  / inject_Z (positives cutoff true sc)
              - inject_Z (false_positives cutoff true sc)
                / inject_Z (negatives cutoff true sc)) / 2)%Q
    /\ (1 <= positives cutoff true sc)%Z
    /\ (1 <= negatives cutoff true sc)%Z.
Proof.
  intros Hlen Hpos Hneg.
  destruct (@binarize_both_classes true cutoff Hpos Hneg) as [H1 H0].
  assert (Hl : length (binarize cutoff true) = length (binarize cutoff sc)).
  { unfold binarize. now rewrite !length_map. }
  rewrite auc_score_roc_auc.
  destruct (@roc_auc_thresholded (binarize cutoff true) (binarize cutoff sc)
              Hl (binarize_binary cutoff sc) H1 H0) as [q [Hq E]].
  destruct (@totals (binarize cutoff true) (binarize cutoff sc)
              Hl (binarize_binary cutoff sc) H1 H0) as [HP HN].
  exists q. split; [exact Hq|]. split; [exact E|]. split; [exact HP | exact HN].
Qed.

Lemma auc_score_balanced_accuracy_witness :
  exists q,
    auc_score [1 # 10; 9 # 10; 3 # 10; 7 # 10] [2 # 10; 8 # 10; 6 # 10; 9 # 10]
      default_cutoff = inr (Fin q)
    /\ (q == 3 # 4)%Q.
Proof.
  destruct (@auc_score_balanced_accuracy
              [1 # 10; 9 # 10; 3 # 10; 7 # 10] [2 # 10; 8 # 10; 6 # 10; 9 # 10]
              default_cutoff) as (q & Hq & E & _).
  - reflexivity.
  - exists (1 # 10). split; [cbn; tauto | vm_compute; discriminate].
  - exists (9 # 10). split; [cbn; tauto | vm_compute; intros H; apply H; reflexivity].
  - exists q. split; [exact Hq|]. rewrite E. vm_compute. reflexivity.
Defined.

End BalancedAccuracy.

(** ** The one-hot code determines the peptide *)

Section OneHotInjective.

Import Pd Encoder EncoderSpec.

Lemma indicator_row_inj (a b : ascii) :
  In a codes -> map (indicator a) codes = map (indicator b) codes -> a = b.
Proof.
  intros Ha E.
  assert (H : indicator a a = indicator b a).
  { destruct (In_nth _ _ Ascii.zero Ha) as [j [Hj Hn]].
    pose proof (f_equal (fun l => nth j l 0%Z) E) as Ej. cbn beta in Ej.
    rewrite !indicator_row_nth, Hn in Ej by assumption. exact Ej. }
  unfold indicator in H. rewrite Ascii.eqb_refl in H.
  destruct (Ascii.eqb_spec b a) as [->|_]; [reflexivity | discriminate H].
Qed.

Lemma app_same_length {A : Type} (a b c d : list A) :
  length a = length c -> a ++ b = c ++ d -> a = c /\ b = d.
Proof.
  revert c. induction a as [|x a IH]; intros [|y c] Hl E; try discriminate Hl.
  - now split.
  - cbn [app] in E. injection E as -> E. injection Hl as Hl.
    destruct (IH c Hl E) as [-> ->]. now split.
Qed.

Lemma one_hot_blocks_inj (l1 l2 : list ascii) :
  Forall (fun c => In c codes) l1 ->
  flat_map (fun c => map (indicator c) codes) l1
  = flat_map (fun c => map (indicator c) codes) l2 ->
  l1 = l2.
Proof.
  intros H1. revert l2. induction H1 as [|a t Ha Ht IH]; intros [|b u] E.
  - reflexivity.
  - cbn [flat_map] in E. apply (f_equal (@length _)) in E.
    rewrite length_app, length_map, codes_length in E. cbn [length] in E. lia.
  - cbn [flat_map] in E. apply (f_equal (@length _)) in E.
    rewrite length_app, length_map, codes_length in E. cbn [length] in E. lia.
  - cbn [flat_map] in E. apply app_same_length in E.
    + destruct E as [E1 E2]. f_equal; [now apply indicator_row_inj | now apply IH].
    + now rewrite !length_map.
Qed.

(** On non-empty peptides over the 20-letter alphabet the one-hot code is
    lossless: two such peptides with the same code are the same peptide.
    Outside the alphabet it is not: the one-letter strings [1] and [2]
    have the same code. *)
Theorem one_hot_encode_injective (p q : string) :
  (p <> EmptyString -> q <> EmptyString ->
   over_alphabet p -> over_alphabet q ->
   one_hot_encode p = one_hot_encode q -> p = q)
  /\ one_hot_encode "1" = one_hot_encode "2".
Proof.
  split; [|vm_compute; reflexivity].
  intros Hp Hq Ap Aq E.
  rewrite (one_hot_encode_eq Hp), (one_hot_encode_eq Hq) in E.
  rewrite (one_hot_columns_alphabet Ap), (one_hot_columns_alphabet Aq) in E.
  injection E as E. apply (@one_hot_blocks_inj _ _ Ap) in E.
  rewrite <- (string_of_list_ascii_of_string p), <- (string_of_list_ascii_of_string q).
  now rewrite E.
Qed.

Lemma one_hot_encode_injective_witness :
  over_alphabet pep
  /\ one_hot_encode pep = one_hot_encode "ALDFEQEMT"
  /\ pep = "ALDFEQEMT"%string.
Proof.
  destruct (one_hot_encode_injective pep "ALDFEQEMT") as [H _].
  assert (A : over_alphabet pep).
  { unfold over_alphabet. apply Forall_forall. intros c Hc. apply mem_In.
    revert c Hc. apply Forall_forall.
    repeat (constructor; [reflexivity|]). constructor. }
  split; [exact A|]. split; [reflexivity|].
  apply H; [discriminate | discriminate | exact A | exact A | reflexivity].
Defined.

End OneHotInjective.
